(** * VAP-Realtime: streaming transport and windowing layer

    A shallow embedding of [rvap/vap_bc/vap_bc_main.py] (the input ingest
    server, the inference context and the result distributor) and of the
    console consumer [output/console.py], followed by the properties of the
    specification, stated and proved on the embedded code.

    Conventions.
    - numpy arrays and Python lists of samples are [list sample]; a sample is
      an opaque value (the code never inspects one) with a distinguished zero,
      the entry of [np.zeros].
    - readings of [time.time()] are integers (clock ticks); the code only
      stores, copies, subtracts and compares them.
    - byte strings are [list byte]; sizes are [nat], and [N] where they are
      turned into bytes.
    - the neural model and [rvap.common.util] are collaborators outside the
      embedded files: they are Section variables, and may raise ([None]).
    - a blocking socket is a script of what the peer will deliver. *)

From Stdlib Require Import List ZArith NArith QArith Lia Bool Arith PeanoNat Sorted.
From Stdlib Require Import Strings.Byte.
From Stdlib Require Strings.String.
Import ListNotations.
Close Scope Q_scope.

Set Implicit Arguments.

(** * Part I: the embedded program *)

(** ** Python sequence slicing *)

Module Py.

(** [x[n:]] for a non-negative literal [n]. *)
Definition slice_from {A} (n : nat) (x : list A) : list A := skipn n x.

(** [x[-n:]] for a non-negative literal [n]: the start index [-n] is
    [len(x) - n] clipped at 0, and [-0] is 0 (the whole sequence). *)
Definition slice_last {A} (n : nat) (x : list A) : list A :=
  match n with
  | O => x
  | S _ => skipn (length x - n) x
  end.

(** [lst.remove(x)]: drops the first element equal to [x]. ([ValueError] on
    an absent [x] is not modelled: every caller removes an element it has
    just read from the list.) *)
Fixpoint remove {A} (eqb : A -> A -> bool) (x : A) (lst : list A) : list A :=
  match lst with
  | [] => []
  | y :: lst' => if eqb x y then lst' else y :: remove eqb x lst'
  end.

(** [int.from_bytes(bs, 'little')], for a byte string of any length. *)
Fixpoint from_bytes_little (bs : list byte) : N :=
  match bs with
  | [] => 0%N
  | b :: bs' => (Byte.to_N b + 256 * from_bytes_little bs')%N
  end.

Definition byte_of_N (n : N) : byte :=
  match Byte.of_N (n mod 256) with
  | Some b => b
  | None => x00
  end.

(** [n.to_bytes(4, 'little')]: [None] is the [OverflowError] of an [n] that
    does not fit four bytes. *)
Definition to_bytes4_little (n : N) : option (list byte) :=
  if (n <? 4294967296)%N
  then Some [byte_of_N n; byte_of_N (n / 256);
             byte_of_N (n / 65536); byte_of_N (n / 16777216)]
  else None.

End Py.

(** ** Sockets *)

Module Socket.

(** What a connected peer delivers, in order: a run of bytes that arrives
    together, or a failure of the connection (the next [recv] raises). When
    the script is used up the peer has closed: [recv] returns [b'']. *)
Inductive segment : Type :=
| Bytes (bs : list byte)
| Reset.

Definition conn : Type := list segment.

Inductive recv_result : Type :=
| Got (data : list byte)
| Raised.

(** [conn.recv(n)] on a blocking socket: at most [n] bytes of what arrives
    next; the rest of a longer segment stays for the next call. It returns
    [b''] only when the peer has closed (and for [n = 0]). *)
Fixpoint recv (n : nat) (s : conn) : recv_result * conn :=
  match s with
  | [] => (Got [], [])
  | Reset :: s' => (Raised, s')
  | Bytes [] :: s' => recv n s'
  | Bytes bs :: s' =>
      if length bs <=? n then (Got bs, s')
      else (Got (firstn n bs), Bytes (skipn n bs) :: s')
  end.

(** A bound on the number of [recv] calls a script can answer with data. *)
Fixpoint weight (s : conn) : nat :=
  match s with
  | [] => 0
  | Bytes bs :: s' => S (length bs + weight s')
  | Reset :: s' => S (weight s')
  end.

(** All the bytes of a script, when nothing in it fails. *)
Fixpoint contents (s : conn) : list byte :=
  match s with
  | [] => []
  | Bytes bs :: s' => bs ++ contents s'
  | Reset :: s' => contents s'
  end.

(** No failure in the script. *)
Fixpoint clean (s : conn) : bool :=
  match s with
  | [] => true
  | Bytes _ :: s' => clean s'
  | Reset :: _ => false
  end.

End Socket.

Section Model.

Variable sample : Type.
Variable zero : sample.

(** The model collaborator ([VapGPT]): an embedding per channel from
    [encode_audio], and the two backchannel probabilities read off the heads
    ([p_bc_react.tolist()[0][-1]], [p_bc_emo.tolist()[0][-1]]) from the two
    embedding contexts. [None]: the collaborator raised. *)
Variable embedding : Type.
Variable prob : Type.
Variable prob_zero : prob.
Variable encode_audio : list sample -> list sample -> option (embedding * embedding).
Variable infer : list embedding -> list embedding -> option (prob * prob).

(** ** AudioWindowAssembler: the buffering of [proc_serv_in] *)

Definition FRAME_SIZE_INPUT : nat := 160.
Definition FRAME_SIZE_VAP : nat := 1600.
Definition FRAME_SAVE_LAST : nat := 320.

(** The two locals [current_x1], [current_x2] of [proc_serv_in]. *)
Record buffers : Type := Buffers {
  current_x1 : list sample;
  current_x2 : list sample
}.

(** A decoded chunk [(x1, x2)], and a window handed to [process_vap]. *)
Definition chunk : Type := (list sample * list sample)%type.
Definition window : Type := (list sample * list sample)%type.

(** [current_x1 = np.zeros(FRAME_SAVE_LAST)], and the same for channel 2. *)
Definition init_buffers : buffers :=
  Buffers (repeat zero FRAME_SAVE_LAST) (repeat zero FRAME_SAVE_LAST).

(** One pass through the body of the streaming loop after a chunk was
    decoded: the two [np.concatenate], the readiness test on channel 1 (the
    [continue]), the window passed to [vap.process_vap] and the two
    [[-FRAME_SAVE_LAST:]] truncations. [None] is "not ready". *)
Definition ingest (b : buffers) (c : chunk) : buffers * option window :=
  let c1 := current_x1 b ++ fst c in
  let c2 := current_x2 b ++ snd c in
  if length c1 <? FRAME_SIZE_VAP + FRAME_SAVE_LAST
  then (Buffers c1 c2, None)
  else (Buffers (Py.slice_last FRAME_SAVE_LAST c1)
                (Py.slice_last FRAME_SAVE_LAST c2),
        Some (c1, c2)).

(** The loop over a stream of chunks; the result lists, per chunk and in
    arrival order, what [ingest] returned. *)
Fixpoint feed (b : buffers) (cs : list chunk) : buffers * list (option window) :=
  match cs with
  | [] => (b, [])
  | c :: cs' =>
      let '(b1, o) := ingest b c in
      let '(b2, os) := feed b1 cs' in
      (b2, o :: os)
  end.

(** The windows among the per-chunk results, in emission order. *)
Fixpoint emitted (os : list (option window)) : list window :=
  match os with
  | [] => []
  | Some w :: os' => w :: emitted os'
  | None :: os' => emitted os'
  end.

(** ** InferenceContext: [VAPRealTime] *)

Definition AUDIO_CONTEXT_LIM : nat := 50.
Definition frame_contxt_padding : nat := 320.
Definition CALC_PROCESS_TIME_INTERVAL : nat := 100.

(** The fields of a [VAPRealTime] object that [process_vap] and the
    distributor touch, and what the object has printed. *)
Record VAPRealTime : Type := MkVAP {
  current_x1_audio : list sample;
  current_x2_audio : list sample;
  result_p_bc_react : prob;
  result_p_bc_emo : prob;
  result_last_time : Z;
  process_time_abs : Z;
  e1_context : list embedding;
  e2_context : list embedding;
  list_process_time_context : list Z;
  stdout : list Q
}.

(** [__init__]. *)
Definition new_vap : VAPRealTime :=
  MkVAP [] [] prob_zero prob_zero (-1) (-1) [] [] [] [].

Definition set_current_x1_audio (a : list sample) (v : VAPRealTime) :=
  MkVAP a (current_x2_audio v) (result_p_bc_react v) (result_p_bc_emo v)
        (result_last_time v) (process_time_abs v) (e1_context v) (e2_context v)
        (list_process_time_context v) (stdout v).
Definition set_current_x2_audio (a : list sample) (v : VAPRealTime) :=
  MkVAP (current_x1_audio v) a (result_p_bc_react v) (result_p_bc_emo v)
        (result_last_time v) (process_time_abs v) (e1_context v) (e2_context v)
        (list_process_time_context v) (stdout v).
Definition set_result_p_bc_react (p : prob) (v : VAPRealTime) :=
  MkVAP (current_x1_audio v) (current_x2_audio v) p (result_p_bc_emo v)
        (result_last_time v) (process_time_abs v) (e1_context v) (e2_context v)
        (list_process_time_context v) (stdout v).
Definition set_result_p_bc_emo (p : prob) (v : VAPRealTime) :=
  MkVAP (current_x1_audio v) (current_x2_audio v) (result_p_bc_react v) p
        (result_last_time v) (process_time_abs v) (e1_context v) (e2_context v)
        (list_process_time_context v) (stdout v).
Definition set_result_last_time (t : Z) (v : VAPRealTime) :=
  MkVAP (current_x1_audio v) (current_x2_audio v) (result_p_bc_react v)
        (result_p_bc_emo v) t (process_time_abs v) (e1_context v) (e2_context v)
        (list_process_time_context v) (stdout v).
Definition set_process_time_abs (t : Z) (v : VAPRealTime) :=
  MkVAP (current_x1_audio v) (current_x2_audio v) (result_p_bc_react v)
        (result_p_bc_emo v) (result_last_time v) t (e1_context v) (e2_context v)
        (list_process_time_context v) (stdout v).
Definition set_e1_context (c : list embedding) (v : VAPRealTime) :=
  MkVAP (current_x1_audio v) (current_x2_audio v) (result_p_bc_react v)
        (result_p_bc_emo v) (result_last_time v) (process_time_abs v) c (e2_context v)
        (list_process_time_context v) (stdout v).
Definition set_e2_context (c : list embedding) (v : VAPRealTime) :=
  MkVAP (current_x1_audio v) (current_x2_audio v) (result_p_bc_react v)
        (result_p_bc_emo v) (result_last_time v) (process_time_abs v) (e1_context v) c
        (list_process_time_context v) (stdout v).
Definition set_list_process_time_context (l : list Z) (v : VAPRealTime) :=
  MkVAP (current_x1_audio v) (current_x2_audio v) (result_p_bc_react v)
        (result_p_bc_emo v) (result_last_time v) (process_time_abs v) (e1_context v)
        (e2_context v) l (stdout v).
Definition print (q : Q) (v : VAPRealTime) :=
  MkVAP (current_x1_audio v) (current_x2_audio v) (result_p_bc_react v)
        (result_p_bc_emo v) (result_last_time v) (process_time_abs v) (e1_context v)
        (e2_context v) (list_process_time_context v) (stdout v ++ [q]).

(** [np.average] of a non-empty list of latencies, as an exact fraction. *)
Definition average (l : list Z) : Q :=
  Qmake (fold_right Z.add 0%Z l) (Pos.of_nat (length l)).

(** The four readings of [time.time()] in one call of [process_vap], in the
    order they are taken (lines 245, 312, 314 and 324). *)
Record clock_reads : Type := ClockReads {
  t_start : Z;
  t_result : Z;
  t_end : Z;
  t_abs : Z
}.

(** Where a call of [process_vap] stands: the source line it executes next,
    with the locals that line needs. *)
Inductive vap_pc : Type :=
| L248 | L249 | L256
| L258 (e1 e2 : embedding) | L259 (e2 : embedding)
| L261 | L263 | L266
| L310 (p_bc_react p_bc_emo : prob) | L311 (p_bc_emo : prob)
| L312 | L314 | L317 (time_process : Z) | L319 | L324
| L_return | L_raise.

(** One statement of [process_vap(x1, x2)]. *)
Definition vap_step (c : clock_reads) (x1 x2 : list sample)
    (pc : vap_pc) (v : VAPRealTime) : vap_pc * VAPRealTime :=
  match pc with
  | L248 => (L249, set_current_x1_audio (Py.slice_from frame_contxt_padding x1) v)
  | L249 => (L256, set_current_x2_audio (Py.slice_from frame_contxt_padding x2) v)
  | L256 => match encode_audio x1 x2 with
            | Some (e1, e2) => (L258 e1 e2, v)
            | None => (L_raise, v)
            end
  | L258 e1 e2 => (L259 e2, set_e1_context (e1_context v ++ [e1]) v)
  | L259 e2 => (L261, set_e2_context (e2_context v ++ [e2]) v)
  | L261 => (L263,
             if AUDIO_CONTEXT_LIM <? length (e1_context v)
             then set_e1_context (Py.slice_last AUDIO_CONTEXT_LIM (e1_context v)) v
             else v)
  | L263 => (L266,
             if AUDIO_CONTEXT_LIM <? length (e2_context v)
             then set_e2_context (Py.slice_last AUDIO_CONTEXT_LIM (e2_context v)) v
             else v)
  | L266 => match infer (e1_context v) (e2_context v) with
            | Some (p_bc_react, p_bc_emo) => (L310 p_bc_react p_bc_emo, v)
            | None => (L_raise, v)
            end
  | L310 p_bc_react p_bc_emo => (L311 p_bc_emo, set_result_p_bc_react p_bc_react v)
  | L311 p_bc_emo => (L312, set_result_p_bc_emo p_bc_emo v)
  | L312 => (L314, set_result_last_time (t_result c) v)
  | L314 => (L317 (t_end c - t_start c)%Z, v)
  | L317 time_process =>
      (L319, set_list_process_time_context
               (list_process_time_context v ++ [time_process]) v)
  | L319 => (L324,
             if CALC_PROCESS_TIME_INTERVAL <? length (list_process_time_context v)
             then set_list_process_time_context []
                    (print (average (list_process_time_context v)) v)
             else v)
  | L324 => (L_return, set_process_time_abs (t_abs c) v)
  | L_return => (L_return, v)
  | L_raise => (L_raise, v)
  end.

(** Statements in a row, from a given line. *)
Fixpoint vap_run (n : nat) (c : clock_reads) (x1 x2 : list sample)
    (pc : vap_pc) (v : VAPRealTime) : vap_pc * VAPRealTime :=
  match n with
  | O => (pc, v)
  | S n' => let '(pc', v') := vap_step c x1 x2 pc v in vap_run n' c x1 x2 pc' v'
  end.

(** A whole call: the fifteen statements from line 248 on. The first
    component is [L_return], or [L_raise] when the collaborator raised. *)
Definition process_vap (c : clock_reads) (x1 x2 : list sample)
    (v : VAPRealTime) : vap_pc * VAPRealTime :=
  vap_run 15 c x1 x2 L248 v.

(** A sequence of calls on one object, as the ingest thread makes them (a
    call that raises leaves the object as it was at the raise). *)
Definition call : Type := (clock_reads * window)%type.

Fixpoint run_calls (cs : list call) (v : VAPRealTime) : VAPRealTime :=
  match cs with
  | [] => v
  | (c, (x1, x2)) :: cs' => run_calls cs' (snd (process_vap c x1 x2 v))
  end.

(** ** InputIngestServer: [proc_serv_in] *)

(** [util.conv_bytearray_2_2floatarray]; [None]: it raised. *)
Variable conv_bytearray_2_2floatarray : list byte -> option chunk.

Definition size_recv : nat := 8 * 2 * FRAME_SIZE_INPUT.

Inductive frame_read : Type :=
| Frame (data : list byte)
| ReadRaised
| ReadStarved.

(** The reassembly loop of lines 376-382, entered with the bytes read so
    far. [ReadStarved]: the fuel ran out. *)
Fixpoint recv_rest (fuel : nat) (data : list byte) (s : Socket.conn)
    : frame_read * Socket.conn :=
  match fuel with
  | O => (ReadStarved, s)
  | S fuel' =>
      match Socket.recv size_recv s with
      | (Socket.Raised, s') => (ReadRaised, s')
      | (Socket.Got data_, s') =>
          if length data_ =? 0 then (Frame data, s')
          else
            let data' := data ++ data_ in
            if length data' =? size_recv then (Frame data', s')
            else recv_rest fuel' data' s'
      end
  end.

(** Lines 370-382: the first [recv] and, after a short read, the loop. *)
Definition recv_frame (fuel : nat) (s : Socket.conn) : frame_read * Socket.conn :=
  match Socket.recv size_recv s with
  | (Socket.Raised, s') => (ReadRaised, s')
  | (Socket.Got data, s') =>
      if length data <? size_recv then recv_rest fuel data s'
      else (Frame data, s')
  end.

Definition address : Type := nat.

(** The state of the input server between two statements of its outer loop:
    the shared [vap] object, the local [addr] ([None] while it is unbound),
    the number of [process_vap] calls made (it indexes the clock), and the
    windows handed to [process_vap] so far. *)
Record server : Type := Server {
  vap : VAPRealTime;
  addr : option address;
  calls : nat;
  windows : list window
}.

Inductive stream_end : Type :=
| Break
| Except
| Starved.

Variable clock : nat -> clock_reads.

(** The streaming loop, lines 367-401, on an accepted connection. *)
Fixpoint streaming (fuel : nat) (b : buffers) (s : Socket.conn) (st : server)
    : stream_end * server :=
  match fuel with
  | O => (Starved, st)
  | S fuel' =>
      match recv_frame fuel' s with
      | (ReadStarved, _) => (Starved, st)
      | (ReadRaised, _) => (Except, st)
      | (Frame data, s') =>
          if length data =? 0 then (Break, st)
          else
            match conv_bytearray_2_2floatarray data with
            | None => (Except, st)
            | Some c =>
                match ingest b c with
                | (b', None) => streaming fuel' b' s' st
                | (b', Some (w1, w2)) =>
                    let '(pc, v') := process_vap (clock (calls st)) w1 w2 (vap st) in
                    let st' := Server v' (addr st) (S (calls st)) (windows st ++ [(w1, w2)]) in
                    match pc with
                    | L_return => streaming fuel' b' s' st'
                    | _ => (Except, st')
                    end
                end
            end
      end
  end.

(** One turn of the outer loop: what [socket]/[bind]/[listen]/[accept]
    bring. *)
Inductive session : Type :=
| SetupRaised
| Accepted (a : address) (s : Socket.conn).

(** Where the server is after a turn: in the outer loop again, or out of
    the function. [Stuck]: the fuel of [streaming] ran out (it never
    does on the fuel [serve] gives). *)
Inductive status : Type :=
| Listening
| Exited
| Stuck.

(** The [except Exception] handler: it prints [addr], which raises
    [NameError] out of the function while [addr] is unbound. *)
Definition handler (st : server) : status * server :=
  match addr st with
  | Some _ => (Listening, st)
  | None => (Exited, st)
  end.

Definition serve (x : session) (st : server) : status * server :=
  match x with
  | SetupRaised => handler st
  | Accepted a s =>
      let st1 := Server (vap st) (Some a) (calls st) (windows st) in
      match streaming (2 + Socket.weight s) init_buffers s st1 with
      | (Break, st2) => (Listening, st2)
      | (Except, st2) => handler st2
      | (Starved, st2) => (Stuck, st2)
      end
  end.

(** The outer [while True], over the sessions the environment offers; at
    the end of the script the server is in [accept]. *)
Fixpoint proc_serv_in (env : list session) (st : server) : status * server :=
  match env with
  | [] => (Listening, st)
  | x :: env' =>
      match serve x st with
      | (Listening, st') => proc_serv_in env' st'
      | stop => stop
      end
  end.


End Model.

(** ** ConnectionRegistry and the broadcast of [proc_serv_out_dist] *)

Module Registry.

(** A connection object of [list_socket_out] is known by its identity. *)
Definition conn_id : Type := nat.

(** How a connection answers the three calls the broadcast makes on it. *)
Record sock : Type := Sock {
  fileno : Z;
  sendall_raises : bool;
  getpeername_raises : bool
}.

Inductive finish : Type :=
| Completed
| Died.

(** What a broadcast leaves: how the [for] ended ([Died]: an exception left
    the loop), the registry, and the connections [sendall] returned on, in
    order. *)
Record outcome : Type := Outcome {
  ending : finish;
  registry : list conn_id;
  delivered : list conn_id
}.

Section Broadcast.

Variable socks : conn_id -> sock.

(** [for conn in list_socket_out:] of lines 436-443. A Python list iterator
    holds an index into the live list: each turn reads [lst[i]], if there is
    one, and moves to [i + 1], whatever the body did to the list. [None]:
    the fuel ran out. *)
Fixpoint for_conn (fuel : nat) (i : nat) (lst : list conn_id)
    (sent : list conn_id) : option outcome :=
  match fuel with
  | O => None
  | S fuel' =>
      match nth_error lst i with
      | None => Some (Outcome Completed lst sent)
      | Some conn =>
          if (fileno (socks conn) =? -1)%Z
          then for_conn fuel' (S i) lst sent
          else if negb (sendall_raises (socks conn))
          then for_conn fuel' (S i) lst (sent ++ [conn])
          else if getpeername_raises (socks conn)
          then Some (Outcome Died lst sent)
          else for_conn fuel' (S i) (Py.remove Nat.eqb conn lst) sent
      end
  end.

Definition broadcast (lst : list conn_id) : option outcome :=
  for_conn (S (length lst)) 0 lst [].

End Broadcast.

End Registry.

(** ** ResultDistributor: [proc_serv_out_dist], and the two threads *)

Section Distributor.

Variable sample : Type.
Variable embedding : Type.
Variable prob : Type.
Variable prob_zero : prob.
Variable encode_audio : list sample -> list sample -> option (embedding * embedding).
Variable infer : list embedding -> list embedding -> option (prob * prob).

(** The dict [vap_result]. *)
Record vap_result : Type := VapResult {
  r_t : Z;
  r_x1 : list sample;
  r_x2 : list sample;
  r_p_bc_react : prob;
  r_p_bc_emo : prob
}.

(** [util.conv_vapresult_2_bytearray_bc]. *)
Variable conv_vapresult_2_bytearray_bc : vap_result -> list byte.

(** Lines 432-434: the bytes handed to every [sendall]; [None] is the
    [OverflowError] of [to_bytes]. *)
Definition encode_frame (data_sent : list byte) : option (list byte) :=
  let sent_size := length data_sent in
  match Py.to_bytes4_little (N.of_nat sent_size) with
  | Some header => Some (header ++ data_sent)
  | None => None
  end.

(** The locals of [proc_serv_out_dist]. *)
Record dist_locals : Type := DistLocals {
  previous_time : Z;
  t : Z;
  x1 : list sample;
  x2 : list sample;
  p_bc_react : prob;
  p_bc_emo : prob
}.

(** The line the distributor executes next; each one reads the shared
    object once. [D426] stands for lines 426-443, [D_dead] for a thread an
    exception has ended. *)
Inductive dist_pc : Type :=
| D410 | D414 | D418 | D420 | D421 | D422 | D423 | D424 | D426 | D_dead.

(** One broadcast: the record built, the bytes sent, and the connections
    [sendall] returned on. *)
Record sending : Type := Sending {
  snapshot : vap_result;
  data_sent_all : list byte;
  receivers : list Registry.conn_id
}.

(** One statement of the distributor, on the shared object [v] and the
    shared list [lst]; [socks] tells how the connections answer during this
    broadcast. The result: the next line, the locals, the list, and the
    broadcast made, if any. An exception that leaves the [for] loop, and
    the [OverflowError] of line 434, end the thread. ([broadcast] never
    runs out of fuel; that branch is there for totality.) *)
Definition dist_step (socks : Registry.conn_id -> Registry.sock)
    (pc : dist_pc) (l : dist_locals)
    (v : VAPRealTime sample embedding prob) (lst : list Registry.conn_id)
    : dist_pc * dist_locals * list Registry.conn_id * option sending :=
  match pc with
  | D410 => (D414, DistLocals (process_time_abs v) (t l) (x1 l) (x2 l)
                              (p_bc_react l) (p_bc_emo l), lst, None)
  | D414 => if (previous_time l =? process_time_abs v)%Z
            then (D414, l, lst, None)
            else (D418, l, lst, None)
  | D418 => (D420, DistLocals (process_time_abs v) (t l) (x1 l) (x2 l)
                              (p_bc_react l) (p_bc_emo l), lst, None)
  | D420 => (D421, DistLocals (previous_time l) (result_last_time v) (x1 l) (x2 l)
                              (p_bc_react l) (p_bc_emo l), lst, None)
  | D421 => (D422, DistLocals (previous_time l) (t l) (current_x1_audio v) (x2 l)
                              (p_bc_react l) (p_bc_emo l), lst, None)
  | D422 => (D423, DistLocals (previous_time l) (t l) (x1 l) (current_x2_audio v)
                              (p_bc_react l) (p_bc_emo l), lst, None)
  | D423 => (D424, DistLocals (previous_time l) (t l) (x1 l) (x2 l)
                              (result_p_bc_react v) (p_bc_emo l), lst, None)
  | D424 => (D426, DistLocals (previous_time l) (t l) (x1 l) (x2 l)
                              (p_bc_react l) (result_p_bc_emo v), lst, None)
  | D426 =>
      let r := VapResult (t l) (x1 l) (x2 l) (p_bc_react l) (p_bc_emo l) in
      match encode_frame (conv_vapresult_2_bytearray_bc r) with
      | Some bytes =>
          match Registry.broadcast socks lst with
          | Some o =>
              (match Registry.ending o with
               | Registry.Completed => D414
               | Registry.Died => D_dead
               end,
               l, Registry.registry o, Some (Sending r bytes (Registry.delivered o)))
          | None => (D_dead, l, lst, None)
          end
      | None => (D_dead, l, lst, None)
      end
  | D_dead => (D_dead, l, lst, None)
  end.

(** The ingest thread seen from the shared object: the calls of
    [process_vap] it will make, and where the current one stands. *)
Record ingest_thread : Type := IngestThread {
  running : option (call sample * vap_pc embedding prob);
  pending : list (call sample)
}.

Definition ingest_step (w : ingest_thread) (v : VAPRealTime sample embedding prob)
    : ingest_thread * VAPRealTime sample embedding prob :=
  match running w with
  | Some ((c, (w1, w2)), pc) =>
      match pc with
      | L_return _ _ | L_raise _ _ => (IngestThread None (pending w), v)
      | _ => let '(pc', v') := vap_step encode_audio infer c w1 w2 pc v in
             (IngestThread (Some ((c, (w1, w2)), pc')) (pending w), v')
      end
  | None =>
      match pending w with
      | [] => (w, v)
      | k :: ks => (IngestThread (Some (k, L248 _ _)) ks, v)
      end
  end.

(** How each connection answers, broadcast after broadcast. *)
Variable socks : nat -> Registry.conn_id -> Registry.sock.

(** The three threads over the one [vap] object and the one list
    [list_socket_out], and the broadcasts made. *)
Record system : Type := System {
  shared : VAPRealTime sample embedding prob;
  list_socket_out : list Registry.conn_id;
  ingest_t : ingest_thread;
  dist_at : dist_pc;
  dist_vars : dist_locals;
  sent : list sending
}.

(** [TAccept c]: [proc_serv_out] accepts the connection [c] and appends
    it to the list. *)
Inductive thread : Type :=
| TIngest
| TDist
| TAccept (c : Registry.conn_id).

(** One statement of the scheduled thread. *)
Definition sys_step (th : thread) (s : system) : system :=
  match th with
  | TIngest =>
      let '(w', v') := ingest_step (ingest_t s) (shared s) in
      System v' (list_socket_out s) w' (dist_at s) (dist_vars s) (sent s)
  | TDist =>
      match dist_step (socks (length (sent s))) (dist_at s) (dist_vars s)
                      (shared s) (list_socket_out s) with
      | (pc', l', lst', Some b) => System (shared s) lst' (ingest_t s) pc' l' (sent s ++ [b])
      | (pc', l', lst', None) => System (shared s) lst' (ingest_t s) pc' l' (sent s)
      end
  | TAccept c =>
      System (shared s) (list_socket_out s ++ [c]) (ingest_t s) (dist_at s)
             (dist_vars s) (sent s)
  end.

Definition run (sched : list thread) (s : system) : system :=
  fold_left (fun s th => sys_step th s) sched s.

(** [__main__]: a new object, an empty list, the distributor thread at its
    first line, the ingest thread about to make the given calls. *)
Definition boot (cs : list (call sample)) : system :=
  System (new_vap sample embedding prob_zero) [] (IngestThread None cs) D410
         (DistLocals 0 0 [] [] prob_zero prob_zero) [].

Definition sent_times (s : system) : list Z :=
  map (fun b => r_t (snapshot b)) (sent s).

End Distributor.

(** ** The console consumer: [process_client] of [output/console.py] *)

Section Consumer.

Variable result : Type.

(** [util.conv_bytearray_2_vapresult]; [None]: it raised. *)
Variable conv_bytearray_2_vapresult : list byte -> option result.

Inductive client_read : Type :=
| Decoded (data : list byte) (r : result)
| Disconnected.

(** Line 25-26: [while len(data) < size: data += recv(size - len(data))].
    [None]: the fuel ran out with the loop still turning. *)
Fixpoint recv_until (fuel : nat) (size : nat) (data : list byte) (s : Socket.conn)
    : option (Socket.recv_result * Socket.conn) :=
  if length data <? size then
    match fuel with
    | O => None
    | S fuel' =>
        match Socket.recv (size - length data) s with
        | (Socket.Raised, s') => Some (Socket.Raised, s')
        | (Socket.Got more, s') => recv_until fuel' size (data ++ more) s'
        end
    end
  else Some (Socket.Got data, s).

(** Lines 21-28: one frame read and decoded; [Disconnected] is the
    [except] branch, which ends the client. *)
Definition read_result (fuel : nat) (s : Socket.conn)
    : option (client_read * Socket.conn) :=
  match Socket.recv 4 s with
  | (Socket.Raised, s1) => Some (Disconnected, s1)
  | (Socket.Got data_size, s1) =>
      let size := N.to_nat (Py.from_bytes_little data_size) in
      match Socket.recv size s1 with
      | (Socket.Raised, s2) => Some (Disconnected, s2)
      | (Socket.Got data, s2) =>
          match recv_until fuel size data s2 with
          | None => None
          | Some (Socket.Raised, s3) => Some (Disconnected, s3)
          | Some (Socket.Got data', s3) =>
              match conv_bytearray_2_vapresult data' with
              | Some r => Some (Decoded data' r, s3)
              | None => Some (Disconnected, s3)
              end
          end
      end
  end.

End Consumer.

(** ** The console consumers: the loops of [process_client] *)

Module Console.
Import String.StringSyntax.
Local Open Scope string_scope.

(** What the decoder returns is used as a dict with string keys, of
    numbers and sequences of numbers. *)
Inductive value : Type :=
| Num (q : Q)
| Seq (l : list Q).

Definition dict : Type := list (String.string * value).

(** [d[k]]; [None]: [KeyError]. *)
Fixpoint getitem (d : dict) (k : String.string) : option value :=
  match d with
  | [] => None
  | (k', v) :: d' => if String.eqb k' k then Some v else getitem d' k
  end.

(** [v[:10]]; [None]: [TypeError] (a number has no slice). *)
Definition slice10 (v : value) : option value :=
  match v with
  | Seq l => Some (Seq (firstn 10 l))
  | Num _ => None
  end.

(** [v[0] > v[1]]; [None]: [TypeError] or [IndexError]. *)
Definition gt01 (v : value) : option bool :=
  match v with
  | Seq (a :: b :: _) => Some (negb (Qle_bool a b))
  | _ => None
  end.

(** A line of the standard output. *)
Inductive line : Type :=
| Rule
| Labelled (label : String.string) (v : value)
| Message (text : String.string)
| Exc.

Definition STEP_STDOUT : nat := 20.

(** How the statements after the decoding end. *)
Inductive body_end : Type :=
| Done
| RaisedInBody.

Section Loop.

(** [util.conv_bytearray_2_vapresult]; [None]: it raised. *)
Variable conv_bytearray_2_vapresult : list byte -> option dict.

(** The locals that live across the turns of the loop. *)
Variable locals : Type.

(** The statements between the decoding and the end of the [try]. *)
Variable body : dict -> locals -> list line -> locals * list line * body_end.

(** [while True: try: ... except Exception as e: ...; break], the same in
    both consumers: a turn reads and decodes one frame and runs the body;
    any exception prints the two lines of the handler and ends the loop.
    The result is the locals and the output at the [break]; [None]: the
    fuel ran out. *)
Fixpoint client_loop (fuel : nat) (s : Socket.conn) (l : locals) (out : list line)
    : option (locals * list line) :=
  match fuel with
  | O => None
  | S fuel' =>
      match read_result conv_bytearray_2_vapresult fuel' s with
      | None => None
      | Some (Disconnected _, _) =>
          Some (l, out ++ [Message "Disconnected from the server"; Exc])
      | Some (Decoded _ vap_result, s') =>
          match body vap_result l out with
          | (l', out', Done) => client_loop fuel' s' l' out'
          | (l', out', RaisedInBody) =>
              Some (l', out' ++ [Message "Disconnected from the server"; Exc])
          end
      end
  end.

End Loop.

(** *** [output/console.py] *)

(** Lines 33-38: each [print] evaluates its argument first, so a missing
    key ends the block after the lines printed before it. *)
Definition report (vap_result : dict) (out : list line) : list line * body_end :=
  let out := out ++ [Rule] in
  match getitem vap_result "t" with
  | None => (out, RaisedInBody)
  | Some t =>
  let out := out ++ [Labelled "t:" t] in
  match getitem vap_result "x1" with
  | None => (out, RaisedInBody)
  | Some x1 =>
  match slice10 x1 with
  | None => (out, RaisedInBody)
  | Some x1_10 =>
  let out := out ++ [Labelled "x1:" x1_10] in
  match getitem vap_result "x2" with
  | None => (out, RaisedInBody)
  | Some x2 =>
  match slice10 x2 with
  | None => (out, RaisedInBody)
  | Some x2_10 =>
  let out := out ++ [Labelled "x2:" x2_10] in
  match getitem vap_result "p_now" with
  | None => (out, RaisedInBody)
  | Some p_now =>
  let out := out ++ [Labelled "p_now:" p_now] in
  match getitem vap_result "p_future" with
  | None => (out, RaisedInBody)
  | Some p_future => (out ++ [Labelled "p_future:" p_future], Done)
  end end end end end end end.

(** Lines 30-40, on the local [num_step]. *)
Definition console_body (vap_result : dict) (num_step : nat) (out : list line)
    : nat * list line * body_end :=
  let num_step := num_step + 1 in
  if num_step mod STEP_STDOUT =? 0 then
    match report vap_result out with
    | (out', Done) => (0, out', Done)
    | (out', RaisedInBody) => (num_step, out', RaisedInBody)
    end
  else (num_step, out, Done).

(** [process_client] of [console.py], once connected: [num_step = 0] and
    the loop. *)
Definition process_client (conv_bytearray_2_vapresult : list byte -> option dict)
    (fuel : nat) (s : Socket.conn) : option (nat * list line) :=
  client_loop conv_bytearray_2_vapresult console_body fuel s 0 [].

(** *** [output/console_okfj.py] *)

(** The locals [num_step], [flag_now] and [flag_future]. *)
Record okfj_locals : Type := OkfjLocals {
  num_step : nat;
  flag_now : bool;
  flag_future : bool
}.

(** Lines 44-49 and 51-56: the flag after the test, and the output. *)
Definition edge (gt : bool) (flag : bool) (text : String.string) (out : list line)
    : bool * list line :=
  if gt then (false, out)
  else (true, if flag then out else out ++ [Message text]).

(** Lines 29-58. *)
Definition okfj_body (vap_result : dict) (l : okfj_locals) (out : list line)
    : okfj_locals * list line * body_end :=
  match getitem vap_result "p_now" with
  | None => (l, out, RaisedInBody)
  | Some p_now =>
  match getitem vap_result "p_future" with
  | None => (l, out, RaisedInBody)
  | Some p_future =>
  let n := num_step l + 1 in
  if n mod STEP_STDOUT =? 0 then
    let out := out ++ [Rule; Labelled "p_now (x1, x2):" p_now;
                       Labelled "p_future (x1, x2):" p_future] in
    match gt01 p_now with
    | None => (OkfjLocals n (flag_now l) (flag_future l), out, RaisedInBody)
    | Some gt_now =>
    let '(flag_now', out) := edge gt_now (flag_now l) "VAP short-term: TRUE" out in
    match gt01 p_future with
    | None => (OkfjLocals n flag_now' (flag_future l), out, RaisedInBody)
    | Some gt_future =>
    let '(flag_future', out) :=
      edge gt_future (flag_future l) "VAP long-term: TRUE" out in
    (OkfjLocals 0 flag_now' flag_future', out, Done)
    end end
  else (OkfjLocals n (flag_now l) (flag_future l), out, Done)
  end end.

(** [process_client] of [console_okfj.py], once connected. *)
Definition process_client_okfj (conv_bytearray_2_vapresult : list byte -> option dict)
    (fuel : nat) (s : Socket.conn) : option (okfj_locals * list line) :=
  client_loop conv_bytearray_2_vapresult okfj_body fuel s (OkfjLocals 0 false false) [].

End Console.

(** * Part II: properties *)

(** ** Facts about slices *)

Module PyFacts.

Lemma slice_last_length {A} (n : nat) (x : list A) :
  0 < n -> n <= length x -> length (Py.slice_last n x) = n.
Proof.
  unfold Py.slice_last. destruct n as [|n]; intros Hn H; [lia|].
  rewrite length_skipn. lia.
Qed.

Lemma slice_last_all {A} (n : nat) (x : list A) :
  length x <= n -> Py.slice_last n x = x.
Proof.
  unfold Py.slice_last. destruct n as [|n]; intros H; [reflexivity|].
  replace (length x - S n) with 0 by lia. reflexivity.
Qed.

Lemma slice_last_app {A} (n : nat) (x y : list A) :
  0 < n -> length y = n -> Py.slice_last n (x ++ y) = y.
Proof.
  unfold Py.slice_last. destruct n as [|n]; intros Hn H; [lia|].
  rewrite length_app, H.
  replace (length x + S n - S n) with (length x + 0) by lia.
  rewrite skipn_app, Nat.add_0_r, skipn_all.
  replace (length x - length x) with 0 by lia. reflexivity.
Qed.

Lemma slice_last_snoc {A} (n : nat) (x : list A) (a : A) :
  length x = n -> 0 < n -> Py.slice_last n (x ++ [a]) = skipn 1 x ++ [a].
Proof.
  unfold Py.slice_last. destruct n as [|n]; intros H Hn; [lia|].
  rewrite length_app, H. simpl length.
  replace (S n + 1 - S n) with 1 by lia.
  rewrite skipn_app. destruct x as [|b x]; [discriminate|].
  simpl. reflexivity.
Qed.

End PyFacts.

(** ** The assembler *)

Section AssemblerFacts.

Variable sample : Type.
Variable zero : sample.

Definition chunk_ok (c : chunk sample) : Prop :=
  length (fst c) = FRAME_SIZE_INPUT /\ length (snd c) = FRAME_SIZE_INPUT.

Definition full_window (w : window sample) : Prop :=
  length (fst w) = FRAME_SIZE_VAP + FRAME_SAVE_LAST /\
  length (snd w) = FRAME_SIZE_VAP + FRAME_SAVE_LAST.

(** Both buffers hold the overlap and [j] whole chunks. *)
Definition aligned (b : buffers sample) (j : nat) : Prop :=
  length (current_x1 b) = FRAME_SAVE_LAST + FRAME_SIZE_INPUT * j /\
  length (current_x2 b) = FRAME_SAVE_LAST + FRAME_SIZE_INPUT * j.

(** Each window starts with the last [FRAME_SAVE_LAST] samples of the one
    before it, the first one with [o]. *)
Fixpoint overlaps (o : list sample) (ws : list (list sample)) : Prop :=
  match ws with
  | [] => True
  | w :: ws' => firstn FRAME_SAVE_LAST w = o /\
                overlaps (Py.slice_last FRAME_SAVE_LAST w) ws'
  end.

(** The samples a window adds to the ones of the window before. *)
Definition fresh1 (w : window sample) : list sample := skipn FRAME_SAVE_LAST (fst w).
Definition fresh2 (w : window sample) : list sample := skipn FRAME_SAVE_LAST (snd w).

Lemma aligned_init : aligned (init_buffers zero) 0.
Proof.
  unfold aligned, init_buffers; cbn [current_x1 current_x2].
  rewrite !repeat_length. split; reflexivity.
Qed.

Lemma ingest_not_ready (b : buffers sample) (c : chunk sample) (j : nat) :
  aligned b j -> chunk_ok c -> j < 9 ->
  ingest b c = (Buffers (current_x1 b ++ fst c) (current_x2 b ++ snd c), None) /\
  aligned (fst (ingest b c)) (S j).
Proof.
  intros [H1 H2] [C1 C2] Hj. unfold ingest.
  assert (L : (length (current_x1 b ++ fst c) <? FRAME_SIZE_VAP + FRAME_SAVE_LAST) = true).
  { apply Nat.ltb_lt. rewrite length_app, H1, C1.
    unfold FRAME_SAVE_LAST, FRAME_SIZE_INPUT, FRAME_SIZE_VAP. lia. }
  rewrite L. split; [reflexivity|].
  unfold aligned; cbn [fst current_x1 current_x2]. rewrite !length_app, H1, H2, C1, C2.
  unfold FRAME_SAVE_LAST, FRAME_SIZE_INPUT. lia.
Qed.

Lemma ingest_ready (b : buffers sample) (c : chunk sample) :
  aligned b 9 -> chunk_ok c ->
  ingest b c =
    (Buffers (Py.slice_last FRAME_SAVE_LAST (current_x1 b ++ fst c))
             (Py.slice_last FRAME_SAVE_LAST (current_x2 b ++ snd c)),
     Some (current_x1 b ++ fst c, current_x2 b ++ snd c)) /\
  full_window (current_x1 b ++ fst c, current_x2 b ++ snd c) /\
  aligned (fst (ingest b c)) 0.
Proof.
  intros [H1 H2] [C1 C2]. unfold ingest.
  assert (E1 : length (current_x1 b ++ fst c) = FRAME_SIZE_VAP + FRAME_SAVE_LAST).
  { rewrite length_app, H1, C1. reflexivity. }
  assert (E2 : length (current_x2 b ++ snd c) = FRAME_SIZE_VAP + FRAME_SAVE_LAST).
  { rewrite length_app, H2, C2. reflexivity. }
  assert (L : (length (current_x1 b ++ fst c) <? FRAME_SIZE_VAP + FRAME_SAVE_LAST) = false).
  { apply Nat.ltb_ge. rewrite E1. lia. }
  rewrite L. split; [reflexivity|]. split; [split; assumption|].
  unfold aligned; cbn [fst current_x1 current_x2].
  rewrite !PyFacts.slice_last_length;
    rewrite ?E1, ?E2; unfold FRAME_SAVE_LAST, FRAME_SIZE_INPUT, FRAME_SIZE_VAP; lia.
Qed.

Lemma feed_cons (b : buffers sample) (c : chunk sample) (cs : list (chunk sample)) :
  feed b (c :: cs) =
    (fst (feed (fst (ingest b c)) cs), snd (ingest b c) :: snd (feed (fst (ingest b c)) cs)).
Proof.
  cbn [feed]. destruct (ingest b c) as [b1 o]. cbn [fst snd].
  destruct (feed b1 cs) as [b2 os]. reflexivity.
Qed.

Lemma feed_app (b : buffers sample) (cs1 cs2 : list (chunk sample)) :
  feed b (cs1 ++ cs2) =
    (fst (feed (fst (feed b cs1)) cs2), snd (feed b cs1) ++ snd (feed (fst (feed b cs1)) cs2)).
Proof.
  revert b. induction cs1 as [|c cs1 IH]; intros b.
  - simpl. destruct (feed b cs2); reflexivity.
  - rewrite <- app_comm_cons, !feed_cons, IH. reflexivity.
Qed.

(** What a run of the loop gives from buffers that hold [j] whole chunks. *)
Lemma feed_aligned (cs : list (chunk sample)) :
  forall (b : buffers sample) (j : nat),
  j <= 9 -> aligned b j -> Forall chunk_ok cs ->
  length (snd (feed b cs)) = length cs /\
  (exists r, r <= 9 /\ aligned (fst (feed b cs)) r /\
             10 * length (emitted (snd (feed b cs))) + r = j + length cs) /\
  (forall k, k < length cs ->
     (nth k (snd (feed b cs)) None <> None <-> Nat.divide 10 (j + S k))) /\
  Forall full_window (emitted (snd (feed b cs))) /\
  concat (map fresh1 (emitted (snd (feed b cs))))
    ++ skipn FRAME_SAVE_LAST (current_x1 (fst (feed b cs)))
    = skipn FRAME_SAVE_LAST (current_x1 b) ++ concat (map fst cs) /\
  concat (map fresh2 (emitted (snd (feed b cs))))
    ++ skipn FRAME_SAVE_LAST (current_x2 (fst (feed b cs)))
    = skipn FRAME_SAVE_LAST (current_x2 b) ++ concat (map snd cs) /\
  overlaps (firstn FRAME_SAVE_LAST (current_x1 b)) (map fst (emitted (snd (feed b cs)))) /\
  overlaps (firstn FRAME_SAVE_LAST (current_x2 b)) (map snd (emitted (snd (feed b cs)))).
Proof.
  induction cs as [|c cs IH]; intros b j Hj Hb Hcs.
  - cbn [feed fst snd emitted map concat length overlaps].
    split; [reflexivity|]. split; [exists j; repeat split; try apply Hb; lia|].
    split; [intros k Hk; lia|]. split; [constructor|].
    rewrite !app_nil_r. repeat split.
  - inversion Hcs as [|c' cs' Hc Hcs' E]; subst.
    rewrite feed_cons.
    assert (J : j < 9 \/ j = 9) by lia. destruct J as [J|J].
    + destruct (ingest_not_ready Hb Hc J) as [E A].
      destruct (IH (fst (ingest b c)) (S j) ltac:(lia) A Hcs')
        as (L & (r & Hr & Ar & Cr) & K & F & P1 & P2 & O1 & O2).
      rewrite E in *. cbn [fst snd emitted current_x1 current_x2] in *.
      destruct Hb as [B1 B2].
      split; [cbn [length]; lia|].
      split; [exists r; repeat split; try apply Ar; cbn [length]; lia|].
      split.
      { intros [|k] Hk; cbn [nth length] in *.
        - split; [intros N; exfalso; apply N; reflexivity|].
          intros [z Hz]. lia.
        - replace (j + S (S k)) with (S j + S k) by lia. apply K. lia. }
      split; [exact F|].
      split.
      { rewrite P1. rewrite skipn_app.
        replace (FRAME_SAVE_LAST - length (current_x1 b)) with 0 by lia.
        cbn [map concat skipn]. rewrite <- app_assoc. reflexivity. }
      split.
      { rewrite P2. rewrite skipn_app.
        replace (FRAME_SAVE_LAST - length (current_x2 b)) with 0 by lia.
        cbn [map concat skipn]. rewrite <- app_assoc. reflexivity. }
      split.
      { rewrite firstn_app in O1.
        replace (FRAME_SAVE_LAST - length (current_x1 b)) with 0 in O1 by lia.
        rewrite firstn_O, app_nil_r in O1. exact O1. }
      { rewrite firstn_app in O2.
        replace (FRAME_SAVE_LAST - length (current_x2 b)) with 0 in O2 by lia.
        rewrite firstn_O, app_nil_r in O2. exact O2. }
    + subst j. destruct (ingest_ready Hb Hc) as (E & [W1 W2] & A).
      destruct (IH (fst (ingest b c)) 0 ltac:(lia) A Hcs')
        as (L & (r & Hr & Ar & Cr) & K & F & P1 & P2 & O1 & O2).
      rewrite E in *.
      cbn [fst snd emitted current_x1 current_x2 map concat overlaps] in *.
      destruct Hb as [B1 B2].
      assert (S1 : length (Py.slice_last FRAME_SAVE_LAST (current_x1 b ++ fst c)) = FRAME_SAVE_LAST).
      { apply PyFacts.slice_last_length; [unfold FRAME_SAVE_LAST; lia|].
        rewrite W1. unfold FRAME_SAVE_LAST; lia. }
      assert (S2 : length (Py.slice_last FRAME_SAVE_LAST (current_x2 b ++ snd c)) = FRAME_SAVE_LAST).
      { apply PyFacts.slice_last_length; [unfold FRAME_SAVE_LAST; lia|].
        rewrite W2. unfold FRAME_SAVE_LAST; lia. }
      split; [cbn [length]; lia|].
      split; [exists r; repeat split; try apply Ar; cbn [length]; lia|].
      split.
      { intros [|k] Hk; cbn [nth length] in *.
        - split; [intros _; exists 1; reflexivity | discriminate].
        - rewrite K by lia. split; intros [z Hz].
          + exists (S z). lia.
          + exists (z - 1). lia. }
      split; [constructor; [split; assumption | exact F]|].
      split.
      { rewrite <- app_assoc, P1.
        rewrite (skipn_all2 (Py.slice_last _ _)) by lia.
        unfold fresh1 at 1; cbn [fst app]. rewrite skipn_app.
        replace (FRAME_SAVE_LAST - length (current_x1 b)) with 0 by lia.
        cbn [skipn]. rewrite <- app_assoc. reflexivity. }
      split.
      { rewrite <- app_assoc, P2.
        rewrite (skipn_all2 (Py.slice_last _ _)) by lia.
        unfold fresh2 at 1; cbn [snd app]. rewrite skipn_app.
        replace (FRAME_SAVE_LAST - length (current_x2 b)) with 0 by lia.
        cbn [skipn]. rewrite <- app_assoc. reflexivity. }
      split.
      { split.
        - rewrite firstn_app.
          replace (FRAME_SAVE_LAST - length (current_x1 b)) with 0 by lia.
          rewrite firstn_O, app_nil_r. reflexivity.
        - rewrite firstn_all2 in O1 by lia. exact O1. }
      { split.
        - rewrite firstn_app.
          replace (FRAME_SAVE_LAST - length (current_x2 b)) with 0 by lia.
          rewrite firstn_O, app_nil_r. reflexivity.
        - rewrite firstn_all2 in O2 by lia. exact O2. }
Qed.

Lemma nth_emitted (os : list (option (window sample))) (k : nat) (w : window sample) :
  nth k os None = Some w -> In w (emitted os).
Proof.
  revert k. induction os as [|o os IH]; intros [|k] H; cbn [nth] in H; try discriminate.
  - subst o. left. reflexivity.
  - destruct o; cbn [emitted]; [right|]; eapply IH; exact H.
Qed.

(** C1: after the buffers are initialised to 320 zero samples, for every
    stream of chunks of 160 samples per channel, a chunk that leaves fewer
    than 1600 + 320 = 1920 samples in the buffer gives "not ready" and
    only appends; otherwise the window is the whole of both buffers and
    both are cut to their last 320 samples. Every window has exactly 1920
    samples per channel; the windows come in arrival order, nothing is
    emitted twice and nothing is lost: the samples the windows add, one
    window after the other, followed by what the buffer still holds past
    its overlap, are the chunks in the order they came, and each window
    starts with the last 320 samples of the one before (the first with the
    zeros); a window comes with every tenth chunk. *)
Theorem ingest_stream_windows (cs : list (chunk sample)) :
  Forall chunk_ok cs ->
  (forall cs1 c cs2, cs = cs1 ++ c :: cs2 ->
     let b := fst (feed (init_buffers zero) cs1) in
     let full1 := current_x1 b ++ fst c in
     let full2 := current_x2 b ++ snd c in
     (length full1 < FRAME_SIZE_VAP + FRAME_SAVE_LAST ->
        ingest b c = (Buffers full1 full2, None)) /\
     (FRAME_SIZE_VAP + FRAME_SAVE_LAST <= length full1 ->
        ingest b c = (Buffers (Py.slice_last FRAME_SAVE_LAST full1)
                              (Py.slice_last FRAME_SAVE_LAST full2),
                      Some (full1, full2)) /\
        full_window (full1, full2) /\
        aligned (fst (ingest b c)) 0)) /\
  let b' := fst (feed (init_buffers zero) cs) in
  let ws := emitted (snd (feed (init_buffers zero) cs)) in
  Forall full_window ws /\
  concat (map fresh1 ws) ++ skipn FRAME_SAVE_LAST (current_x1 b') = concat (map fst cs) /\
  concat (map fresh2 ws) ++ skipn FRAME_SAVE_LAST (current_x2 b') = concat (map snd cs) /\
  overlaps (repeat zero FRAME_SAVE_LAST) (map fst ws) /\
  overlaps (repeat zero FRAME_SAVE_LAST) (map snd ws) /\
  (forall k, k < length cs ->
     (nth k (snd (feed (init_buffers zero) cs)) None <> None <-> Nat.divide 10 (S k))) /\
  exists r, r <= 9 /\ aligned b' r /\ 10 * length ws + r = length cs.
Proof.
  intros Hcs. split.
  - intros cs1 c cs2 E b full1 full2. subst cs.
    apply Forall_app in Hcs. destruct Hcs as [H1 H2].
    inversion H2 as [|c' cs' Hc _ E']; subst.
    destruct (feed_aligned (j:=0) ltac:(lia) aligned_init H1)
      as (_ & (r & Hr & Ar & _) & _).
    fold b in Ar.
    assert (L : length full1 = FRAME_SAVE_LAST + FRAME_SIZE_INPUT * S r).
    { unfold full1. rewrite length_app. destruct Ar as [A1 _], Hc as [C1 _].
      rewrite A1, C1. lia. }
    unfold FRAME_SAVE_LAST, FRAME_SIZE_INPUT, FRAME_SIZE_VAP in L |- *.
    split; intros T.
    + apply (ingest_not_ready Ar Hc). lia.
    + assert (r = 9) by lia. subst r. apply (ingest_ready Ar Hc).
  - destruct (feed_aligned (j:=0) ltac:(lia) aligned_init Hcs)
      as (_ & (r & Hr & Ar & Cr) & K & F & P1 & P2 & O1 & O2).
    assert (Z0 : forall b, skipn FRAME_SAVE_LAST (repeat zero FRAME_SAVE_LAST) ++ b = b).
    { intros b. rewrite skipn_all2; [reflexivity|]. rewrite repeat_length. lia. }
    assert (Z1 : firstn FRAME_SAVE_LAST (repeat zero FRAME_SAVE_LAST)
                 = repeat zero FRAME_SAVE_LAST).
    { apply firstn_all2. rewrite repeat_length. lia. }
    cbn zeta. unfold init_buffers in *. cbn [current_x1 current_x2] in *.
    rewrite Z0 in P1, P2. rewrite Z1 in O1, O2.
    do 6 (split; [assumption|]).
    exists r. repeat split; try apply Ar; lia.
Qed.

(** C2 (as the code has it): from fresh buffers, eleven chunks of 160
    samples per channel give exactly one window; it has 1920 samples per
    channel and comes with the tenth chunk (320 + 10 * 160 = 1920), the
    eleventh gives "not ready"; each buffer holds 320 samples after the
    tenth chunk and 480 after the eleventh. *)
Theorem eleven_chunks (cs : list (chunk sample)) :
  length cs = 11 -> Forall chunk_ok cs ->
  let os := snd (feed (init_buffers zero) cs) in
  (exists w, emitted os = [w] /\ full_window w /\ nth 9 os None = Some w) /\
  (forall k, k < 11 -> k <> 9 -> nth k os None = None) /\
  aligned (fst (feed (init_buffers zero) (firstn 10 cs))) 0 /\
  aligned (fst (feed (init_buffers zero) cs)) 1.
Proof.
  intros Hl Hcs os.
  destruct (feed_aligned (j:=0) ltac:(lia) aligned_init Hcs)
    as (_ & (r & Hr & Ar & Cr) & K & F & _).
  fold os in Cr, K, F. rewrite Hl in Cr, K.
  assert (E1 : length (emitted os) = 1 /\ r = 1) by lia.
  destruct E1 as [E1 ->].
  destruct (emitted os) as [|w [|w' ws]] eqn:Ew; try discriminate.
  assert (N9 : nth 9 os None = Some w).
  { destruct (nth 9 os None) as [w9|] eqn:E9.
    - apply nth_emitted in E9. fold os in E9. rewrite Ew in E9.
      destruct E9 as [<-|[]]. reflexivity.
    - exfalso. apply (proj2 (K 9 ltac:(lia))); [exists 1; reflexivity | exact E9]. }
  split; [exists w; split; [reflexivity|]; split; [inversion F; assumption | exact N9]|].
  split.
  { intros k Hk Hk9. destruct (nth k os None) as [wk|] eqn:Ek; [|reflexivity].
    exfalso. assert (D : Nat.divide 10 (S k)).
    { apply K; [lia|]. rewrite Ek. discriminate. }
    destruct D as [z Hz]. lia. }
  split; [|exact Ar].
  assert (H10 : Forall chunk_ok (firstn 10 cs)).
  { rewrite <- (firstn_skipn 10 cs) in Hcs. apply Forall_app in Hcs. apply Hcs. }
  destruct (feed_aligned (j:=0) ltac:(lia) aligned_init H10)
    as (_ & (r' & Hr' & Ar' & Cr') & _).
  rewrite length_firstn, Hl in Cr'. cbn [Nat.min] in Cr'.
  replace r' with 0 in Ar' by lia. exact Ar'.
Qed.

End AssemblerFacts.

(** *** The assembler on a concrete stream *)

Definition chunk0 : chunk nat := (repeat 1 FRAME_SIZE_INPUT, repeat 2 FRAME_SIZE_INPUT).

Lemma ingest_stream_windows_witness :
  Forall (@chunk_ok nat) (repeat chunk0 21) /\
  Forall (@full_window nat) (emitted (snd (feed (init_buffers 0) (repeat chunk0 21)))).
Proof.
  assert (H : Forall (@chunk_ok nat) (repeat chunk0 21)).
  { repeat constructor. }
  split; [exact H|].
  exact (proj1 (proj2 (ingest_stream_windows 0 H))).
Defined.

(** C2 (as the specification has it) fails: with eleven chunks of 160
    samples the eleventh chunk gives "not ready" (the window, of 1920
    samples, came with the tenth), and each buffer then holds 480 samples,
    not 320. *)
Lemma eleven_chunks_counterexample :
  let r := feed (init_buffers 0) (repeat chunk0 11) in
  nth 10 (snd r) None = None /\
  option_map (fun w => (length (fst w), length (snd w))) (nth 9 (snd r) None)
    = Some (1920, 1920) /\
  length (emitted (snd r)) = 1 /\
  length (current_x1 (fst r)) = 480 /\
  length (current_x2 (fst r)) = 480.
Proof. vm_compute. repeat split. Qed.

Lemma eleven_chunks_witness :
  length (repeat chunk0 11) = 11 /\
  Forall (@chunk_ok nat) (repeat chunk0 11) /\
  aligned (fst (feed (init_buffers 0) (repeat chunk0 11))) 1.
Proof.
  assert (H : Forall (@chunk_ok nat) (repeat chunk0 11)).
  { repeat constructor. }
  split; [reflexivity|]. split; [exact H|].
  exact (proj2 (proj2 (proj2 (eleven_chunks 0 (cs:=repeat chunk0 11) eq_refl H)))).
Defined.

(** ** The inference context *)

Section InferenceFacts.

Variable sample : Type.
Variable embedding : Type.
Variable prob : Type.
Variable prob_zero : prob.
Variable encode_audio : list sample -> list sample -> option (embedding * embedding).
Variable infer : list embedding -> list embedding -> option (prob * prob).

Local Notation "'VAP'" := (VAPRealTime sample embedding prob).
Local Notation "'process_vap''" := (process_vap encode_audio infer).
Local Notation "'run_calls''" := (run_calls encode_audio infer).

(** Lines 258-264 on one context. *)
Definition push {A} (e : A) (context : list A) : list A :=
  if AUDIO_CONTEXT_LIM <? length (context ++ [e])
  then Py.slice_last AUDIO_CONTEXT_LIM (context ++ [e])
  else context ++ [e].

(** The last [n] elements of a list. *)
Definition last_n {A} (n : nat) (l : list A) : list A := skipn (length l - n) l.

(** The embeddings the calls insert, per channel: a call whose
    [encode_audio] raises inserts nothing. *)
Definition inserted (cs : list (call sample)) : list (embedding * embedding) :=
  flat_map (fun k : call sample =>
              match encode_audio (fst (snd k)) (snd (snd k)) with
              | Some e => [e]
              | None => []
              end) cs.

Ltac run_vap := cbn [vap_run vap_step].

Ltac vap_fields :=
  cbn [fst snd current_x1_audio current_x2_audio result_p_bc_react result_p_bc_emo
       result_last_time process_time_abs e1_context e2_context
       list_process_time_context stdout
       set_current_x1_audio set_current_x2_audio set_result_p_bc_react
       set_result_p_bc_emo set_result_last_time set_process_time_abs
       set_e1_context set_e2_context set_list_process_time_context print].

Ltac split_caps :=
  repeat (match goal with
          | |- context [AUDIO_CONTEXT_LIM <? ?n] => destruct (AUDIO_CONTEXT_LIM <? n)
          end; vap_fields).

(** A call of [process_vap], statement by statement. *)
Lemma process_vap_unfold (c : clock_reads) (x1 x2 : list sample) (v : VAP) :
  process_vap' c x1 x2 v =
    let v2 := set_current_x2_audio (Py.slice_from frame_contxt_padding x2)
                (set_current_x1_audio (Py.slice_from frame_contxt_padding x1) v) in
    match encode_audio x1 x2 with
    | None => (L_raise _ _, v2)
    | Some (e1, e2) =>
        let v3 := set_e1_context (e1_context v2 ++ [e1]) v2 in
        let v4 := set_e2_context (e2_context v3 ++ [e2]) v3 in
        let v5 := if AUDIO_CONTEXT_LIM <? length (e1_context v4)
                  then set_e1_context (Py.slice_last AUDIO_CONTEXT_LIM (e1_context v4)) v4
                  else v4 in
        let v6 := if AUDIO_CONTEXT_LIM <? length (e2_context v5)
                  then set_e2_context (Py.slice_last AUDIO_CONTEXT_LIM (e2_context v5)) v5
                  else v5 in
        match infer (e1_context v6) (e2_context v6) with
        | None => (L_raise _ _, v6)
        | Some (p_bc_react, p_bc_emo) =>
            let v9 := set_result_last_time (t_result c)
                        (set_result_p_bc_emo p_bc_emo
                           (set_result_p_bc_react p_bc_react v6)) in
            let v10 := set_list_process_time_context
                         (list_process_time_context v9 ++ [(t_end c - t_start c)%Z]) v9 in
            let v11 := if CALC_PROCESS_TIME_INTERVAL <? length (list_process_time_context v10)
                       then set_list_process_time_context []
                              (print (average (list_process_time_context v10)) v10)
                       else v10 in
            (L_return _ _, set_process_time_abs (t_abs c) v11)
        end
    end.
Proof.
  unfold process_vap. run_vap.
  destruct (encode_audio x1 x2) as [[e1 e2]|]; [|reflexivity].
  run_vap. cbn zeta.
  match goal with |- context [infer ?a ?b] => destruct (infer a b) as [[pr pe]|] end;
    reflexivity.
Qed.

Lemma process_vap_contexts (c : clock_reads) (x1 x2 : list sample) (v : VAP) :
  let v' := snd (process_vap' c x1 x2 v) in
  match encode_audio x1 x2 with
  | Some (e1, e2) =>
      e1_context v' = push e1 (e1_context v) /\ e2_context v' = push e2 (e2_context v)
  | None => e1_context v' = e1_context v /\ e2_context v' = e2_context v
  end.
Proof.
  rewrite process_vap_unfold. unfold push. cbn zeta.
  destruct (encode_audio x1 x2) as [[e1 e2]|]; [|split; reflexivity].
  cbn [e1_context e2_context set_e1_context set_e2_context
       set_current_x1_audio set_current_x2_audio].
  destruct (AUDIO_CONTEXT_LIM <? length (e1_context v ++ [e1]));
  cbn [e1_context e2_context set_e1_context set_e2_context];
  destruct (AUDIO_CONTEXT_LIM <? length (e2_context v ++ [e2]));
  cbn [e1_context e2_context set_e1_context set_e2_context];
  (destruct (infer _ _) as [[pr pe]|]; [|split; reflexivity]);
  cbn [snd list_process_time_context set_result_last_time set_result_p_bc_emo
       set_result_p_bc_react set_list_process_time_context set_e1_context
       set_e2_context];
  match goal with
  | |- context [CALC_PROCESS_TIME_INTERVAL <? ?n] =>
      destruct (CALC_PROCESS_TIME_INTERVAL <? n)
  end; split; reflexivity.
Qed.

Lemma push_last_n {A} (e : A) (l : list A) :
  push e (last_n AUDIO_CONTEXT_LIM l) = last_n AUDIO_CONTEXT_LIM (l ++ [e]).
Proof.
  unfold push, last_n, AUDIO_CONTEXT_LIM.
  rewrite !length_app, length_skipn. cbn [length].
  destruct (Nat.lt_ge_cases (length l) 50) as [H|H].
  - replace (length l - 50) with 0 by lia.
    replace (length l + 1 - 50) with 0 by lia. cbn [skipn].
    replace (50 <? length l - 0 + 1) with false; [reflexivity|].
    symmetry. apply Nat.ltb_ge. lia.
  - replace (50 <? length l - (length l - 50) + 1) with true
      by (symmetry; apply Nat.ltb_lt; lia).
    unfold Py.slice_last. rewrite length_app, length_skipn. cbn [length].
    replace (length l - (length l - 50) + 1 - 50) with 1 by lia.
    rewrite !skipn_app, skipn_skipn, length_skipn.
    replace (1 - (length l - (length l - 50))) with 0 by lia.
    replace (length l + 1 - 50 - length l) with 0 by lia.
    replace (1 + (length l - 50)) with (length l + 1 - 50) by lia.
    reflexivity.
Qed.

Lemma last_n_length {A} (n : nat) (l : list A) :
  length (last_n n l) = Nat.min n (length l).
Proof. unfold last_n. rewrite length_skipn. lia. Qed.

Lemma run_calls_contexts (cs : list (call sample)) :
  forall (v : VAP) (before : list (embedding * embedding)),
  e1_context v = last_n AUDIO_CONTEXT_LIM (map fst before) ->
  e2_context v = last_n AUDIO_CONTEXT_LIM (map snd before) ->
  e1_context (run_calls' cs v)
    = last_n AUDIO_CONTEXT_LIM (map fst (before ++ inserted cs)) /\
  e2_context (run_calls' cs v)
    = last_n AUDIO_CONTEXT_LIM (map snd (before ++ inserted cs)).
Proof.
  induction cs as [|[c [x1 x2]] cs IH]; intros v before H1 H2.
  - cbn [run_calls inserted flat_map]. rewrite app_nil_r. split; assumption.
  - cbn [run_calls inserted flat_map fst snd].
    pose proof (process_vap_contexts c x1 x2 v) as P. cbn zeta in P.
    destruct (encode_audio x1 x2) as [[e1 e2]|].
    + destruct P as [P1 P2].
      rewrite H1, push_last_n in P1. rewrite H2, push_last_n in P2.
      destruct (IH (snd (process_vap' c x1 x2 v)) (before ++ [(e1, e2)])) as [I1 I2].
      * rewrite P1, map_app. reflexivity.
      * rewrite P2, map_app. reflexivity.
      * rewrite <- app_assoc in I1, I2. split; assumption.
    + destruct P as [P1 P2]. apply IH; congruence.
Qed.

(** C3: the embedding context of each channel, capacity 50: after any
    sequence of inference steps on a new object the context holds the last
    50 embeddings inserted, in insertion order (all of them while there are
    at most 50), so its length is the smaller of 50 and the number of
    insertions: exactly 50 once more than 50 were inserted, never more. *)
Theorem embedding_context_fifo (cs : list (call sample)) :
  let v := run_calls' cs (new_vap sample embedding prob_zero) in
  e1_context v = last_n AUDIO_CONTEXT_LIM (map fst (inserted cs)) /\
  e2_context v = last_n AUDIO_CONTEXT_LIM (map snd (inserted cs)) /\
  length (e1_context v) = Nat.min AUDIO_CONTEXT_LIM (length (inserted cs)) /\
  length (e2_context v) = Nat.min AUDIO_CONTEXT_LIM (length (inserted cs)) /\
  length (e1_context v) <= AUDIO_CONTEXT_LIM /\
  length (e2_context v) <= AUDIO_CONTEXT_LIM.
Proof.
  intros v.
  destruct (@run_calls_contexts cs (new_vap sample embedding prob_zero) [])
    as [H1 H2]; try reflexivity.
  cbn [app] in H1, H2. fold v in H1, H2.
  rewrite H1, H2, !last_n_length, !length_map.
  repeat split; lia.
Qed.

(** Lines 314-322 on the list of latencies and on the output. *)
Definition timed (c : clock_reads) (v : VAP) : list Z * list Q :=
  let l := list_process_time_context v ++ [(t_end c - t_start c)%Z] in
  if CALC_PROCESS_TIME_INTERVAL <? length l
  then ([], stdout v ++ [average l])
  else (l, stdout v).

Lemma process_vap_timing (c : clock_reads) (x1 x2 : list sample) (v : VAP) :
  let r := process_vap' c x1 x2 v in
  (fst r = L_return _ _ /\
   (list_process_time_context (snd r), stdout (snd r)) = timed c v) \/
  (fst r = L_raise _ _ /\
   list_process_time_context (snd r) = list_process_time_context v /\
   stdout (snd r) = stdout v).
Proof.
  rewrite process_vap_unfold. unfold timed. cbn zeta.
  destruct (encode_audio x1 x2) as [[e1 e2]|]; [|right; repeat split].
  destruct (infer _ _) as [[pr pe]|].
  - left. split; [reflexivity|]. vap_fields. split_caps;
      destruct (CALC_PROCESS_TIME_INTERVAL <? _); reflexivity.
  - right. split; [reflexivity|]. vap_fields. split_caps; split; reflexivity.
Qed.

(** The list of latencies holds at most [CALC_PROCESS_TIME_INTERVAL]
    entries between two calls. *)
Lemma latency_list_bounded (cs : list (call sample)) (v : VAP) :
  length (list_process_time_context v) <= CALC_PROCESS_TIME_INTERVAL ->
  length (list_process_time_context (run_calls' cs v)) <= CALC_PROCESS_TIME_INTERVAL.
Proof.
  revert v. induction cs as [|[c [x1 x2]] cs IH]; intros v H; [exact H|].
  cbn [run_calls]. apply IH.
  destruct (process_vap_timing c x1 x2 v) as [[_ E]|[_ [E _]]].
  - unfold timed in E.
    destruct (CALC_PROCESS_TIME_INTERVAL <? _) eqn:T;
      injection E as E1 E2; rewrite E1.
    + cbn [length]. lia.
    + apply Nat.ltb_ge in T. exact T.
  - rewrite E. exact H.
Qed.

(** With a collaborator that never raises, the mean is printed with every
    101st call, over 101 latencies. *)
Lemma latency_report_period (cs : list (call sample)) :
  (forall x1 x2, encode_audio x1 x2 <> None) ->
  (forall a b, infer a b <> None) ->
  forall v : VAP,
  length (list_process_time_context v) <= CALC_PROCESS_TIME_INTERVAL ->
  exists q r,
    r <= CALC_PROCESS_TIME_INTERVAL /\
    length (list_process_time_context v) + length cs
      = S CALC_PROCESS_TIME_INTERVAL * q + r /\
    length (list_process_time_context (run_calls' cs v)) = r /\
    length (stdout (run_calls' cs v)) = length (stdout v) + q.
Proof.
  intros He Hi. induction cs as [|[c [x1 x2]] cs IH]; intros v H.
  - exists 0, (length (list_process_time_context v)). cbn [run_calls length]. lia.
  - cbn [run_calls length].
    destruct (process_vap_timing c x1 x2 v) as [[_ E]|[R _]].
    + unfold timed in E.
      destruct (CALC_PROCESS_TIME_INTERVAL <? _) eqn:T; injection E as E1 E2.
      * apply Nat.ltb_lt in T. rewrite length_app in T. cbn [length] in T.
        destruct (IH (snd (process_vap' c x1 x2 v))) as (q & r & Hr & Hq & L & O).
        { rewrite E1. cbn [length]. lia. }
        exists (S q), r. rewrite L, O, E1, E2 in *.
        rewrite length_app. cbn [length] in *.
        unfold CALC_PROCESS_TIME_INTERVAL in *. lia.
      * apply Nat.ltb_ge in T. rewrite length_app in T. cbn [length] in T.
        destruct (IH (snd (process_vap' c x1 x2 v))) as (q & r & Hr & Hq & L & O).
        { rewrite E1, length_app. cbn [length]. lia. }
        exists q, r. rewrite L, O, E1, E2 in *.
        rewrite length_app in Hq. cbn [length] in *.
        unfold CALC_PROCESS_TIME_INTERVAL in *. lia.
    + exfalso. rewrite process_vap_unfold in R. cbn zeta in R.
      destruct (encode_audio x1 x2) as [[e1 e2]|] eqn:Ee; [|exact (He _ _ Ee)].
      destruct (infer _ _) as [[pr pe]|] eqn:Ei; [discriminate|exact (Hi _ _ Ei)].
Qed.

End InferenceFacts.

(** *** The latency report on a concrete run *)

(** A collaborator that never raises, and [n] calls that each take 3 ticks. *)
Definition calls0 (n : nat) : list (call nat) :=
  map (fun i => (ClockReads (10 * Z.of_nat i) (10 * Z.of_nat i + 2)
                            (10 * Z.of_nat i + 3) (10 * Z.of_nat i + 4),
                 ([], [])))
      (seq 0 n).

Definition run0 (n : nat) : VAPRealTime nat nat nat :=
  run_calls (fun _ _ => Some (0, 0)) (fun _ _ => Some (0, 0)) (calls0 n)
            (new_vap nat nat 0).

(** C9 (what the code does): with [CALC_PROCESS_TIME_INTERVAL = 100] the
    test is [len(list) > 100], so the 100th call prints nothing and leaves
    100 latencies in the list; the mean is printed by the 101st call, over
    101 latencies, and the list is cleared then; the next report comes
    with the 202nd call. *)
Theorem latency_report_101 :
  stdout (run0 100) = [] /\
  length (list_process_time_context (run0 100)) = 100 /\
  stdout (run0 101) = [average (repeat 3%Z 101)] /\
  list_process_time_context (run0 101) = [] /\
  length (stdout (run0 200)) = 1 /\
  length (stdout (run0 202)) = 2.
Proof. vm_compute. repeat split. Qed.

(** ** The broadcast over the registry *)

Module RegistryFacts.
Import Registry.

Ltac lia_ids := unfold conn_id in *; lia.

Section BroadcastFacts.

Variable socks : conn_id -> sock.

(** The three ways a connection takes the body of the loop: its descriptor
    is invalid (no send, no exception), [sendall] returns, [sendall]
    raises. *)
Definition invalid (d : conn_id) : bool := (fileno (socks d) =? -1)%Z.
Definition delivers (d : conn_id) : bool :=
  negb (invalid d) && negb (sendall_raises (socks d)).
Definition fails (d : conn_id) : bool :=
  negb (invalid d) && sendall_raises (socks d).

Lemma remove_length (c : conn_id) (lst : list conn_id) :
  length (Py.remove Nat.eqb c lst) <= length lst.
Proof.
  induction lst as [|y lst IH]; cbn [Py.remove length]; [lia|].
  destruct (Nat.eqb c y); cbn [length]; lia_ids.
Qed.

Lemma remove_In (c d : conn_id) (lst : list conn_id) :
  In d lst -> d <> c -> In d (Py.remove Nat.eqb c lst).
Proof.
  induction lst as [|y lst IH]; cbn [Py.remove]; intros H N; [exact H|].
  destruct (Nat.eqb_spec c y) as [->|Hc].
  - destruct H as [->|H]; [congruence | exact H].
  - destruct H as [->|H]; [left; reflexivity | right; auto].
Qed.

Lemma remove_middle (c : conn_id) (pre post : list conn_id) :
  ~ In c pre -> Py.remove Nat.eqb c (pre ++ c :: post) = pre ++ post.
Proof.
  induction pre as [|y pre IH]; cbn [Py.remove app]; intros H.
  - rewrite Nat.eqb_refl. reflexivity.
  - destruct (Nat.eqb_spec c y) as [->|Hc].
    + exfalso. apply H. left. reflexivity.
    + rewrite IH; [reflexivity|]. intros Hin. apply H. right. exact Hin.
Qed.

(** The loop ends: the fuel of [broadcast] is enough for every registry. *)
Lemma for_conn_total (fuel : nat) :
  forall (i : nat) (lst sent : list conn_id),
  length lst - i < fuel -> exists o, for_conn socks fuel i lst sent = Some o.
Proof.
  induction fuel as [|fuel IH]; intros i lst sent H; [lia|].
  cbn [for_conn]. destruct (nth_error lst i) as [c|] eqn:E; [|eauto].
  assert (i < length lst) by (apply nth_error_Some; congruence).
  destruct (fileno (socks c) =? -1)%Z; [apply IH; lia_ids|].
  destruct (negb (sendall_raises (socks c))); [apply IH; lia_ids|].
  destruct (getpeername_raises (socks c)); [eauto|].
  apply IH. pose proof (remove_length c lst). lia_ids.
Qed.

(** The broadcast ends on every registry, however the connections
    answer, although it removes from the list it walks. *)
Lemma broadcast_total (lst : list conn_id) :
  exists o, broadcast socks lst = Some o.
Proof. apply for_conn_total. lia. Qed.

(** Whatever the registry: a connection is removed only after its
    [sendall] raised, and [sendall] returned on every connection counted as
    delivered. *)
Lemma for_conn_sound (fuel : nat) :
  forall (i : nat) (lst sent : list conn_id) (o : outcome),
  for_conn socks fuel i lst sent = Some o ->
  (forall d, In d lst -> fails d = false -> In d (registry o)) /\
  (forall d, In d (registry o) -> In d lst) /\
  (forall d, In d (delivered o) -> In d sent \/ (In d lst /\ delivers d = true)).
Proof.
  induction fuel as [|fuel IH]; intros i lst sent o H; [discriminate|].
  cbn [for_conn] in H. destruct (nth_error lst i) as [c|] eqn:E.
  - pose proof (nth_error_In _ _ E) as Hc.
    unfold fails, delivers, invalid.
    destruct (fileno (socks c) =? -1)%Z eqn:F; [apply (IH _ _ _ _ H)|].
    destruct (sendall_raises (socks c)) eqn:R; cbn [negb] in H.
    + destruct (getpeername_raises (socks c)).
      * injection H as <-. cbn [registry delivered]. repeat split; auto.
      * destruct (IH _ _ _ _ H) as (A & B & C). repeat split.
        -- intros d Hd Hf. apply A; [|exact Hf]. apply remove_In; [exact Hd|].
           intros ->. unfold fails, invalid in Hf. rewrite F, R in Hf. discriminate.
        -- intros d Hd. apply B in Hd. clear - Hd.
           induction lst as [|y lst IHl]; cbn [Py.remove] in Hd; [exact Hd|].
           destruct (Nat.eqb c y); [right; exact Hd|].
           destruct Hd as [->|Hd]; [left; reflexivity | right; auto].
        -- intros d Hd. destruct (C d Hd) as [Hs|[Hl Hv]]; [left; exact Hs|].
           right. split; [|exact Hv]. clear - Hl.
           induction lst as [|y lst IHl]; cbn [Py.remove] in Hl; [exact Hl|].
           destruct (Nat.eqb c y); [right; exact Hl|].
           destruct Hl as [->|Hl]; [left; reflexivity | right; auto].
    + destruct (IH _ _ _ _ H) as (A & B & C). repeat split; auto.
      intros d Hd. destruct (C d Hd) as [Hs|Hr]; [|right; exact Hr].
      apply in_app_or in Hs. destruct Hs as [Hs|[<-|[]]]; [left; exact Hs|].
      right. split; [exact Hc|]. unfold delivers, invalid. rewrite F, R. reflexivity.
  - injection H as <-. cbn [registry delivered]. repeat split; auto.
Qed.

(** A stretch of connections none of which fails: the loop walks over it,
    sends to those with a valid descriptor and leaves the list alone. *)
Lemma for_conn_walk (todo : list conn_id) :
  forall (pre rest sent : list conn_id) (fuel : nat),
  Forall (fun d => fails d = false) todo ->
  for_conn socks (length todo + fuel) (length pre) (pre ++ todo ++ rest) sent
  = for_conn socks fuel (length pre + length todo) (pre ++ todo ++ rest)
             (sent ++ filter delivers todo).
Proof.
  induction todo as [|d todo IH]; intros pre rest sent fuel H.
  - cbn [length filter app]. rewrite Nat.add_0_r, app_nil_r. reflexivity.
  - inversion H as [|d' todo' Hd Ht]; subst.
    cbn [length Nat.add for_conn].
    rewrite nth_error_app2 by lia. rewrite Nat.sub_diag. cbn [app nth_error].
    replace (pre ++ d :: todo ++ rest) with ((pre ++ [d]) ++ todo ++ rest)
      by (rewrite <- app_assoc; reflexivity).
    replace (S (length pre)) with (length (pre ++ [d]))
      by (rewrite length_app; cbn [length]; lia).
    replace (length pre + S (length todo)) with (length (pre ++ [d]) + length todo)
      by (rewrite length_app; cbn [length]; lia).
    assert (D : delivers d = negb (fileno (socks d) =? -1)%Z /\
                ((fileno (socks d) =? -1)%Z = false -> sendall_raises (socks d) = false)).
    { unfold fails, delivers, invalid in Hd |- *.
      destruct (fileno (socks d) =? -1)%Z, (sendall_raises (socks d));
        cbn [negb andb] in Hd |- *; split; congruence. }
    destruct D as [D R]. cbn [filter]. rewrite D.
    destruct (fileno (socks d) =? -1)%Z; cbn [negb].
    + rewrite IH by exact Ht. reflexivity.
    + rewrite (R eq_refl). cbn [negb]. rewrite IH by exact Ht.
      rewrite <- (app_assoc sent [d]). reflexivity.
Qed.

Lemma for_conn_fail (fuel i : nat) (lst sent : list conn_id) (c : conn_id) :
  nth_error lst i = Some c ->
  fails c = true -> getpeername_raises (socks c) = false ->
  for_conn socks (S fuel) i lst sent
  = for_conn socks fuel (S i) (Py.remove Nat.eqb c lst) sent.
Proof.
  intros E Hc Hg. cbn [for_conn]. rewrite E.
  unfold fails, invalid in Hc.
  destruct (fileno (socks c) =? -1)%Z; [discriminate|].
  cbn [negb andb] in Hc. rewrite Hc, Hg. reflexivity.
Qed.

Lemma for_conn_end (fuel : nat) (lst sent : list conn_id) (i : nat) :
  length lst <= i ->
  for_conn socks (S fuel) i lst sent = Some (Outcome Completed lst sent).
Proof.
  intros H. cbn [for_conn].
  replace (nth_error lst i) with (@None conn_id); [reflexivity|].
  symmetry. apply nth_error_None. exact H.
Qed.


End BroadcastFacts.

(** *** Three consumers *)

Definition working : sock := Sock 5 false false.
Definition peer_gone : sock := Sock 5 true false.


(** The send to consumer [k] fails. *)
Definition socks_failing (k : conn_id) (d : conn_id) : sock :=
  if d =? k then peer_gone else working.


(** The connection registered right after a removed one is passed
    over by the iterator in that broadcast: with a failing send to
    consumer 1, consumer 2 works and gets nothing; with a failing send to
    consumer 2, consumer 3 gets nothing. *)
Lemma broadcast_skips_successor :
  broadcast (socks_failing 1) [1; 2; 3] = Some (Outcome Completed [2; 3] [3]) /\
  broadcast (socks_failing 2) [1; 2; 3] = Some (Outcome Completed [1; 3] [1]).
Proof. split; reflexivity. Qed.

(** When [getpeername] raises in the handler (the peer is gone), the
    exception leaves the loop: nobody is removed, the connections after
    the failing one get nothing, and the distributor thread ends. *)
Lemma broadcast_handler_raises :
  broadcast (fun d => if d =? 2 then Sock 5 true true else working) [1; 2; 3]
  = Some (Outcome Died [1; 2; 3] [1]).
Proof. reflexivity. Qed.


End RegistryFacts.

(** ** The wire: length prefix, sockets, frames *)

Module WireFacts.

Lemma to_N_byte_of_N (n : N) : Byte.to_N (Py.byte_of_N n) = (n mod 256)%N.
Proof.
  unfold Py.byte_of_N. destruct (Byte.of_N (n mod 256)) as [b|] eqn:E.
  - apply Byte.to_of_N. exact E.
  - apply Byte.of_N_None_iff in E.
    pose proof (N.mod_lt n 256 ltac:(discriminate)). lia.
Qed.

(** [int.from_bytes(n.to_bytes(4, 'little'), 'little') == n]. *)
Lemma from_to_bytes4 (n : N) :
  (n < 4294967296)%N ->
  exists header,
    Py.to_bytes4_little n = Some header /\
    length header = 4 /\
    Py.from_bytes_little header = n.
Proof.
  intros H. unfold Py.to_bytes4_little.
  replace (n <? 4294967296)%N with true by (symmetry; apply N.ltb_lt; exact H).
  eexists. split; [reflexivity|]. split; [reflexivity|].
  cbn [Py.from_bytes_little]. rewrite !to_N_byte_of_N.
  assert (E1 : (n / 65536 = n / 256 / 256)%N)
    by (rewrite N.Div0.div_div; reflexivity).
  assert (E2 : (n / 16777216 = n / 256 / 256 / 256)%N)
    by (rewrite !N.Div0.div_div; reflexivity).
  rewrite E1, E2.
  pose proof (N.div_mod n 256 ltac:(discriminate)).
  pose proof (N.div_mod (n / 256) 256 ltac:(discriminate)).
  pose proof (N.div_mod (n / 256 / 256) 256 ltac:(discriminate)).
  pose proof (N.div_mod (n / 256 / 256 / 256) 256 ltac:(discriminate)).
  assert ((n / 256 / 256 / 256 / 256 = 0)%N).
  { rewrite !N.Div0.div_div. apply N.div_small. exact H. }
  lia.
Qed.

Lemma to_bytes4_overflow (n : N) :
  (4294967296 <= n)%N -> Py.to_bytes4_little n = None.
Proof.
  intros H. unfold Py.to_bytes4_little.
  replace (n <? 4294967296)%N with false; [reflexivity|].
  symmetry. apply N.ltb_ge. exact H.
Qed.

(** The frame of lines 432-434 for a payload that fits. *)
Lemma encode_frame_prefixed (payload : list byte) :
  (N.of_nat (length payload) < 4294967296)%N ->
  exists header,
    encode_frame payload = Some (header ++ payload) /\
    length header = 4 /\
    N.to_nat (Py.from_bytes_little header) = length payload.
Proof.
  intros H. destruct (from_to_bytes4 H) as (header & E & L & F).
  exists header. unfold encode_frame. rewrite E.
  split; [reflexivity|]. split; [exact L|]. rewrite F. apply Nat2N.id.
Qed.

(** [recv] on a connection that does not fail: it takes a prefix of what
    is to come, within the size asked, and a non-empty one when something
    is to come and the size is positive. *)
Lemma recv_clean (n : nat) (s : Socket.conn) :
  Socket.clean s = true ->
  exists d s',
    Socket.recv n s = (Socket.Got d, s') /\
    Socket.clean s' = true /\
    d ++ Socket.contents s' = Socket.contents s /\
    length d <= n /\
    (0 < n -> Socket.contents s <> [] -> d <> []).
Proof.
  induction s as [|[bs|] s IH]; cbn [Socket.clean]; intros C; [| |discriminate].
  - exists [], []. cbn [Socket.recv Socket.contents length app].
    split; [reflexivity|]. split; [reflexivity|]. split; [reflexivity|].
    split; [lia|]. intros _ H. exact H.
  - destruct bs as [|b bs].
    + cbn [Socket.recv Socket.contents app]. apply IH. exact C.
    + cbn [Socket.recv Socket.contents].
      destruct (length (b :: bs) <=? n) eqn:L.
      * exists (b :: bs), s. apply Nat.leb_le in L.
        split; [reflexivity|]. split; [exact C|]. split; [reflexivity|].
        split; [exact L|]. intros _ _. discriminate.
      * apply Nat.leb_gt in L.
        exists (firstn n (b :: bs)), (Socket.Bytes (skipn n (b :: bs)) :: s).
        cbn [Socket.clean Socket.contents].
        split; [reflexivity|]. split; [exact C|].
        split; [rewrite app_assoc, firstn_skipn; reflexivity|].
        split; [rewrite length_firstn; lia|].
        intros Hn _. destruct n; [lia|]. discriminate.
Qed.

Lemma recv_first_length (n : nat) (h : list byte) (s0 : Socket.conn) :
  0 < n -> n <= length h ->
  Socket.recv n (Socket.Bytes h :: s0)
  = (Socket.Got (firstn n h),
     if length h <=? n then s0 else Socket.Bytes (skipn n h) :: s0).
Proof.
  intros Hn Hh. destruct h as [|b h]; [cbn [length] in Hh; lia|].
  cbn [Socket.recv]. destruct (length (b :: h) <=? n) eqn:T; [|reflexivity].
  apply Nat.leb_le in T. rewrite firstn_all2 by exact T. reflexivity.
Qed.

Lemma app_same_length {A} (a b c d : list A) :
  a ++ b = c ++ d -> length a = length c -> a = c /\ b = d.
Proof.
  revert c. induction a as [|x a IH]; intros [|y c] E L; try discriminate.
  - split; [reflexivity | exact E].
  - injection E as -> E. injection L as L.
    destruct (IH c E L) as [-> ->]. split; reflexivity.
Qed.

Section ConsumerFacts.

Variable result : Type.
Variable conv_bytearray_2_vapresult : list byte -> option result.

(** The loop of lines 25-26 on a connection that holds the rest of the
    payload: it stops with exactly the payload. *)
Lemma recv_until_payload (payload rest : list byte) (fuel : nat) :
  forall (data : list byte) (s : Socket.conn),
  Socket.clean s = true ->
  data ++ Socket.contents s = payload ++ rest ->
  length data <= length payload ->
  length payload - length data <= fuel ->
  exists s',
    recv_until fuel (length payload) data s = Some (Socket.Got payload, s') /\
    Socket.clean s' = true /\ Socket.contents s' = rest.
Proof.
  induction fuel as [|fuel IH]; intros data s C E L F.
  - assert (L' : length data = length payload) by lia.
    destruct (app_same_length _ _ _ _ E L') as [-> E'].
    exists s. cbn [recv_until]. rewrite Nat.ltb_irrefl. auto.
  - cbn [recv_until]. destruct (length data <? length payload) eqn:T.
    + apply Nat.ltb_lt in T.
      destruct (@recv_clean (length payload - length data) s C)
        as (d & s' & R & C' & E' & Ld & Nd).
      rewrite R. apply IH; auto.
      * rewrite <- app_assoc, E'. exact E.
      * rewrite length_app. lia.
      * assert (d <> []).
        { apply Nd; [lia|]. intros Z. rewrite Z, app_nil_r in E.
          apply (f_equal (@length byte)) in E. rewrite length_app in E. lia. }
        rewrite length_app. destruct d; [congruence|]. cbn [length]. lia.
    + apply Nat.ltb_ge in T. assert (L' : length data = length payload) by lia.
      destruct (app_same_length _ _ _ _ E L') as [-> E'].
      exists s. auto.
Qed.

(** The consumer reads back the frame the distributor sent. *)
Lemma read_result_frame (payload rest h : list byte) (s0 : Socket.conn) :
  (N.of_nat (length payload) < 4294967296)%N ->
  4 <= length h ->
  Socket.clean s0 = true ->
  (exists header, encode_frame payload = Some (header ++ payload) /\
                  h ++ Socket.contents s0 = (header ++ payload) ++ rest) ->
  exists s',
    read_result conv_bytearray_2_vapresult (length payload) (Socket.Bytes h :: s0)
    = Some (match conv_bytearray_2_vapresult payload with
            | Some r => Decoded payload r
            | None => Disconnected result
            end, s') /\
    Socket.clean s' = true /\ Socket.contents s' = rest.
Proof.
  intros Hn Hh C (header & He & Hs).
  destruct (encode_frame_prefixed payload Hn) as (header' & He' & L4 & F).
  rewrite He in He'. injection He' as He'. apply app_inv_tail in He'. subst header'.
  (* the four bytes of the header *)
  assert (R4 : exists s1,
             Socket.recv 4 (Socket.Bytes h :: s0) = (Socket.Got header, s1) /\
             Socket.clean s1 = true /\ Socket.contents s1 = payload ++ rest).
  { destruct (@recv_clean 4 (Socket.Bytes h :: s0) C) as (d & s1 & R & C1 & E1 & L1 & _).
    assert (Ld : length d = 4).
    { rewrite (@recv_first_length 4 h s0) in R by lia.
      assert (Rd : d = firstn 4 h) by congruence.
      rewrite Rd, length_firstn. lia. }
    cbn [Socket.contents] in E1. rewrite Hs, <- app_assoc in E1.
    assert (Ld' : length d = length header) by congruence.
    destruct (app_same_length _ _ _ _ E1 Ld') as [-> E2].
    exists s1. auto. }
  destruct R4 as (s1 & R1 & C1 & E1).
  unfold read_result. rewrite R1, F.
  destruct (@recv_clean (length payload) s1 C1) as (d & s2 & R2 & C2 & E2 & L2 & _).
  rewrite R2.
  destruct (@recv_until_payload payload rest (length payload) d s2 C2)
    as (s3 & R3 & C3 & E3); [congruence | exact L2 | lia |].
  rewrite R3. exists s3. destruct (conv_bytearray_2_vapresult payload); auto.
Qed.


End ConsumerFacts.

(** *** The input frame *)

Lemma recv_frame_whole (fuel : nat) (frame : list byte) (rest : Socket.conn) :
  length frame = size_recv ->
  recv_frame fuel (Socket.Bytes frame :: rest) = (Frame frame, rest).
Proof.
  intros L. unfold recv_frame.
  rewrite (@recv_first_length size_recv frame rest)
    by (rewrite ?L; unfold size_recv, FRAME_SIZE_INPUT; lia).
  rewrite firstn_all2 by lia. rewrite L, Nat.leb_refl, Nat.ltb_irrefl. reflexivity.
Qed.

Definition arrival (seg : list byte) : Prop := seg <> [].

(** The loop of lines 376-382 on the arrivals that complete the frame. *)
Lemma recv_rest_segments (segs : list (list byte)) :
  forall (data : list byte) (fuel : nat) (rest : Socket.conn),
  Forall arrival segs ->
  length data + length (concat segs) = size_recv ->
  length data < size_recv ->
  length segs <= fuel ->
  recv_rest fuel data (map Socket.Bytes segs ++ rest) = (Frame (data ++ concat segs), rest).
Proof.
  induction segs as [|seg segs IH]; intros data fuel rest Hs Hl Hd Hf.
  - cbn [concat length] in Hl. lia.
  - inversion Hs as [|seg' segs' Hseg Hsegs]; subst.
    destruct fuel as [|fuel]; [cbn [length] in Hf; lia|].
    cbn [concat] in Hl. rewrite length_app in Hl.
    destruct seg as [|b seg]; [exfalso; apply Hseg; reflexivity|].
    cbn [recv_rest map app Socket.recv].
    replace (length (b :: seg) <=? size_recv) with true
      by (symmetry; apply Nat.leb_le; lia).
    cbn [length Nat.eqb]. fold (length (b :: seg)).
    destruct (length (data ++ b :: seg) =? size_recv) eqn:T.
    + apply Nat.eqb_eq in T. rewrite length_app in T.
      destruct segs as [|seg2 segs].
      * cbn [concat map app]. rewrite app_nil_r. reflexivity.
      * exfalso. inversion Hsegs as [|x y Hseg2 _]; subst.
        destruct seg2; [apply Hseg2; reflexivity|].
        cbn [concat] in Hl. rewrite length_app in Hl. cbn [length] in *. lia.
    + apply Nat.eqb_neq in T. rewrite length_app in T.
      rewrite IH; auto.
      * cbn [concat]. rewrite <- app_assoc. reflexivity.
      * rewrite length_app. lia.
      * rewrite length_app. lia.
      * cbn [length] in Hf. lia.
Qed.

(** Lines 370-382 on a frame that arrives in pieces, none of them reaching
    into the next frame. *)
Lemma recv_frame_segments (segs : list (list byte)) (rest : Socket.conn) :
  Forall arrival segs ->
  length (concat segs) = size_recv ->
  recv_frame (length segs) (map Socket.Bytes segs ++ rest) = (Frame (concat segs), rest).
Proof.
  intros Hs Hl. destruct segs as [|seg segs].
  - cbn [concat length] in Hl. unfold size_recv, FRAME_SIZE_INPUT in Hl. lia.
  - inversion Hs as [|seg' segs' Hseg Hsegs]; subst.
    cbn [concat] in Hl |- *. rewrite length_app in Hl.
    destruct seg as [|b seg]; [exfalso; apply Hseg; reflexivity|].
    unfold recv_frame. cbn [map app Socket.recv].
    replace (length (b :: seg) <=? size_recv) with true
      by (symmetry; apply Nat.leb_le; lia).
    destruct (length (b :: seg) <? size_recv) eqn:T.
    + apply Nat.ltb_lt in T. apply recv_rest_segments; auto. cbn [length]. lia.
    + apply Nat.ltb_ge in T.
      destruct segs as [|seg2 segs].
      * cbn [concat map app]. rewrite app_nil_r. reflexivity.
      * exfalso. inversion Hsegs as [|x y Hseg2 _]; subst.
        destruct seg2; [apply Hseg2; reflexivity|].
        cbn [concat] in Hl. rewrite length_app in Hl. cbn [length] in *. lia.
Qed.

(** C5 (as the code has it): the result output frame is length-prefixed:
    the bytes handed to [sendall] are four bytes, the little-endian
    unsigned length of the payload, followed by the payload (for a payload
    of fewer than 2^32 bytes; a longer one raises). The audio input frame
    has no length header: the server expects 2560 = 8 * 2 * 160 raw
    payload bytes, and a frame that arrives whole is handed to the decoder
    as it is, first byte included. *)
Theorem frame_shapes (payload frame : list byte) (rest : Socket.conn) (fuel : nat) :
  (N.of_nat (length payload) < 4294967296)%N ->
  length frame = size_recv ->
  (exists header,
     encode_frame payload = Some (header ++ payload) /\
     length header = 4 /\
     N.to_nat (Py.from_bytes_little header) = length payload) /\
  size_recv = 2560 /\
  recv_frame fuel (Socket.Bytes frame :: rest) = (Frame frame, rest).
Proof.
  intros Hp Hf. split; [apply encode_frame_prefixed; exact Hp|].
  split; [reflexivity|]. apply recv_frame_whole. exact Hf.
Qed.

(** The framing alone: for an output frame with a payload of fewer
    than 2^32 bytes, the consumer that reads the distributor's encoding
    from a connection whose first arrival holds the four header bytes,
    however the rest is cut and whatever follows, hands its decoder exactly
    the payload, and leaves what follows; for the input shape, the server
    puts a frame of 2560 bytes together again from any pieces that end with
    the frame. (The payload codecs are [rvap.common.util]'s.) *)
Theorem frames_read_back (result : Type)
    (conv_bytearray_2_vapresult : list byte -> option result)
    (payload rest h : list byte) (s0 : Socket.conn)
    (segs : list (list byte)) (more : Socket.conn) :
  (N.of_nat (length payload) < 4294967296)%N ->
  4 <= length h ->
  Socket.clean s0 = true ->
  (exists header, encode_frame payload = Some (header ++ payload) /\
                  h ++ Socket.contents s0 = (header ++ payload) ++ rest) ->
  Forall arrival segs ->
  length (concat segs) = size_recv ->
  (exists s',
     read_result conv_bytearray_2_vapresult (length payload) (Socket.Bytes h :: s0)
     = Some (match conv_bytearray_2_vapresult payload with
             | Some r => Decoded payload r
             | None => Disconnected result
             end, s') /\
     Socket.clean s' = true /\ Socket.contents s' = rest) /\
  recv_frame (length segs) (map Socket.Bytes segs ++ more) = (Frame (concat segs), more).
Proof.
  intros Hp Hh Hc He Hs Hl. split.
  - apply read_result_frame; assumption.
  - apply recv_frame_segments; assumption.
Qed.

(** *** Concrete frames *)

Definition header2560 : list byte := [x00; x0a; x00; x00].
Definition header10 : list byte := [x0a; x00; x00; x00].
Definition header3 : list byte := [x03; x00; x00; x00].

(** C5 (as the specification has it) fails on the input side: sent a
    frame made of a 4-byte length header (2560) and 2560 payload bytes, the
    server takes the first 2560 bytes as the frame: the header and all but
    the last four bytes of the payload. *)
Lemma input_frame_has_no_header :
  Py.to_bytes4_little 2560 = Some header2560 /\
  recv_frame 1 [Socket.Bytes (header2560 ++ repeat x01 2560)]
  = (Frame (header2560 ++ repeat x01 2556), [Socket.Bytes (repeat x01 4)]).
Proof. split; vm_compute; reflexivity. Qed.


(** An input frame that arrives in two pieces, the second together with
    the start of the next frame: the second [recv(size_recv)] takes both, the length
    test [len(data) == size_recv] never holds, and the loop reads on until
    the peer closes; what goes to the decoder is everything received. *)
Lemma recv_frame_overshoots :
  match recv_frame 3 [Socket.Bytes (repeat x01 1000);
                      Socket.Bytes (repeat x01 1560 ++ repeat x02 1000);
                      Socket.Bytes (repeat x02 1560)] with
  | (Frame data, rest) => (length data, rest)
  | _ => (0, [])
  end = (2 * size_recv, []).
Proof. vm_compute. reflexivity. Qed.

Lemma frame_shapes_witness :
  (N.of_nat (length [x01; x02]) < 4294967296)%N /\
  length (repeat x00 2560) = size_recv /\
  recv_frame 0 [Socket.Bytes (repeat x00 2560)] = (Frame (repeat x00 2560), []).
Proof.
  assert (Hp : (N.of_nat (length [x01; x02]) < 4294967296)%N) by reflexivity.
  assert (Hf : length (repeat x00 2560) = size_recv) by reflexivity.
  split; [exact Hp|]. split; [exact Hf|].
  exact (proj2 (proj2 (@frame_shapes [x01; x02] (repeat x00 2560) [] 0 Hp Hf))).
Defined.

Lemma frames_read_back_witness :
  exists s',
    read_result (fun data => Some (length data)) 3
      [Socket.Bytes (header3 ++ [x01]); Socket.Bytes [x02]; Socket.Bytes [x03; x09]]
    = Some (Decoded [x01; x02; x03] 3, s') /\
    Socket.clean s' = true /\ Socket.contents s' = [x09].
Proof.
  refine (proj1 (@frames_read_back nat (fun data => Some (length data))
                   [x01; x02; x03] [x09] (header3 ++ [x01])
                   [Socket.Bytes [x02]; Socket.Bytes [x03; x09]]
                   [repeat x00 2560] [] _ _ _ _ _ _)).
  - reflexivity.
  - cbn [length app header3]. lia.
  - reflexivity.
  - exists header3. split; reflexivity.
  - constructor; [discriminate | constructor].
  - reflexivity.
Defined.

End WireFacts.

(** ** The input server *)

Module ServerFacts.

(** A [recv] of a positive size uses up some of the script, unless the
    peer has closed. *)
Lemma recv_weight (n : nat) (s : Socket.conn) :
  0 < n ->
  Socket.weight (snd (Socket.recv n s)) <= Socket.weight s /\
  match fst (Socket.recv n s) with
  | Socket.Got [] => snd (Socket.recv n s) = []
  | _ => Socket.weight (snd (Socket.recv n s)) < Socket.weight s
  end.
Proof.
  intros Hn. induction s as [|[bs|] s IH]; cbn [Socket.recv Socket.weight fst snd].
  - split; [lia | reflexivity].
  - destruct bs as [|b bs].
    + destruct IH as [I1 I2]. split; [lia|].
      destruct (fst (Socket.recv n s)) as [[|x d]|]; [exact I2 | lia | lia].
    + destruct (length (b :: bs) <=? n) eqn:L; cbn [fst snd Socket.weight].
      * split; lia.
      * apply Nat.leb_gt in L. rewrite length_skipn.
        destruct n as [|n]; [lia|]. cbn [firstn]. cbn [length] in *. split; lia.
  - split; lia.
Qed.

Lemma size_recv_pos : 0 < size_recv.
Proof. unfold size_recv, FRAME_SIZE_INPUT. lia. Qed.

(** The reassembly loop ends within the fuel the script's weight allows. *)
Lemma recv_rest_total (fuel : nat) :
  forall (data : list byte) (s : Socket.conn),
  Socket.weight s < fuel ->
  fst (recv_rest fuel data s) <> ReadStarved /\
  Socket.weight (snd (recv_rest fuel data s)) <= Socket.weight s.
Proof.
  induction fuel as [|fuel IH]; intros data s H; [lia|].
  cbn [recv_rest]. pose proof (recv_weight s size_recv_pos) as [W1 W2].
  destruct (Socket.recv size_recv s) as [[d|] s']; cbn [fst snd] in *.
  - destruct d as [|x d].
    + cbn [length Nat.eqb fst snd]. split; [discriminate | lia].
    + cbn [length Nat.eqb].
      destruct (length (data ++ x :: d) =? size_recv); cbn [fst snd].
      * split; [discriminate | lia].
      * destruct (IH (data ++ x :: d) s' ltac:(lia)) as [I1 I2]. split; [exact I1 | lia].
  - split; [discriminate | lia].
Qed.

Lemma recv_frame_total (fuel : nat) (s : Socket.conn) :
  Socket.weight s <= fuel -> 0 < fuel ->
  fst (recv_frame fuel s) <> ReadStarved /\
  Socket.weight (snd (recv_frame fuel s)) <= Socket.weight s /\
  (forall data, fst (recv_frame fuel s) = Frame data -> data <> [] ->
     Socket.weight (snd (recv_frame fuel s)) < Socket.weight s).
Proof.
  intros H H0. unfold recv_frame.
  pose proof (recv_weight s size_recv_pos) as [W1 W2].
  destruct (Socket.recv size_recv s) as [[d|] s']; cbn [fst snd] in *.
  - destruct d as [|x d].
    + subst s'. replace (length (@nil byte) <? size_recv) with true
        by (symmetry; apply Nat.ltb_lt; exact size_recv_pos).
      destruct fuel as [|fuel]; [lia|]. cbn [recv_rest Socket.recv length Nat.eqb fst snd].
      split; [discriminate|]. split; [lia|].
      intros data E N. injection E as <-. congruence.
    + destruct (length (x :: d) <? size_recv).
      * destruct (@recv_rest_total fuel (x :: d) s' ltac:(lia)) as [I1 I2].
        split; [exact I1|]. split; [lia|]. intros; lia.
      * cbn [fst snd]. split; [discriminate|]. split; [lia|]. intros; lia.
  - split; [discriminate|]. split; [lia|]. intros data E. discriminate.
Qed.

Section Server.

Variable sample : Type.
Variable zero : sample.
Variable embedding : Type.
Variable prob : Type.
Variable encode_audio : list sample -> list sample -> option (embedding * embedding).
Variable infer : list embedding -> list embedding -> option (prob * prob).
Variable conv_bytearray_2_2floatarray : list byte -> option (chunk sample).
Variable clock : nat -> clock_reads.

Local Notation "'server''" := (server sample embedding prob).
Local Notation "'streaming''" :=
  (streaming encode_audio infer conv_bytearray_2_2floatarray clock).
Local Notation "'serve''" :=
  (serve zero encode_audio infer conv_bytearray_2_2floatarray clock).
Local Notation "'proc_serv_in''" :=
  (proc_serv_in zero encode_audio infer conv_bytearray_2_2floatarray clock).

(** A window that [process_vap] gets passed the readiness test. *)
Definition ready (w : window sample) : Prop :=
  FRAME_SIZE_VAP + FRAME_SAVE_LAST <= length (fst w).

Lemma ingest_ready_window (b b' : buffers sample) (c : chunk sample) (w : window sample) :
  ingest b c = (b', Some w) -> ready w.
Proof.
  unfold ingest, ready.
  destruct (length (current_x1 b ++ fst c) <? FRAME_SIZE_VAP + FRAME_SAVE_LAST) eqn:T;
    intros E; [discriminate|].
  injection E as _ <-. apply Nat.ltb_ge in T. exact T.
Qed.

(** The streaming loop ends on every script, keeps [addr], and hands
    [process_vap] nothing but windows that passed the readiness test. *)
Lemma streaming_inv (fuel : nat) :
  forall (b : buffers sample) (s : Socket.conn) (st : server'),
  Socket.weight s + 2 <= fuel ->
  fst (streaming' fuel b s st) <> Starved /\
  addr (snd (streaming' fuel b s st)) = addr st /\
  exists ws, windows (snd (streaming' fuel b s st)) = windows st ++ ws /\
             Forall ready ws.
Proof.
  induction fuel as [|fuel IH]; intros b s st H; [lia|].
  assert (Same : forall e : stream_end, e <> Starved ->
            e <> Starved /\ addr st = addr st /\
            exists ws, windows st = windows st ++ ws /\ Forall ready ws).
  { intros e He. split; [exact He|]. split; [reflexivity|].
    exists []. rewrite app_nil_r. split; [reflexivity | constructor]. }
  cbn [streaming].
  destruct (@recv_frame_total fuel s ltac:(lia) ltac:(lia)) as (T1 & T2 & T3).
  destruct (recv_frame fuel s) as [[data| |] s']; cbn [fst snd] in *;
    [| apply Same; discriminate | congruence].
  destruct data as [|x data]; [apply Same; discriminate|].
  cbn [length Nat.eqb].
  specialize (T3 (x :: data) eq_refl ltac:(discriminate)).
  destruct (conv_bytearray_2_2floatarray (x :: data)) as [c|];
    [|apply Same; discriminate].
  destruct (ingest b c) as [b' [[w1 w2]|]] eqn:I.
  - apply ingest_ready_window in I.
    destruct (process_vap encode_audio infer (clock (calls st)) w1 w2 (vap st))
      as [pc v'].
    assert (Step : forall e : stream_end, e <> Starved ->
              let st' := Server v' (addr st) (S (calls st)) (windows st ++ [(w1, w2)]) in
              e <> Starved /\ addr st' = addr st /\
              exists ws, windows st' = windows st ++ ws /\ Forall ready ws).
    { intros e He st'. split; [exact He|]. split; [reflexivity|].
      exists [(w1, w2)]. split; [reflexivity|]. constructor; [exact I | constructor]. }
    destruct pc; try (apply Step; discriminate).
    destruct (IH b' s' (Server v' (addr st) (S (calls st)) (windows st ++ [(w1, w2)]))
                ltac:(lia)) as (J1 & J2 & ws & J3 & J4).
    split; [exact J1|]. split; [exact J2|].
    exists ((w1, w2) :: ws). rewrite J3. cbn [windows].
    rewrite <- app_assoc. split; [reflexivity|]. constructor; assumption.
  - apply IH. lia.
Qed.

(** With [addr] bound, a turn of the outer loop ends in [Listening]. *)
Lemma serve_listening (x : session) (st : server') :
  (addr st <> None \/ exists a s, x = Accepted a s) ->
  fst (serve' x st) = Listening /\ addr (snd (serve' x st)) <> None.
Proof.
  intros H. destruct x as [|a s].
  - destruct H as [H|(a & s & E)]; [|discriminate].
    cbn [serve]. unfold handler. destruct (addr st) eqn:E; [|congruence].
    cbn [fst snd]. split; [reflexivity | congruence].
  - cbn [serve].
    pose proof (@streaming_inv (2 + Socket.weight s) (init_buffers zero) s
                  (Server (vap st) (Some a) (calls st) (windows st)) ltac:(lia))
      as (I1 & I2 & _).
    destruct (streaming' _ _ _ _) as [[| |] st2]; cbn [fst snd addr] in *.
    + split; [reflexivity | congruence].
    + unfold handler. rewrite I2. split; [reflexivity|]. cbn [snd]. congruence.
    + congruence.
Qed.

Lemma proc_serv_in_listening (env : list session) :
  forall st : server', addr st <> None -> fst (proc_serv_in' env st) = Listening.
Proof.
  induction env as [|x env IH]; intros st H; [reflexivity|].
  cbn [proc_serv_in].
  destruct (@serve_listening x st (or_introl H)) as [S1 S2].
  destruct (serve' x st) as [e st']. cbn [fst snd] in *. subst e.
  apply IH. exact S2.
Qed.

(** On an accepted producer connection, whatever it delivers: when a
    read returns nothing (the peer closed) the streaming loop breaks
    without touching the inference context or emitting a window, whatever
    the buffers hold, and the server is back in [Listening]; a read error,
    a decode error or an inference fault lead to [Listening] too; the only
    windows ever handed to [process_vap] are those that passed the
    readiness test; and the outer loop goes on with what the environment
    offers next, a new connection starting from fresh buffers, and never
    exits, whatever follows. *)
Theorem input_server_recovers (a : address) (s : Socket.conn)
    (env : list session) (st : server') (b : buffers sample) (fuel : nat) :
  let after := snd (serve' (Accepted a s) st) in
  fst (serve' (Accepted a s) st) = Listening /\
  addr after = Some a /\
  (exists ws, windows after = windows st ++ ws /\ Forall ready ws) /\
  streaming' (S (S fuel)) b [] st = (Break, st) /\
  serve' (Accepted a []) st
    = (Listening, Server (vap st) (Some a) (calls st) (windows st)) /\
  serve' (Accepted a [Socket.Reset]) st
    = (Listening, Server (vap st) (Some a) (calls st) (windows st)) /\
  proc_serv_in' (Accepted a s :: env) st = proc_serv_in' env after /\
  fst (proc_serv_in' (Accepted a s :: env) st) = Listening.
Proof.
  intros after.
  assert (A : addr (Server (vap st) (Some a) (calls st) (windows st)) <> None)
    by (cbn [addr]; discriminate).
  destruct (@serve_listening (Accepted a s) st) as [S1 S2]; [right; eauto|].
  pose proof (@streaming_inv (2 + Socket.weight s) (init_buffers zero) s
                (Server (vap st) (Some a) (calls st) (windows st)) ltac:(lia))
    as (I1 & I2 & ws & I3 & I4).
  assert (After : addr after = Some a /\ windows after = windows st ++ ws).
  { unfold after. cbn [serve].
    destruct (streaming' _ _ _ _) as [[| |] st2]; cbn [fst snd addr windows] in *.
    - split; assumption.
    - unfold handler. rewrite I2. cbn [snd]. split; assumption.
    - congruence. }
  destruct After as [A1 A2].
  split; [exact S1|]. split; [exact A1|].
  split; [exists ws; split; assumption|].
  split; [reflexivity|]. split; [reflexivity|]. split; [reflexivity|].
  assert (E : proc_serv_in' (Accepted a s :: env) st = proc_serv_in' env after).
  { cbn [proc_serv_in]. unfold after.
    destruct (serve' (Accepted a s) st) as [e st']. cbn [fst snd] in *.
    subst e. reflexivity. }
  split; [exact E|]. rewrite E. apply proc_serv_in_listening. congruence.
Qed.

(** Outside that path, an exception of [socket], [bind], [listen] or
    [accept] before any connection was accepted finds [addr] unbound in
    the handler, and the [NameError] leaves the function. *)
Lemma setup_failure_exits (v : VAPRealTime sample embedding prob) (env : list session) :
  fst (proc_serv_in' (SetupRaised :: env) (Server v None 0 [])) = Exited.
Proof. reflexivity. Qed.

End Server.

End ServerFacts.

(** ** The distributor and the ingest thread over the shared object *)

Module DistributorFacts.

Section Threads.

Variable sample : Type.
Variable embedding : Type.
Variable prob : Type.
Variable prob_zero : prob.
Variable encode_audio : list sample -> list sample -> option (embedding * embedding).
Variable infer : list embedding -> list embedding -> option (prob * prob).
Variable conv_vapresult_2_bytearray_bc : vap_result sample prob -> list byte.
Variable socks : nat -> Registry.conn_id -> Registry.sock.

Local Notation "'VAP'" := (VAPRealTime sample embedding prob).
Local Notation "'system''" := (system sample embedding prob).
Local Notation "'ingest_thread''" := (ingest_thread sample embedding prob).
Local Notation "'ingest_step''" := (ingest_step encode_audio infer).
Local Notation "'sys_step''" :=
  (sys_step encode_audio infer conv_vapresult_2_bytearray_bc socks).
Local Notation "'run''" := (run encode_audio infer conv_vapresult_2_bytearray_bc socks).
Local Notation "'boot''" := (boot embedding prob_zero).

Definition result_time (k : call sample) : Z := t_result (fst k).

(** The call is at or before line 312: it has yet to publish its time. *)
Definition will_publish (pc : vap_pc embedding prob) : bool :=
  match pc with
  | L314 _ _ | L317 _ _ _ | L319 _ _ | L324 _ _ | L_return _ _ | L_raise _ _ => false
  | _ => true
  end.

(** The call is past line 312 and has not raised. *)
Definition published_pc (pc : vap_pc embedding prob) : bool :=
  match pc with
  | L314 _ _ | L317 _ _ _ | L319 _ _ | L324 _ _ | L_return _ _ => true
  | _ => false
  end.

Definition published (w : ingest_thread') : bool :=
  match running w with
  | Some (_, pc) => published_pc pc
  | None => false
  end.

(** The calls the thread is in or has yet to make. *)
Definition calls_left (w : ingest_thread') : list (call sample) :=
  match running w with
  | Some (k, _) => k :: pending w
  | None => pending w
  end.

(** The times line 312 will still write, in order. *)
Definition future_times (w : ingest_thread') : list Z :=
  match running w with
  | Some (k, pc) => if will_publish pc then result_time k :: map result_time (pending w)
                    else map result_time (pending w)
  | None => map result_time (pending w)
  end.

Lemma vap_step_result_last_time (c : clock_reads) (x1 x2 : list sample)
    (pc : vap_pc embedding prob) (v : VAP) :
  result_last_time (snd (vap_step encode_audio infer c x1 x2 pc v))
  = match pc with L312 _ _ => t_result c | _ => result_last_time v end.
Proof.
  destruct pc; cbn [vap_step snd]; try reflexivity.
  - destruct (encode_audio x1 x2) as [[e1 e2]|]; reflexivity.
  - destruct (AUDIO_CONTEXT_LIM <? _); reflexivity.
  - destruct (AUDIO_CONTEXT_LIM <? _); reflexivity.
  - destruct (infer _ _) as [[pr pe]|]; reflexivity.
  - destruct (CALC_PROCESS_TIME_INTERVAL <? _); reflexivity.
Qed.

Lemma vap_step_process_time_abs (c : clock_reads) (x1 x2 : list sample)
    (pc : vap_pc embedding prob) (v : VAP) :
  process_time_abs (snd (vap_step encode_audio infer c x1 x2 pc v))
  = match pc with L324 _ _ => t_abs c | _ => process_time_abs v end.
Proof.
  destruct pc; cbn [vap_step snd]; try reflexivity.
  - destruct (encode_audio x1 x2) as [[e1 e2]|]; reflexivity.
  - destruct (AUDIO_CONTEXT_LIM <? _); reflexivity.
  - destruct (AUDIO_CONTEXT_LIM <? _); reflexivity.
  - destruct (infer _ _) as [[pr pe]|]; reflexivity.
  - destruct (CALC_PROCESS_TIME_INTERVAL <? _); reflexivity.
Qed.

(** Where a statement leads, as far as publishing goes. *)
Lemma vap_step_next (c : clock_reads) (x1 x2 : list sample)
    (pc : vap_pc embedding prob) (v : VAP) :
  let pc' := fst (vap_step encode_audio infer c x1 x2 pc v) in
  match pc with
  | L312 _ _ => will_publish pc' = false /\ published_pc pc' = true
  | _ => (will_publish pc' = true -> will_publish pc = true) /\
         published_pc pc' = published_pc pc
  end.
Proof.
  destruct pc; cbn [vap_step fst will_publish published_pc]; auto.
  - destruct (encode_audio x1 x2) as [[e1 e2]|]; cbn; auto.
  - destruct (infer _ _) as [[pr pe]|]; cbn; auto.
Qed.

(** What one statement of the ingest thread may do to the two shared
    times: it leaves [result_last_time] alone (and may then give up the
    time it had yet to write, when the call raises), or writes the next
    time due; it leaves [process_time_abs] alone, or writes it from a call
    that has published. *)
Definition effect (w : ingest_thread') (v : VAP) (w' : ingest_thread') (v' : VAP) : Prop :=
  incl (calls_left w') (calls_left w) /\
  ((result_last_time v' = result_last_time v /\
    (future_times w' = future_times w \/
     exists t, future_times w = t :: future_times w') /\
    (published w' = true -> published w = true))
   \/
   (exists k, In k (calls_left w) /\ result_last_time v' = result_time k /\
              future_times w = result_time k :: future_times w')) /\
  (process_time_abs v' = process_time_abs v \/
   (published w = true /\
    exists k, In k (calls_left w) /\ process_time_abs v' = t_abs (fst k))).

Lemma ingest_step_effect (w : ingest_thread') (v : VAP) :
  effect w v (fst (ingest_step' w v)) (snd (ingest_step' w v)).
Proof.
  destruct w as [[[[c [w1 w2]] pc]|] pend]; unfold ingest_step; cbn [running pending].
  - set (w := IngestThread (Some ((c, (w1, w2)), pc)) pend).
    assert (Stop : will_publish pc = false -> effect w v (IngestThread None pend) v).
    { intros Hp. unfold effect, calls_left, future_times, published, w.
      cbn [running pending]. rewrite Hp.
      split; [apply incl_tl, incl_refl|].
      split; [|left; reflexivity].
      left. split; [reflexivity|]. split; [left; reflexivity | discriminate]. }
    assert (Go : effect w v
                   (IngestThread (Some ((c, (w1, w2)),
                      fst (vap_step encode_audio infer c w1 w2 pc v))) pend)
                   (snd (vap_step encode_audio infer c w1 w2 pc v))).
    { pose proof (vap_step_result_last_time c w1 w2 pc v) as R.
      pose proof (vap_step_process_time_abs c w1 w2 pc v) as A.
      pose proof (vap_step_next c w1 w2 pc v) as N. cbn zeta in N.
      destruct (vap_step encode_audio infer c w1 w2 pc v) as [pc' v'].
      cbn [fst snd] in *. unfold effect, calls_left, future_times, published, w.
      cbn [running pending]. split; [apply incl_refl|].
      split.
      - destruct pc;
          try (destruct N as [N1 N2]; left; split; [exact R|]; split;
               [ destruct (will_publish pc') eqn:Wp;
                 [ rewrite (N1 eq_refl); left; reflexivity
                 | match goal with
                   | |- context [will_publish ?p] =>
                       destruct (will_publish p); [right; eexists; reflexivity
                                                  | left; reflexivity]
                   end ]
               | rewrite N2; auto ]).
        right. exists (c, (w1, w2)). destruct N as [N1 N2].
        split; [left; reflexivity|]. split; [exact R|].
        rewrite N1. reflexivity.
      - destruct pc; try (left; exact A).
        right. split; [reflexivity|]. exists (c, (w1, w2)).
        split; [left; reflexivity | exact A]. }
    destruct (vap_step encode_audio infer c w1 w2 pc v) as [pc' v'] eqn:E.
    cbn [fst snd] in Go.
    destruct pc; cbn [fst snd]; try exact Go; apply Stop; reflexivity.
  - destruct pend as [|k ks]; cbn [fst snd]; unfold effect.
    + split; [apply incl_refl|]. split; [|left; reflexivity].
      left. split; [reflexivity|]. split; [left; reflexivity | auto].
    + unfold calls_left, future_times, published. cbn [running pending map will_publish].
      split; [apply incl_refl|]. split; [|left; reflexivity].
      left. split; [reflexivity|]. split; [left; reflexivity | discriminate].
Qed.

(** *** No broadcast before a result *)

(** The distributor has seen [process_time_abs] change in this turn. *)
Definition dist_fresh (pc : dist_pc) : bool :=
  match pc with
  | D418 | D420 | D421 | D422 | D423 | D424 | D426 => true
  | _ => false
  end.

(** The distributor has copied [result_last_time] in this turn. *)
Definition dist_copied (pc : dist_pc) : bool :=
  match pc with
  | D421 | D422 | D423 | D424 | D426 => true
  | _ => false
  end.

Section NoSentinel.

Variable cs : list (call sample).

Definition clock_ok (k : call sample) : Prop :=
  (0 <= t_result (fst k))%Z /\ (0 <= t_abs (fst k))%Z.

Hypothesis clocks : Forall clock_ok cs.

Definition stamped (t : Z) : Prop := t <> (-1)%Z /\ In t (map result_time cs).

(** What the invariant says of the ingest thread and the shared times. *)
Definition inv_shared (w : ingest_thread') (v : VAP) : Prop :=
  incl (calls_left w) cs /\
  (result_last_time v = (-1)%Z \/ stamped (result_last_time v)) /\
  (published w = true -> result_last_time v <> (-1)%Z) /\
  (process_time_abs v <> (-1)%Z -> result_last_time v <> (-1)%Z).

(** What it says of the distributor. *)
Definition inv_dist (v : VAP) (pc : dist_pc) (l : dist_locals sample prob)
    (out : list (sending sample prob)) : Prop :=
  (pc <> D410 -> previous_time l <> (-1)%Z -> process_time_abs v <> (-1)%Z) /\
  (dist_fresh pc = true \/ out <> [] -> process_time_abs v <> (-1)%Z) /\
  (dist_copied pc = true -> stamped (t l)) /\
  Forall (fun b => stamped (r_t (snapshot b))) out.

Definition inv_sentinel (s : system') : Prop :=
  inv_shared (ingest_t s) (shared s) /\
  inv_dist (shared s) (dist_at s) (dist_vars s) (sent s).

Lemma clock_of (k : call sample) :
  In k cs -> clock_ok k /\ stamped (result_time k).
Proof.
  intros H. pose proof (proj1 (Forall_forall _ _) clocks k H) as [C1 C2].
  split; [split; assumption|]. split.
  - unfold result_time. lia.
  - apply in_map. exact H.
Qed.

Lemma inv_sentinel_boot : inv_sentinel (boot' cs).
Proof.
  unfold inv_sentinel, inv_shared, inv_dist, boot, calls_left, published.
  cbn [shared ingest_t dist_at dist_vars sent running pending new_vap
       result_last_time process_time_abs dist_fresh dist_copied].
  split.
  - split; [apply incl_refl|]. split; [left; reflexivity|].
    split; [discriminate | congruence].
  - split; [congruence|]. split; [intros [H|H]; [discriminate | congruence]|].
    split; [discriminate | constructor].
Qed.

Lemma ingest_step_inv (w : ingest_thread') (v : VAP) (pc : dist_pc)
    (l : dist_locals sample prob) (out : list (sending sample prob)) :
  inv_shared w v -> inv_dist v pc l out ->
  inv_shared (fst (ingest_step' w v)) (snd (ingest_step' w v)) /\
  inv_dist (snd (ingest_step' w v)) pc l out.
Proof.
  intros (I0 & I1 & I2 & I3) (I4 & I5 & I6 & I7).
  pose proof (ingest_step_effect w v) as (E0 & E1 & E2).
  destruct (ingest_step' w v) as [w' v']. cbn [fst snd] in *.
  assert (K : result_last_time v <> (-1)%Z -> result_last_time v' <> (-1)%Z).
  { destruct E1 as [(R & _)|(k & Hk & R & _)]; [congruence|].
    intros _. rewrite R. apply (clock_of k). apply I0, Hk. }
  assert (A : process_time_abs v <> (-1)%Z -> process_time_abs v' <> (-1)%Z).
  { destruct E2 as [A|(_ & k & Hk & A)]; [congruence|].
    intros _. rewrite A. destruct (clock_of k (I0 _ Hk)) as [[_ C] _]. lia. }
  split.
  - split; [eapply incl_tran; eassumption|].
    split.
    { destruct E1 as [(R & _)|(k & Hk & R & _)].
      - rewrite R. exact I1.
      - right. rewrite R. apply (clock_of k). apply I0, Hk. }
    split.
    { destruct E1 as [(R & _ & P)|(k & Hk & R & _)].
      - intros Hp. apply K, I2, P, Hp.
      - intros _. rewrite R. apply (clock_of k). apply I0, Hk. }
    destruct E2 as [A'|(P & k & Hk & A')].
    + rewrite A'. intros Hp. apply K, I3, Hp.
    + intros _. apply K, I2, P.
  - split; [intros H1 H2; apply A, I4; assumption|].
    split; [intros H; apply A, I5, H|].
    split; assumption.
Qed.

Ltac dist_case I4 I5 I6 I7 :=
  cbn [previous_time t dist_fresh dist_copied];
  split;
  [ intros N Hp; first [ exact Hp | apply I4; [discriminate | exact Hp] ]
  | split;
    [ intros [H|H];
      [ first [ discriminate H | assumption | apply I5; left; reflexivity ]
      | first [ apply I5; right; exact H | apply I5; left; reflexivity ] ]
    | split;
      [ intros H; first [ discriminate H | assumption | apply I6; reflexivity ]
      | first [ exact I7
              | apply Forall_app; split; [exact I7|];
                constructor; [apply I6; reflexivity | constructor] ] ] ] ].

Lemma dist_step_inv (v : VAP) (pc : dist_pc) (l : dist_locals sample prob)
    (out : list (sending sample prob))
    (answers : Registry.conn_id -> Registry.sock) (lst : list Registry.conn_id) :
  (result_last_time v = (-1)%Z \/ stamped (result_last_time v)) ->
  (process_time_abs v <> (-1)%Z -> result_last_time v <> (-1)%Z) ->
  inv_dist v pc l out ->
  match dist_step conv_vapresult_2_bytearray_bc answers pc l v lst with
  | (pc', l', _, Some b) => inv_dist v pc' l' (out ++ [b])
  | (pc', l', _, None) => inv_dist v pc' l' out
  end.
Proof.
  intros I1 I3 (I4 & I5 & I6 & I7). unfold inv_dist.
  destruct pc; cbn [dist_step].
  - dist_case I4 I5 I6 I7.
  - destruct (previous_time l =? process_time_abs v)%Z eqn:T.
    + dist_case I4 I5 I6 I7.
    + assert (F : process_time_abs v <> (-1)%Z).
      { apply Z.eqb_neq in T. intros Ha. apply T. rewrite Ha.
        destruct (Z.eq_dec (previous_time l) (-1)) as [Hp|Hp]; [exact Hp|].
        exfalso. apply (I4 ltac:(discriminate) Hp). exact Ha. }
      dist_case I4 I5 I6 I7.
  - dist_case I4 I5 I6 I7.
  - assert (F : stamped (result_last_time v)).
    { destruct I1 as [I1|I1]; [|exact I1].
      exfalso. apply I3; [|exact I1]. apply I5. left. reflexivity. }
    dist_case I4 I5 I6 I7.
  - dist_case I4 I5 I6 I7.
  - dist_case I4 I5 I6 I7.
  - dist_case I4 I5 I6 I7.
  - dist_case I4 I5 I6 I7.
  - destruct (encode_frame _) as [bytes|]; [|dist_case I4 I5 I6 I7].
    destruct (Registry.broadcast answers lst) as [o|]; [|dist_case I4 I5 I6 I7].
    destruct (Registry.ending o); dist_case I4 I5 I6 I7.
  - dist_case I4 I5 I6 I7.
Qed.

Lemma inv_sentinel_step (th : thread) (s : system') :
  inv_sentinel s -> inv_sentinel (sys_step' th s).
Proof.
  intros [Is Id]. destruct th as [| |c]; unfold sys_step, inv_sentinel.
  - destruct (ingest_step_inv Is Id) as [Is' Id'].
    destruct (ingest_step' (ingest_t s) (shared s)) as [w' v'].
    cbn [fst snd shared ingest_t dist_at dist_vars sent] in *. split; assumption.
  - pose proof (@dist_step_inv _ _ _ _ (socks (length (sent s))) (list_socket_out s)
                  (proj1 (proj2 Is)) (proj2 (proj2 (proj2 Is))) Id) as D.
    destruct (dist_step conv_vapresult_2_bytearray_bc (socks (length (sent s)))
                (dist_at s) (dist_vars s) (shared s) (list_socket_out s))
      as [[[pc' l'] lst'] [b|]];
      cbn [shared ingest_t dist_at dist_vars sent]; split; assumption.
  - cbn [shared ingest_t dist_at dist_vars sent]. split; assumption.
Qed.

Lemma inv_sentinel_run (sched : list thread) :
  forall s : system', inv_sentinel s -> inv_sentinel (run' sched s).
Proof.
  induction sched as [|th sched IH]; intros s H; [exact H|].
  apply IH, inv_sentinel_step, H.
Qed.

End NoSentinel.

(** Whatever the calls of the ingest thread, whoever connects, and
    however the threads are interleaved, from the start of the program
    (the object new, its two times at -1): provided the clock is never negative, every
    frame the distributor hands to the connections carries a time that
    line 312 of one of the calls wrote, never the sentinel -1 of the
    constructor; and as long as no call has run to its end
    ([process_time_abs] still -1) nothing has been broadcast. *)
Theorem no_broadcast_before_result (cs : list (call sample)) (sched : list thread) :
  Forall clock_ok cs ->
  let s := run' sched (boot' cs) in
  Forall (fun b => r_t (snapshot b) <> (-1)%Z /\
                   In (r_t (snapshot b)) (map result_time cs)) (sent s) /\
  (sent s = [] \/
   (process_time_abs (shared s) <> (-1)%Z /\ result_last_time (shared s) <> (-1)%Z)).
Proof.
  intros Hc s.
  destruct (@inv_sentinel_run cs Hc sched (boot' cs) (inv_sentinel_boot cs))
    as [(_ & _ & _ & I3) (_ & I5 & _ & I7)].
  fold s in I3, I5, I7. split; [exact I7|].
  destruct (sent s) as [|b out] eqn:E; [left; reflexivity|].
  right. assert (P : process_time_abs (shared s) <> (-1)%Z).
  { apply I5. right. discriminate. }
  split; [exact P | apply I3, P].
Qed.

(** *** The times sent never go back *)

Lemma sorted_snoc (l : list Z) (x : Z) :
  StronglySorted Z.le l -> Forall (fun y => (y <= x)%Z) l ->
  StronglySorted Z.le (l ++ [x]).
Proof.
  induction l as [|a l IH]; intros S F; cbn [app].
  - constructor; constructor.
  - inversion S as [|a' l' S' Fa]; subst. inversion F as [|a' l' Ha Fl]; subst.
    constructor; [apply IH; assumption|].
    apply Forall_app. split; [exact Fa|]. constructor; [exact Ha | constructor].
Qed.

Lemma sorted_drop_second (a b : Z) (l : list Z) :
  StronglySorted Z.le (a :: b :: l) -> StronglySorted Z.le (a :: l).
Proof.
  intros S. inversion S as [|a' l' S' Fa]; subst.
  inversion S' as [|b' l' S'' Fb]; subst. inversion Fa; subst.
  constructor; assumption.
Qed.

Lemma Forall_le_trans (l : list Z) (x y : Z) :
  (x <= y)%Z -> Forall (fun z => (z <= x)%Z) l -> Forall (fun z => (z <= y)%Z) l.
Proof.
  intros H F. eapply Forall_impl; [|exact F]. cbn beta. intros; lia.
Qed.

Definition times_of (out : list (sending sample prob)) : list Z :=
  map (fun b => r_t (snapshot b)) out.

Definition inv_mono (w : ingest_thread') (v : VAP) (pc : dist_pc)
    (l : dist_locals sample prob) (out : list (sending sample prob)) : Prop :=
  StronglySorted Z.le (result_last_time v :: future_times w) /\
  StronglySorted Z.le (times_of out) /\
  Forall (fun x => (x <= result_last_time v)%Z) (times_of out) /\
  (dist_copied pc = true ->
   (t l <= result_last_time v)%Z /\ Forall (fun x => (x <= t l)%Z) (times_of out)).

Lemma ingest_step_mono (w : ingest_thread') (v : VAP) (pc : dist_pc)
    (l : dist_locals sample prob) (out : list (sending sample prob)) :
  inv_mono w v pc l out ->
  inv_mono (fst (ingest_step' w v)) (snd (ingest_step' w v)) pc l out.
Proof.
  intros (M1 & M2 & M3 & M4).
  pose proof (ingest_step_effect w v) as (_ & E1 & _).
  destruct (ingest_step' w v) as [w' v']. cbn [fst snd] in *. unfold inv_mono.
  destruct E1 as [(R & [F|(x & F)] & _)|(k & _ & R & F)].
  - rewrite R, F. split; [exact M1|]. split; [exact M2|]. split; [exact M3 | exact M4].
  - rewrite R. rewrite F in M1. apply sorted_drop_second in M1.
    split; [exact M1|]. split; [exact M2|]. split; [exact M3 | exact M4].
  - rewrite F in M1. inversion M1 as [|a l' S' Fa]; subst.
    inversion Fa as [|a l' Hle _]; subst. rewrite R.
    split; [exact S'|]. split; [exact M2|].
    split; [eapply Forall_le_trans; eassumption|].
    intros Hc. destruct (M4 Hc) as [T1 T2]. split; [lia | exact T2].
Qed.

Ltac mono_case M1 M2 M3 M4 :=
  cbn [t dist_copied];
  split; [exact M1|];
  first
    [ split; [exact M2|]; split; [exact M3|];
      intros H; first [ discriminate H | apply M4; reflexivity
                      | split; [lia | exact M3] ]
    | destruct (M4 eq_refl) as [T1 T2];
      unfold times_of; rewrite map_app; cbn [map snapshot r_t];
      split; [apply sorted_snoc; assumption|];
      split; [apply Forall_app; split; [exact M3 | constructor; [exact T1 | constructor]]|];
      intros H; discriminate H ].

Lemma dist_step_mono (w : ingest_thread') (v : VAP) (pc : dist_pc)
    (l : dist_locals sample prob) (out : list (sending sample prob))
    (answers : Registry.conn_id -> Registry.sock) (lst : list Registry.conn_id) :
  inv_mono w v pc l out ->
  match dist_step conv_vapresult_2_bytearray_bc answers pc l v lst with
  | (pc', l', _, Some b) => inv_mono w v pc' l' (out ++ [b])
  | (pc', l', _, None) => inv_mono w v pc' l' out
  end.
Proof.
  intros (M1 & M2 & M3 & M4). unfold inv_mono.
  destruct pc; cbn [dist_step];
    try (destruct (previous_time l =? process_time_abs v)%Z);
    try (destruct (encode_frame _) as [bytes|];
         [destruct (Registry.broadcast answers lst) as [o|];
          [destruct (Registry.ending o)|]|]);
    mono_case M1 M2 M3 M4.
Qed.

Lemma inv_mono_run (sched : list thread) :
  forall s : system',
  inv_mono (ingest_t s) (shared s) (dist_at s) (dist_vars s) (sent s) ->
  inv_mono (ingest_t (run' sched s)) (shared (run' sched s)) (dist_at (run' sched s))
           (dist_vars (run' sched s)) (sent (run' sched s)).
Proof.
  induction sched as [|th sched IH]; intros s H; [exact H|].
  cbn [run fold_left]. apply IH. destruct th as [| |c]; unfold sys_step.
  - pose proof (ingest_step_mono H) as H'.
    destruct (ingest_step' (ingest_t s) (shared s)) as [w' v'].
    cbn [fst snd shared ingest_t dist_at dist_vars sent] in *. exact H'.
  - pose proof (@dist_step_mono _ _ _ _ _ (socks (length (sent s))) (list_socket_out s) H)
      as H'.
    destruct (dist_step conv_vapresult_2_bytearray_bc (socks (length (sent s)))
                (dist_at s) (dist_vars s) (shared s) (list_socket_out s))
      as [[[pc' l'] lst'] [b|]];
      cbn [shared ingest_t dist_at dist_vars sent]; exact H'.
  - cbn [shared ingest_t dist_at dist_vars sent]. exact H.
Qed.

(** C6 (as the code has it): whatever the calls, whoever connects, and
    however the threads are interleaved, provided the times that line 312 writes never
    go back (they are at least -1 and each call's is at least the one
    before), the distributor never sends a time older than one it has
    sent: the times of its broadcasts are in non-decreasing order. *)
Theorem sent_times_never_older (cs : list (call sample)) (sched : list thread) :
  StronglySorted Z.le ((-1)%Z :: map result_time cs) ->
  StronglySorted Z.le (sent_times (run' sched (boot' cs))).
Proof.
  intros H.
  assert (B : inv_mono (ingest_t (boot' cs)) (shared (boot' cs)) (dist_at (boot' cs))
                (dist_vars (boot' cs)) (sent (boot' cs))).
  { unfold inv_mono, boot, future_times, times_of.
    cbn [shared ingest_t dist_at dist_vars sent running pending new_vap
         result_last_time dist_copied map].
    split; [exact H|]. split; [constructor|]. split; [constructor|]. discriminate. }
  apply (inv_mono_run sched) in B. destruct B as (_ & S & _). exact S.
Qed.

End Threads.

(** *** Two calls and a distributor that is overtaken *)

Definition call_at (t0 : Z) : call nat :=
  (ClockReads t0 (t0 + 1) (t0 + 2) (t0 + 3), ([], [])).

Definition calls6 : list (call nat) := [call_at 9; call_at 19].

(** Two consumers connect and the distributor starts; the first call runs
    to its end; the distributor sees the change and latches
    [process_time_abs] (lines 414 and 418); the second call runs to its
    end; the distributor copies the result (lines 420-424), broadcasts,
    sees the change again and broadcasts again. *)
Definition sched6 : list thread :=
  [TAccept 1; TAccept 2; TDist] ++ repeat TIngest 17 ++ [TDist; TDist]
  ++ repeat TIngest 17 ++ repeat TDist 6 ++ repeat TDist 8.

(** Every connection answers, every time. *)
Definition socks6 (n : nat) (c : Registry.conn_id) : Registry.sock :=
  Registry.Sock 5 false false.

Definition run6 : system nat nat nat :=
  run (fun _ _ => Some (0, 0)) (fun _ _ => Some (0, 0)) (fun _ => []) socks6
      sched6 (boot nat 0 calls6).

(** C6 (as the specification has it) fails: with a clock that only goes
    forward (the results are stamped 10 and 20), the distributor sends the
    time 20 twice, to both consumers: the second call published between
    the distributor's line 418 and its line 420. *)
Lemma same_time_sent_twice :
  map (@result_time nat) calls6 = [10; 20]%Z /\
  sent_times run6 = [20; 20]%Z /\
  map (@receivers nat nat) (sent run6) = [[1; 2]; [1; 2]].
Proof. split; [|split]; vm_compute; reflexivity. Qed.

Lemma sent_times_never_older_witness :
  StronglySorted Z.le ((-1)%Z :: map (@result_time nat) calls6) /\
  StronglySorted Z.le (sent_times run6).
Proof.
  assert (H : StronglySorted Z.le ((-1)%Z :: map (@result_time nat) calls6)).
  { repeat constructor; cbn; lia. }
  split; [exact H|].
  exact (@sent_times_never_older nat nat nat 0 (fun _ _ => Some (0, 0))
           (fun _ _ => Some (0, 0)) (fun _ => []) socks6 calls6 sched6 H).
Defined.

Lemma no_broadcast_before_result_witness :
  Forall (@clock_ok nat) calls6 /\
  Forall (fun b => r_t (snapshot b) <> (-1)%Z) (sent run6).
Proof.
  assert (H : Forall (@clock_ok nat) calls6).
  { repeat constructor; cbn; lia. }
  split; [exact H|].
  pose proof (proj1 (@no_broadcast_before_result nat nat nat 0 (fun _ _ => Some (0, 0))
                       (fun _ _ => Some (0, 0)) (fun _ => []) socks6 calls6 sched6 H)) as F.
  eapply Forall_impl; [|exact F]. cbn beta. intros b [N _]. exact N.
Defined.

End DistributorFacts.

(** * Part III: further properties of the same code *)

(** ** More on the broadcast *)

Module RegistryMore.
Import Registry RegistryFacts.

(** The broadcast as one pass over the registry it starts with: a
    connection with an invalid descriptor is kept and gets nothing; one
    whose [sendall] returns is kept and gets the frame; one whose [sendall]
    raises is removed, and then the connection registered right after it
    is kept and gets nothing (the iterator's index has moved past it); when
    [getpeername] raises in the handler the pass stops there. *)
Definition keep (d : conn_id) (o : outcome) : outcome :=
  Outcome (ending o) (d :: registry o) (delivered o).

Definition keep_sent (d : conn_id) (o : outcome) : outcome :=
  Outcome (ending o) (d :: registry o) (d :: delivered o).

Fixpoint sweep (socks : conn_id -> sock) (lst : list conn_id) : outcome :=
  match lst with
  | [] => Outcome Completed [] []
  | c :: rest =>
      if invalid socks c then keep c (sweep socks rest)
      else if delivers socks c then keep_sent c (sweep socks rest)
      else if getpeername_raises (socks c) then Outcome Died (c :: rest) []
      else match rest with
           | [] => Outcome Completed [] []
           | n :: rest' => keep n (sweep socks rest')
           end
  end.

(** The pass, after the connections [pre] were kept and [sent] were sent to. *)
Definition after (pre sent : list conn_id) (o : outcome) : outcome :=
  Outcome (ending o) (pre ++ registry o) (sent ++ delivered o).

Section Broadcast.

Variable socks : conn_id -> sock.

Local Notation "'fails''" := (fails socks).
Local Notation "'delivers''" := (delivers socks).
Local Notation "'invalid''" := (invalid socks).

Lemma remove_NoDup (c : conn_id) (lst : list conn_id) :
  NoDup lst -> NoDup (Py.remove Nat.eqb c lst).
Proof.
  induction lst as [|y lst IH]; cbn [Py.remove]; intros H; [exact H|].
  inversion H as [|y' lst' Hy Hl]; subst.
  destruct (Nat.eqb c y); [exact Hl|].
  constructor; [|apply IH; exact Hl].
  intros Hin. apply Hy. clear - Hin.
  induction lst as [|z lst IHl]; cbn [Py.remove] in Hin; [exact Hin|].
  destruct (Nat.eqb c z); [right; exact Hin|].
  destruct Hin as [->|Hin]; [left; reflexivity | right; auto].
Qed.

Lemma NoDup_snoc (l : list conn_id) (c : conn_id) :
  NoDup l -> ~ In c l -> NoDup (l ++ [c]).
Proof.
  induction l as [|y l IH]; cbn [app]; intros H N.
  - constructor; [intros []|constructor].
  - inversion H as [|y' l' Hy Hl]; subst. constructor.
    + intros Hin. apply in_app_or in Hin. destruct Hin as [Hin|[->|[]]].
      * exact (Hy Hin).
      * apply N. left. reflexivity.
    + apply IH; [exact Hl|]. intros Hin. apply N. right. exact Hin.
Qed.

(** The iterator has passed the connections sent to: they sit before its
    index, so none is met again. *)
Lemma for_conn_distinct (fuel : nat) :
  forall (i : nat) (lst sent : list conn_id) (o : outcome),
  NoDup lst -> NoDup sent -> incl sent (firstn i lst) ->
  for_conn socks fuel i lst sent = Some o ->
  NoDup (registry o) /\ NoDup (delivered o).
Proof.
  induction fuel as [|fuel IH]; intros i lst sent o Hl Hs Hi H; [discriminate|].
  cbn [for_conn] in H. destruct (nth_error lst i) as [c|] eqn:E.
  - destruct (nth_error_split lst i E) as (l1 & l2 & -> & L1).
    assert (F1 : firstn i (l1 ++ c :: l2) = l1).
    { rewrite firstn_app, <- L1, Nat.sub_diag, firstn_all. cbn [firstn].
      apply app_nil_r. }
    assert (FS : forall l, firstn (S i) (l1 ++ l) = l1 ++ firstn 1 l).
    { intros l. rewrite firstn_app, <- L1, firstn_all2 by lia.
      replace (S (length l1) - length l1) with 1 by lia. reflexivity. }
    assert (Nc : ~ In c l1).
    { apply NoDup_remove_2 in Hl. intros Hin. apply Hl, in_or_app. left. exact Hin. }
    rewrite F1 in Hi.
    assert (Next : incl sent (firstn (S i) (l1 ++ c :: l2))).
    { rewrite FS. intros d Hd. apply in_or_app. left. apply Hi, Hd. }
    destruct (fileno (socks c) =? -1)%Z; [apply (IH _ _ _ _ Hl Hs Next H)|].
    destruct (negb (sendall_raises (socks c))).
    + apply (IH (S i) (l1 ++ c :: l2) (sent ++ [c]) o Hl); [| |exact H].
      * apply NoDup_snoc; [exact Hs|]. intros Hin. apply Nc, Hi, Hin.
      * rewrite FS. cbn [firstn]. intros d Hd. apply in_app_or in Hd.
        apply in_or_app. destruct Hd as [Hd|Hd]; [left; apply Hi, Hd | right; exact Hd].
    + destruct (getpeername_raises (socks c)).
      * injection H as <-. cbn [registry delivered]. split; assumption.
      * rewrite remove_middle in H by exact Nc.
        apply (IH (S i) (l1 ++ l2) sent o); [| exact Hs | | exact H].
        -- apply NoDup_remove_1 in Hl. exact Hl.
        -- rewrite FS. intros d Hd. apply in_or_app. left. apply Hi, Hd.
  - injection H as <-. cbn [registry delivered]. split; assumption.
Qed.

(** The loop from index [length pre] is the pass over what lies from there
    on. *)
Lemma for_conn_sweep (fuel : nat) :
  forall (pre lst sent : list conn_id),
  NoDup (pre ++ lst) -> length lst < fuel ->
  for_conn socks fuel (length pre) (pre ++ lst) sent
  = Some (after pre sent (sweep socks lst)).
Proof.
  induction fuel as [|fuel IH]; intros pre lst sent Hn Hf; [lia|].
  assert (Shift : forall (d : conn_id) (l : list conn_id),
            pre ++ d :: l = (pre ++ [d]) ++ l /\ S (length pre) = length (pre ++ [d])).
  { intros d l. rewrite <- app_assoc, length_app. cbn [length app]. split; [reflexivity | lia]. }
  cbn [for_conn]. destruct lst as [|c rest].
  - rewrite app_nil_r.
    replace (nth_error pre (length pre)) with (@None conn_id)
      by (symmetry; apply nth_error_None; lia).
    unfold after. cbn [sweep ending registry delivered]. rewrite !app_nil_r. reflexivity.
  - rewrite nth_error_app2 by lia. rewrite Nat.sub_diag. cbn [nth_error sweep].
    cbn [length] in Hf.
    assert (Nc : ~ In c pre).
    { apply NoDup_remove_2 in Hn. intros Hin. apply Hn, in_or_app. left. exact Hin. }
    unfold delivers, invalid.
    destruct (fileno (socks c) =? -1)%Z; cbn [negb andb].
    + destruct (Shift c rest) as [-> ->]. rewrite IH.
      * unfold after, keep. cbn [ending registry delivered].
        rewrite <- app_assoc. reflexivity.
      * rewrite <- app_assoc. exact Hn.
      * lia.
    + destruct (sendall_raises (socks c)); cbn [negb].
      * destruct (getpeername_raises (socks c)).
        { unfold after. cbn [ending registry delivered]. rewrite app_nil_r. reflexivity. }
        rewrite remove_middle by exact Nc.
        apply NoDup_remove_1 in Hn.
        destruct rest as [|n rest'].
        -- destruct fuel as [|fuel]; [cbn [length] in Hf; lia|].
           rewrite for_conn_end by (rewrite app_nil_r; lia).
           unfold after. cbn [ending registry delivered]. rewrite !app_nil_r. reflexivity.
        -- destruct (Shift n rest') as [-> ->]. rewrite IH.
           ++ unfold after, keep. cbn [ending registry delivered].
              rewrite <- app_assoc. reflexivity.
           ++ rewrite <- app_assoc. exact Hn.
           ++ cbn [length] in Hf. lia.
      * destruct (Shift c rest) as [-> ->]. rewrite IH.
        -- unfold after, keep_sent. cbn [ending registry delivered].
           rewrite <- !app_assoc. reflexivity.
        -- rewrite <- app_assoc. exact Hn.
        -- lia.
Qed.

(** X2: a broadcast ends on every registry, however the connections
    answer, although it removes from the list it walks; it adds no
    connection, it removes none but those whose send raised (so a consumer
    whose sends succeed, and one whose descriptor is invalid, are never
    dropped), and it counts as delivered only registered connections with a
    valid descriptor on which [sendall] returned. *)
Theorem broadcast_sound (lst : list conn_id) :
  exists o,
    broadcast socks lst = Some o /\
    (forall d, In d (registry o) -> In d lst) /\
    (forall d, In d lst -> fails' d = false -> In d (registry o)) /\
    (forall d, In d (delivered o) -> In d lst /\ delivers' d = true).
Proof.
  destruct (@for_conn_total socks (S (length lst)) 0 lst []) as [o E]; [lia|].
  exists o. split; [exact E|].
  destruct (@for_conn_sound socks _ _ _ _ o E) as (A & B & C).
  split; [exact B|]. split; [exact A|].
  intros d Hd. destruct (C d Hd) as [[]|H]. exact H.
Qed.

(** X3: over a registry of distinct connections the broadcast is the one
    pass [sweep]: in registration order, each connection with a valid
    descriptor is sent the frame; a connection whose send raises is
    removed, and the connection registered right after it is passed over
    in this broadcast, untried: it gets no frame and, if it is dead too, it
    is not removed. *)
Theorem broadcast_is_sweep (lst : list conn_id) :
  NoDup lst -> broadcast socks lst = Some (sweep socks lst).
Proof.
  intros H. unfold broadcast.
  pose proof (@for_conn_sweep (S (length lst)) [] lst [] H ltac:(lia)) as E.
  cbn [app length] in E. rewrite E.
  unfold after. destruct (sweep socks lst). reflexivity.
Qed.

(** X4: when the send to exactly one connection [c] raises, and another
    connection [n] was registered right after it, [c] is removed and [n],
    although it works and stays registered, gets no frame in this
    broadcast; every other connection with a valid descriptor gets it. *)
Theorem broadcast_skips_next (before rest : list conn_id) (c n : conn_id) :
  NoDup (before ++ c :: n :: rest) ->
  fails' c = true -> getpeername_raises (socks c) = false ->
  Forall (fun d => fails' d = false) (before ++ n :: rest) ->
  broadcast socks (before ++ c :: n :: rest)
    = Some (Outcome Completed (before ++ n :: rest)
              (filter delivers' before ++ filter delivers' rest)) /\
  ~ In n (filter delivers' before ++ filter delivers' rest).
Proof.
  intros Hn Hc Hg Hok. apply Forall_app in Hok. destruct Hok as [Hb Hr].
  inversion Hr as [|n' rest' _ Hrest]; subst. split.
  - unfold broadcast.
    replace (S (length (before ++ c :: n :: rest)))
      with (length before + S (S (S (length rest))))
      by (rewrite length_app; cbn [length]; lia).
    pose proof (@for_conn_walk socks before [] (c :: n :: rest) []
                  (S (S (S (length rest)))) Hb) as W.
    cbn [app length Nat.add] in W. rewrite W. clear W.
    rewrite (@for_conn_fail socks (S (S (length rest))) (length before)
               (before ++ c :: n :: rest) (filter delivers' before) c); auto.
    2:{ rewrite nth_error_app2 by lia. rewrite Nat.sub_diag. reflexivity. }
    rewrite remove_middle.
    2:{ intros Hin. apply NoDup_remove_2 in Hn. apply Hn, in_or_app. left. exact Hin. }
    pose proof (@for_conn_walk socks rest (before ++ [n]) [] (filter delivers' before)
                  2 Hrest) as W.
    rewrite app_nil_r, <- app_assoc in W. cbn [app] in W.
    rewrite length_app in W. cbn [length] in W.
    replace (length before + 1) with (S (length before)) in W by lia.
    replace (S (S (length rest))) with (length rest + 2) by lia.
    rewrite W. apply for_conn_end. rewrite length_app. cbn [length]. lia.
  - apply NoDup_remove_1, NoDup_remove_2 in Hn. intros Hin. apply Hn.
    apply in_app_or in Hin. apply in_or_app.
    destruct Hin as [Hin|Hin]; apply filter_In in Hin; destruct Hin as [Hin _];
      [left | right]; exact Hin.
Qed.

End Broadcast.

(** *** Four consumers *)

Ltac distinct := repeat (constructor; [cbn [In]; intuition discriminate|]); constructor.

Lemma broadcast_is_sweep_witness :
  NoDup [1; 2; 3] /\
  broadcast (socks_failing 1) [1; 2; 3] = Some (sweep (socks_failing 1) [1; 2; 3]) /\
  sweep (socks_failing 1) [1; 2; 3] = Outcome Completed [2; 3] [3].
Proof.
  assert (H : NoDup [1; 2; 3]) by distinct.
  split; [exact H|]. split; [|reflexivity].
  exact (@broadcast_is_sweep (socks_failing 1) [1; 2; 3] H).
Defined.

Lemma broadcast_skips_next_witness :
  NoDup [1; 2; 3; 4] /\
  fails (socks_failing 2) 2 = true /\
  broadcast (socks_failing 2) [1; 2; 3; 4] = Some (Outcome Completed [1; 3; 4] [1; 4]).
Proof.
  assert (H : NoDup ([1] ++ 2 :: 3 :: [4])) by distinct.
  assert (F : fails (socks_failing 2) 2 = true) by reflexivity.
  assert (G : getpeername_raises (socks_failing 2 2) = false) by reflexivity.
  assert (O : Forall (fun d => fails (socks_failing 2) d = false) ([1] ++ 3 :: [4])).
  { repeat (constructor; [reflexivity|]). constructor. }
  split; [exact H|]. split; [exact F|].
  exact (proj1 (@broadcast_skips_next (socks_failing 2) [1] [4] 2 3 H F G O)).
Defined.

End RegistryMore.

(** ** More on the distributor, the acceptor and the ingest thread *)

Module DistributorMore.
Import Registry RegistryFacts DistributorFacts.

(** The connections a schedule accepts, in order. *)
Definition accepted (sched : list thread) : list conn_id :=
  flat_map (fun th => match th with TAccept c => [c] | _ => [] end) sched.

Section Threads.

Variable sample : Type.
Variable embedding : Type.
Variable prob : Type.
Variable prob_zero : prob.
Variable encode_audio : list sample -> list sample -> option (embedding * embedding).
Variable infer : list embedding -> list embedding -> option (prob * prob).
Variable conv_vapresult_2_bytearray_bc : vap_result sample prob -> list byte.
Variable socks : nat -> conn_id -> sock.

Local Notation "'VAP'" := (VAPRealTime sample embedding prob).
Local Notation "'system''" := (system sample embedding prob).
Local Notation "'ingest_thread''" := (ingest_thread sample embedding prob).
Local Notation "'ingest_step''" := (ingest_step encode_audio infer).
Local Notation "'dist_step''" := (dist_step conv_vapresult_2_bytearray_bc).
Local Notation "'sys_step''" :=
  (sys_step encode_audio infer conv_vapresult_2_bytearray_bc socks).
Local Notation "'run''" := (run encode_audio infer conv_vapresult_2_bytearray_bc socks).
Local Notation "'boot''" := (boot embedding prob_zero).

(** The calls that have yet to reach line 324. *)
Definition unfinished (w : ingest_thread') : nat :=
  match running w with
  | Some (_, pc) =>
      match pc with L_return _ _ | L_raise _ _ => 0 | _ => 1 end + length (pending w)
  | None => length (pending w)
  end.

(** The broadcasts the distributor owes: the one it is in, and the one a
    change of [process_time_abs] it has not yet seen will set off. *)
Definition owed (pc : dist_pc) (l : dist_locals sample prob) (v : VAP) : nat :=
  let changed := if (previous_time l =? process_time_abs v)%Z then 0 else 1 in
  match pc with
  | D410 | D_dead => 0
  | D414 => changed
  | D418 => 1
  | _ => 1 + changed
  end.

(** The thread scheduled executes line 324 in this step. *)
Definition at_324 (w : ingest_thread') : nat :=
  match running w with
  | Some (_, L324 _ _) => 1
  | _ => 0
  end.

Definition completes (th : thread) (s : system') : nat :=
  match th with
  | TIngest => at_324 (ingest_t s)
  | _ => 0
  end.

(** The executions of line 324 in a run. *)
Fixpoint completions (sched : list thread) (s : system') : nat :=
  match sched with
  | [] => 0
  | th :: sched' =>
      completes th s
      + completions sched'
          (sys_step encode_audio infer conv_vapresult_2_bytearray_bc socks th s)
  end.

Lemma run_app (sched1 sched2 : list thread) (s : system') :
  run' (sched1 ++ sched2) s = run' sched2 (run' sched1 s).
Proof. unfold run. apply fold_left_app. Qed.

Lemma run_cons (th : thread) (sched : list thread) (s : system') :
  run' (th :: sched) s = run' sched (sys_step' th s).
Proof. reflexivity. Qed.

(** What a statement of the distributor does to the list and the output:
    nothing, or one broadcast. *)
Lemma dist_step_broadcast (answers : conn_id -> sock) (pc : dist_pc)
    (l : dist_locals sample prob) (v : VAP) (lst : list conn_id) :
  (exists pc', exists l', dist_step' answers pc l v lst = (pc', l', lst, None)) \/
  (pc = D426 /\
   exists o bytes,
     broadcast answers lst = Some o /\
     encode_frame (conv_vapresult_2_bytearray_bc
                     (VapResult (t l) (x1 l) (x2 l) (p_bc_react l) (p_bc_emo l)))
       = Some bytes /\
     dist_step' answers pc l v lst
     = (match ending o with Completed => D414 | Died => D_dead end, l, registry o,
        Some (Sending (VapResult (t l) (x1 l) (x2 l) (p_bc_react l) (p_bc_emo l))
                      bytes (delivered o)))).
Proof.
  destruct pc; cbn [dist_step]; try (left; eexists; eexists; reflexivity).
  - destruct (previous_time l =? process_time_abs v)%Z; left; eexists; eexists; reflexivity.
  - destruct (encode_frame _) as [bytes|] eqn:F; [|left; eexists; eexists; reflexivity].
    destruct (broadcast answers lst) as [o|] eqn:B; [|left; eexists; eexists; reflexivity].
    right. split; [reflexivity|]. exists o, bytes. split; [reflexivity|].
    split; reflexivity.
Qed.

Lemma ingest_step_owed (w : ingest_thread') (v : VAP) (pc : dist_pc)
    (l : dist_locals sample prob) :
  owed pc l (snd (ingest_step' w v)) <= owed pc l v + at_324 w /\
  unfinished (fst (ingest_step' w v)) + at_324 w <= unfinished w.
Proof.
  destruct w as [[[[c [w1 w2]] pc0]|] pend]; unfold ingest_step, at_324;
    cbn [running pending].
  - pose proof (vap_step_process_time_abs encode_audio infer c w1 w2 pc0 v) as A.
    destruct (vap_step encode_audio infer c w1 w2 pc0 v) as [pc0' v'] eqn:E.
    cbn [snd] in A.
    assert (Same : process_time_abs v' = process_time_abs v ->
                   owed pc l v' <= owed pc l v + 0 /\
                   unfinished (IngestThread (Some ((c, (w1, w2)), pc0')) pend) + 0
                   <= S (length pend)).
    { intros R. unfold owed, unfinished. cbn [running pending]. rewrite R.
      destruct pc0'; lia. }
    destruct pc0; cbn [fst snd unfinished running pending Nat.add];
      try (apply Same; exact A); try lia.
    cbn [vap_step] in E. injection E as <- <-.
    unfold owed. cbn [unfinished running pending Nat.add].
    cbn [process_time_abs set_process_time_abs].
    destruct pc;
      repeat match goal with
             | |- context [(?a =? ?b)%Z] => destruct (a =? b)%Z
             end; lia.
  - destruct pend as [|k ks]; cbn [fst snd unfinished running pending length]; lia.
Qed.

Lemma dist_step_owed (answers : conn_id -> sock) (pc : dist_pc)
    (l : dist_locals sample prob) (v : VAP) (lst : list conn_id) :
  match dist_step' answers pc l v lst with
  | (pc', l', _, Some _) => S (owed pc' l' v) <= owed pc l v
  | (pc', l', _, None) => owed pc' l' v <= owed pc l v
  end.
Proof.
  destruct pc; cbn [dist_step]; unfold owed; cbn [previous_time];
    try (destruct (previous_time l =? process_time_abs v)%Z eqn:T);
    try rewrite Z.eqb_refl; try rewrite T; try lia.
  - destruct (encode_frame _) as [bytes|]; [|lia].
    destruct (broadcast answers lst) as [o|]; [|lia].
    destruct (ending o); rewrite ?T; lia.
  - destruct (encode_frame _) as [bytes|]; [|lia].
    destruct (broadcast answers lst) as [o|]; [|lia].
    destruct (ending o); rewrite ?T; lia.
Qed.

Lemma owed_run (sched : list thread) :
  forall s : system',
  let s' := run' sched s in
  length (sent s') + owed (dist_at s') (dist_vars s') (shared s')
  <= length (sent s) + owed (dist_at s) (dist_vars s) (shared s) + completions sched s /\
  completions sched s + unfinished (ingest_t s') <= unfinished (ingest_t s).
Proof.
  induction sched as [|th sched IH]; intros s; cbn zeta.
  - cbn [run fold_left completions]. lia.
  - rewrite run_cons. cbn [completions].
    fold (sys_step' th s). specialize (IH (sys_step' th s)). cbn zeta in IH.
    destruct IH as [I1 I2].
    assert (Step : length (sent (sys_step' th s))
                   + owed (dist_at (sys_step' th s)) (dist_vars (sys_step' th s))
                          (shared (sys_step' th s))
                   <= length (sent s) + owed (dist_at s) (dist_vars s) (shared s)
                      + completes th s /\
                   unfinished (ingest_t (sys_step' th s)) + completes th s
                   <= unfinished (ingest_t s)).
    { destruct th as [| |c]; unfold sys_step, completes.
      - pose proof (ingest_step_owed (ingest_t s) (shared s) (dist_at s) (dist_vars s)) as O.
        destruct (ingest_step' (ingest_t s) (shared s)) as [w' v'].
        cbn [fst snd shared ingest_t dist_at dist_vars sent] in *. lia.
      - pose proof (dist_step_owed (socks (length (sent s))) (dist_at s) (dist_vars s)
                      (shared s) (list_socket_out s)) as O.
        destruct (dist_step' (socks (length (sent s))) (dist_at s) (dist_vars s)
                    (shared s) (list_socket_out s)) as [[[pc' l'] lst'] [b|]];
          cbn [shared ingest_t dist_at dist_vars sent]; rewrite ?length_app;
          cbn [length]; lia.
      - cbn [shared ingest_t dist_at dist_vars sent]. lia. }
    lia.
Qed.

(** X5: however the threads are interleaved and whoever connects, the
    distributor makes at most one broadcast for each execution of the last
    line of [process_vap] (line 324, the write of [process_time_abs]):
    without a new result nothing is sent, a call that raised sets off no
    broadcast, and over a whole run there are never more broadcasts than
    windows handed to [process_vap]. *)
Theorem one_broadcast_per_result (cs : list (call sample)) (sched : list thread) :
  let s := run' sched (boot' cs) in
  length (sent s) <= completions sched (boot' cs) /\
  completions sched (boot' cs) + unfinished (ingest_t s) <= length cs.
Proof.
  destruct (owed_run sched (boot' cs)) as [H1 H2]. cbn zeta.
  assert (B1 : owed (dist_at (boot' cs)) (dist_vars (boot' cs)) (shared (boot' cs)) = 0)
    by reflexivity.
  assert (B2 : length (sent (boot' cs)) = 0) by reflexivity.
  assert (B3 : unfinished (ingest_t (boot' cs)) = length cs) by reflexivity.
  rewrite B1, B2 in H1. rewrite B3 in H2. split; lia.
Qed.

(** *** The times the frames carry *)

(** The time line 312 writes, when the thread scheduled executes that line
    in this step. *)
Definition stamp (th : thread) (s : system') : list Z :=
  match th with
  | TIngest =>
      match running (ingest_t s) with
      | Some (k, L312 _ _) => [result_time k]
      | _ => []
      end
  | _ => []
  end.

(** The times line 312 has written in a run, in order. *)
Fixpoint written (sched : list thread) (s : system') : list Z :=
  match sched with
  | [] => []
  | th :: sched' =>
      stamp th s
      ++ written sched'
           (sys_step encode_audio infer conv_vapresult_2_bytearray_bc socks th s)
  end.

(** The constructor's -1, or a time line 312 has written. *)
Definition from_312 (W : list Z) (x : Z) : Prop := x = (-1)%Z \/ In x W.

Definition inv_written (W : list Z) (s : system') : Prop :=
  from_312 W (result_last_time (shared s)) /\
  (dist_copied (dist_at s) = true -> from_312 W (t (dist_vars s))) /\
  Forall (fun b => from_312 W (r_t (snapshot b))) (sent s).

Lemma from_312_more (W W' : list Z) (x : Z) :
  from_312 W x -> from_312 (W ++ W') x.
Proof.
  intros [H|H]; [left; exact H | right; apply in_or_app; left; exact H].
Qed.

Lemma ingest_step_written (w : ingest_thread') (v : VAP) :
  result_last_time (snd (ingest_step' w v)) = result_last_time v \/
  exists k, (exists c, running w = Some (k, c) /\ c = L312 _ _) /\
            result_last_time (snd (ingest_step' w v)) = result_time k.
Proof.
  destruct w as [[[[c [w1 w2]] pc0]|] pend]; unfold ingest_step; cbn [running pending].
  - pose proof (vap_step_result_last_time encode_audio infer c w1 w2 pc0 v) as R.
    destruct (vap_step encode_audio infer c w1 w2 pc0 v) as [pc' v'] eqn:E.
    cbn [snd] in R.
    destruct pc0; cbn [snd]; try (left; exact R); try (left; reflexivity).
    right. exists (c, (w1, w2)). split; [|exact R].
    eexists. split; reflexivity.
  - destruct pend; left; reflexivity.
Qed.

Lemma inv_written_step (th : thread) (s : system') (W : list Z) :
  inv_written W s -> inv_written (W ++ stamp th s) (sys_step' th s).
Proof.
  intros (I1 & I2 & I3).
  assert (More : Forall (fun b => from_312 (W ++ stamp th s) (r_t (snapshot b))) (sent s)).
  { eapply Forall_impl; [|exact I3]. cbn beta. intros b. apply from_312_more. }
  destruct th as [| |c]; unfold sys_step.
  - pose proof (ingest_step_written (ingest_t s) (shared s)) as R.
    destruct (ingest_step' (ingest_t s) (shared s)) as [w' v']. cbn [snd] in R.
    unfold inv_written. cbn [shared dist_at dist_vars sent].
    split; [|split; [intros H; apply from_312_more, I2, H | exact More]].
    destruct R as [R|(k & (pc & Rk & Rp) & R)].
    + rewrite R. apply from_312_more, I1.
    + right. apply in_or_app. right. unfold stamp. rewrite Rk, Rp, R.
      left. reflexivity.
  - cbn [stamp] in *. rewrite app_nil_r in *.
    unfold inv_written.
    destruct (dist_at s) eqn:P; cbn [dist_step];
      try (destruct (previous_time (dist_vars s) =? process_time_abs (shared s))%Z);
      try (destruct (encode_frame _) as [bytes|];
           [destruct (broadcast (socks (length (sent s))) (list_socket_out s)) as [o|];
            [destruct (ending o)|]|]);
      cbn [shared dist_at dist_vars sent t dist_copied];
      (split; [exact I1|]);
      (split; [intros H; first [discriminate H | exact I1 | apply I2; reflexivity]|]);
      first [ exact I3
            | apply Forall_app; split; [exact I3|];
              constructor; [cbn [snapshot r_t]; apply I2; reflexivity | constructor] ].
  - cbn [stamp] in *. rewrite app_nil_r in *.
    unfold inv_written. cbn [shared dist_at dist_vars sent].
    split; [exact I1|]. split; [exact I2 | exact I3].
Qed.

Lemma inv_written_run (sched : list thread) :
  forall (s : system') (W : list Z),
  inv_written W s -> inv_written (W ++ written sched s) (run' sched s).
Proof.
  induction sched as [|th sched IH]; intros s W H.
  - cbn [written run fold_left]. rewrite app_nil_r. exact H.
  - rewrite run_cons. cbn [written]. rewrite app_assoc.
    apply IH, inv_written_step, H.
Qed.

(** C10 (as the code has it): whatever the calls of the ingest thread,
    whoever connects, and however the threads are interleaved, from the
    start of the program (the object new, its two times at -1), with a
    clock that is never negative: the distributor never broadcasts before
    the first inference step has completed, and never makes more
    broadcasts than steps have completed (executed their last line, 324);
    every frame it sends carries a time that line 312 of one of the calls
    has written in this run, after that call computed its result (the call
    has completed, or stands in its last lines 314-324); the sentinel -1
    of the constructor is never sent. *)
Theorem frames_carry_written_times (cs : list (call sample)) (sched : list thread) :
  Forall (@clock_ok sample) cs ->
  let s := run' sched (boot' cs) in
  Forall (fun b => r_t (snapshot b) <> (-1)%Z /\
                   In (r_t (snapshot b)) (written sched (boot' cs)) /\
                   In (r_t (snapshot b)) (map (@result_time sample) cs)) (sent s) /\
  length (sent s) <= completions sched (boot' cs) /\
  (completions sched (boot' cs) = 0 -> sent s = []) /\
  (sent s = [] \/
   (process_time_abs (shared s) <> (-1)%Z /\ result_last_time (shared s) <> (-1)%Z)) /\
  (forall b, sent (run' (sched ++ [TDist]) (boot' cs)) = sent s ++ [b] ->
     In (r_t (snapshot b)) (written sched (boot' cs))).
Proof.
  intros Hc s.
  destruct (@inv_sentinel_run _ _ _ encode_audio infer conv_vapresult_2_bytearray_bc socks
              cs Hc sched (boot' cs) (inv_sentinel_boot embedding prob_zero cs))
    as [(_ & _ & _ & I3) (_ & I5 & I6 & I7)].
  fold s in I3, I5, I6, I7.
  assert (B : inv_written [] (boot' cs)).
  { unfold inv_written, boot, from_312.
    cbn [shared dist_at dist_vars sent new_vap result_last_time dist_copied].
    split; [left; reflexivity|]. split; [discriminate | constructor]. }
  destruct (inv_written_run sched B) as (_ & W2 & W). cbn [app] in W, W2.
  fold s in W, W2.
  destruct (owed_run sched (boot' cs)) as [O _]. cbn zeta in O. fold s in O.
  assert (B1 : owed (dist_at (boot' cs)) (dist_vars (boot' cs)) (shared (boot' cs)) = 0)
    by reflexivity.
  assert (B2 : length (sent (boot' cs)) = 0) by reflexivity.
  rewrite B1, B2 in O.
  assert (Count : length (sent s) <= completions sched (boot' cs)) by lia.
  split; [|split; [exact Count|split; [|split]]].
  - apply Forall_forall. intros b Hb.
    pose proof (proj1 (Forall_forall _ _) I7 b Hb) as [N M].
    pose proof (proj1 (Forall_forall _ _) W b Hb) as [F|F]; [contradiction|].
    split; [exact N|]. split; [exact F | exact M].
  - intros Z0. destruct (sent s); [reflexivity|]. cbn [length] in Count. lia.
  - destruct (sent s) as [|b out] eqn:E; [left; reflexivity|].
    right. assert (P : process_time_abs (shared s) <> (-1)%Z).
    { apply I5. right. discriminate. }
    split; [exact P | apply I3, P].
  - intros b Hb. rewrite run_app in Hb. fold s in Hb.
    cbn [run fold_left] in Hb. unfold sys_step in Hb.
    destruct (dist_step_broadcast (socks (length (sent s))) (dist_at s) (dist_vars s)
                (shared s) (list_socket_out s))
      as [(pc' & l' & E)|(P & o & bytes & _ & _ & E)];
      rewrite E in Hb; cbn [sent] in Hb.
    + exfalso. apply (f_equal (@length _)) in Hb. rewrite length_app in Hb.
      cbn [length] in Hb. lia.
    + apply app_inv_head in Hb. injection Hb as <-. cbn [snapshot r_t].
      rewrite P in W2, I6.
      destruct (W2 eq_refl) as [F|F]; [|exact F].
      exfalso. apply (proj1 (I6 eq_refl)). exact F.
Qed.

(** *** The registry over a run *)

Lemma broadcast_registry (answers : conn_id -> sock) (lst : list conn_id) (o : outcome) :
  broadcast answers lst = Some o ->
  incl (registry o) lst /\ incl (delivered o) lst /\
  (forall d, In d lst -> fails answers d = false -> In d (registry o)) /\
  (NoDup lst -> NoDup (registry o) /\ NoDup (delivered o)).
Proof.
  intros E. destruct (@for_conn_sound answers _ _ _ _ o E) as (A & B & C).
  split; [exact B|]. split.
  - intros d Hd. destruct (C d Hd) as [[]|[H _]]. exact H.
  - split; [exact A|]. intros N.
    apply (@RegistryMore.for_conn_distinct answers (S (length lst)) 0 lst [] o); auto.
    + constructor.
    + intros d [].
Qed.

Lemma NoDup_app_incl (l l' m : list conn_id) :
  NoDup (l ++ m) -> NoDup l' -> incl l' l -> NoDup (l' ++ m).
Proof.
  intros H N I. induction l' as [|a l' IH]; cbn [app].
  - clear - H. induction l as [|x l IHl]; [exact H|].
    inversion H; subst. apply IHl. assumption.
  - inversion N as [|a' l'' Ha Hl]; subst. constructor.
    + intros Hin. apply in_app_or in Hin. destruct Hin as [Hin|Hin]; [exact (Ha Hin)|].
      assert (Il : In a l) by (apply I; left; reflexivity).
      clear - H Il Hin. induction l as [|x l IHl]; [destruct Il|].
      inversion H as [|x' l'' Hx Hl]; subst. destruct Il as [->|Il].
      * apply Hx, in_or_app. right. exact Hin.
      * apply IHl; assumption.
    + apply IH; [exact Hl|]. intros d Hd. apply I. right. exact Hd.
Qed.

(** The registry and the receivers over a run, from any state. *)
Lemma registry_run (sched : list thread) :
  forall s : system',
  let s' := run' sched s in
  incl (list_socket_out s') (list_socket_out s ++ accepted sched) /\
  (forall b, In b (sent s') ->
     In b (sent s) \/ incl (receivers b) (list_socket_out s ++ accepted sched)) /\
  (forall c, In c (list_socket_out s ++ accepted sched) ->
     (forall n, fails (socks n) c = false) -> In c (list_socket_out s')) /\
  (NoDup (list_socket_out s ++ accepted sched) ->
     NoDup (list_socket_out s') /\
     (forall b, In b (sent s') -> In b (sent s) \/ NoDup (receivers b))).
Proof.
  induction sched as [|th sched IH]; intros s; cbn zeta.
  - cbn [run fold_left accepted flat_map]. rewrite app_nil_r.
    split; [apply incl_refl|]. split; [auto|]. split; [auto|].
    intros N. split; auto.
  - rewrite run_cons. specialize (IH (sys_step' th s)). cbn zeta in IH.
    destruct IH as (I1 & I2 & I3 & I4).
    destruct th as [| |c]; unfold sys_step in *.
    + destruct (ingest_step' (ingest_t s) (shared s)) as [w' v'].
      cbn [list_socket_out sent accepted flat_map app] in *.
      split; [exact I1|]. split; [exact I2|]. split; [exact I3 | exact I4].
    + cbn [accepted flat_map app] in *. fold (accepted sched) in *.
      destruct (dist_step_broadcast (socks (length (sent s))) (dist_at s) (dist_vars s)
                  (shared s) (list_socket_out s)) as [(pc' & l' & E)|(_ & o & bytes & B & _ & E)];
        rewrite E in *; cbn [list_socket_out sent] in *.
      * split; [exact I1|]. split; [exact I2|]. split; [exact I3 | exact I4].
      * destruct (broadcast_registry _ _ B) as (R1 & R2 & R3 & R4).
        assert (Inc : incl (registry o ++ accepted sched)
                           (list_socket_out s ++ accepted sched)).
        { intros d Hd. apply in_app_or in Hd. apply in_or_app.
          destruct Hd as [Hd|Hd]; [left; apply R1, Hd | right; exact Hd]. }
        split; [intros d Hd; apply Inc, I1, Hd|]. split; [|split].
        -- intros b Hb. destruct (I2 b Hb) as [Hs|Hr].
           ++ apply in_app_or in Hs. destruct Hs as [Hs|[<-|[]]]; [left; exact Hs|].
              right. cbn [receivers]. intros d Hd. apply in_or_app. left. apply R2, Hd.
           ++ right. intros d Hd. apply Inc, Hr, Hd.
        -- intros c Hc Hok. apply I3; [|exact Hok].
           apply in_app_or in Hc. apply in_or_app.
           destruct Hc as [Hc|Hc]; [left; apply R3; [exact Hc | apply Hok] | right; exact Hc].
        -- intros N.
           assert (Nl : NoDup (list_socket_out s)).
           { clear - N. induction (list_socket_out s) as [|x l IHl]; [constructor|].
             cbn [app] in N. inversion N as [|x' l' Hx Hl]; subst.
             constructor; [|apply IHl; exact Hl].
             intros Hin. apply Hx, in_or_app. left. exact Hin. }
           destruct (R4 Nl) as [N1 N2].
           destruct I4 as [J1 J2]; [apply (@NoDup_app_incl _ _ _ N N1 R1)|].
           split; [exact J1|]. intros b Hb. destruct (J2 b Hb) as [Hs|Hr]; [|right; exact Hr].
           apply in_app_or in Hs. destruct Hs as [Hs|[<-|[]]]; [left; exact Hs|].
           right. exact N2.
    + cbn [list_socket_out sent accepted flat_map app] in *. fold (accepted sched) in *.
      rewrite <- app_assoc in I1, I2, I3, I4. cbn [app] in I1, I2, I3, I4.
      split; [exact I1|]. split; [exact I2|]. split; [exact I3 | exact I4].
Qed.

(** X6: over a whole run of the program, however the three threads are
    interleaved: the registry holds nothing but connections the acceptor
    appended, every frame goes to accepted connections only, and a
    connection the acceptor appended stays registered for good as long as
    no send to it raises (whatever happens to the others, and even after
    the distributor thread has ended). *)
Theorem registry_tracks_accepts (cs : list (call sample)) (sched : list thread) :
  let s := run' sched (boot' cs) in
  incl (list_socket_out s) (accepted sched) /\
  (forall b, In b (sent s) -> incl (receivers b) (accepted sched)) /\
  (forall c, In c (accepted sched) -> (forall n, fails (socks n) c = false) ->
     In c (list_socket_out s)).
Proof.
  destruct (registry_run sched (boot' cs)) as (I1 & I2 & I3 & _).
  cbn [boot list_socket_out sent app] in *.
  split; [exact I1|]. split; [|exact I3].
  intros b Hb. destruct (I2 b Hb) as [[]|H]. exact H.
Qed.

(** X7: when the connections accepted are distinct objects, the registry
    never holds one twice and no broadcast sends its frame twice to the
    same consumer, however the threads are interleaved. *)
Theorem no_duplicate_delivery (cs : list (call sample)) (sched : list thread) :
  NoDup (accepted sched) ->
  let s := run' sched (boot' cs) in
  NoDup (list_socket_out s) /\ Forall (fun b => NoDup (receivers b)) (sent s).
Proof.
  intros N. destruct (registry_run sched (boot' cs)) as (_ & _ & _ & I4).
  cbn [boot list_socket_out sent app] in *.
  destruct (I4 N) as [J1 J2]. split; [exact J1|].
  apply Forall_forall. intros b Hb. destruct (J2 b Hb) as [[]|H]. exact H.
Qed.



(** *** The handler that raises *)

Lemma broadcast_dies (answers : conn_id -> sock) (before rest : list conn_id) (c : conn_id) :
  Forall (fun d => fails answers d = false) before ->
  fails answers c = true -> getpeername_raises (answers c) = true ->
  broadcast answers (before ++ c :: rest)
  = Some (Outcome Died (before ++ c :: rest) (filter (delivers answers) before)).
Proof.
  intros Hb Hc Hg. unfold broadcast.
  replace (S (length (before ++ c :: rest)))
    with (length before + S (S (length rest)))
    by (rewrite length_app; cbn [length]; lia).
  pose proof (@for_conn_walk answers before [] (c :: rest) [] (S (S (length rest))) Hb) as W.
  cbn [app length Nat.add] in W. rewrite W. clear W.
  cbn [for_conn]. rewrite nth_error_app2 by lia. rewrite Nat.sub_diag. cbn [nth_error].
  unfold fails, invalid in Hc.
  destruct (fileno (answers c) =? -1)%Z; [discriminate|].
  cbn [negb andb] in Hc. rewrite Hc, Hg. reflexivity.
Qed.

Lemma dead_run (sched : list thread) :
  forall s : system',
  dist_at s = D_dead ->
  dist_at (run' sched s) = D_dead /\ sent (run' sched s) = sent s /\
  list_socket_out (run' sched s) = list_socket_out s ++ accepted sched.
Proof.
  induction sched as [|th sched IH]; intros s H.
  - cbn [run fold_left accepted flat_map]. rewrite app_nil_r. auto.
  - rewrite run_cons. destruct th as [| |c]; unfold sys_step.
    + destruct (ingest_step' (ingest_t s) (shared s)) as [w' v'].
      destruct (IH (System v' (list_socket_out s) w' (dist_at s) (dist_vars s) (sent s)) H)
        as (A & B & C). cbn [sent list_socket_out] in *. auto.
    + rewrite H. cbn [dist_step].
      destruct (IH (System (shared s) (list_socket_out s) (ingest_t s) D_dead
                      (dist_vars s) (sent s)) eq_refl) as (A & B & C).
      cbn [sent list_socket_out] in *. auto.
    + destruct (IH (System (shared s) (list_socket_out s ++ [c]) (ingest_t s) (dist_at s)
                      (dist_vars s) (sent s)) H) as (A & B & C).
      cbn [sent list_socket_out accepted flat_map] in *. fold (accepted sched).
      rewrite <- app_assoc in C. auto.
Qed.

(** X8: the handler of the broadcast loop calls [getpeername] on the
    connection whose send raised; when that raises too (the peer is gone),
    nothing catches it: the connections registered before got the frame,
    the failing one is not removed, those registered after it get nothing,
    and the distributor thread has ended: whatever the ingest thread
    computes from then on and whoever connects, no frame is sent again. *)
Theorem handler_failure_ends_distribution (s : system') (before rest : list conn_id)
    (c : conn_id) (sched : list thread) :
  dist_at s = D426 ->
  list_socket_out s = before ++ c :: rest ->
  Forall (fun d => fails (socks (length (sent s))) d = false) before ->
  fails (socks (length (sent s))) c = true ->
  getpeername_raises (socks (length (sent s)) c) = true ->
  (N.of_nat (length (conv_vapresult_2_bytearray_bc
                       (VapResult (t (dist_vars s)) (x1 (dist_vars s)) (x2 (dist_vars s))
                                  (p_bc_react (dist_vars s)) (p_bc_emo (dist_vars s)))))
   < 4294967296)%N ->
  let s' := run' (TDist :: sched) s in
  dist_at s' = D_dead /\
  list_socket_out s' = (before ++ c :: rest) ++ accepted sched /\
  exists b,
    sent s' = sent s ++ [b] /\
    receivers b = filter (delivers (socks (length (sent s)))) before.
Proof.
  intros Hpc Hl Hb Hc Hg Hn s'. unfold s'. rewrite run_cons.
  destruct (WireFacts.encode_frame_prefixed _ Hn) as (header & He & _).
  pose proof (@broadcast_dies _ before rest c Hb Hc Hg) as B.
  set (s1 := sys_step' TDist s).
  assert (E1 : dist_at s1 = D_dead /\ list_socket_out s1 = before ++ c :: rest /\
               exists b, sent s1 = sent s ++ [b] /\
                 receivers b = filter (delivers (socks (length (sent s)))) before).
  { unfold s1, sys_step. rewrite Hpc, Hl. cbn [dist_step]. rewrite He, B.
    cbn [ending registry delivered dist_at list_socket_out sent].
    split; [reflexivity|]. split; [reflexivity|].
    eexists. split; reflexivity. }
  destruct E1 as (D1 & L1 & b & S1 & R1).
  destruct (dead_run sched s1 D1) as (A & B' & C).
  split; [exact A|]. split; [rewrite C, L1; reflexivity|].
  exists b. split; [rewrite B', S1; reflexivity | exact R1].
Qed.

End Threads.

(** *** A consumer whose peer is gone *)

(** The sends to consumer 2 raise, and so does its [getpeername]. *)
Definition socks_gone (n : nat) (c : conn_id) : sock :=
  if c =? 2 then Sock 5 true true else working.

(** The distributor is about to broadcast to three consumers. *)
Definition system_at_426 : system nat nat nat :=
  System (new_vap nat nat 0) [1; 2; 3] (IngestThread None []) D426
         (DistLocals 3 1 [] [] 0 0) [].

Lemma handler_failure_ends_distribution_witness :
  let s' := run (fun _ _ => Some (0, 0)) (fun _ _ => Some (0, 0)) (fun _ => [x01])
                socks_gone (TDist :: [TAccept 4; TDist; TIngest; TDist]) system_at_426 in
  dist_at s' = D_dead /\ list_socket_out s' = [1; 2; 3; 4] /\
  map (@receivers nat nat) (sent s') = [[1]].
Proof.
  assert (H1 : dist_at system_at_426 = D426) by reflexivity.
  assert (H2 : list_socket_out system_at_426 = [1] ++ 2 :: [3]) by reflexivity.
  assert (H3 : Forall (fun d => fails (socks_gone (length (sent system_at_426))) d = false)
                      [1]).
  { constructor; [reflexivity | constructor]. }
  assert (H4 : fails (socks_gone (length (sent system_at_426))) 2 = true) by reflexivity.
  assert (H5 : getpeername_raises (socks_gone (length (sent system_at_426)) 2) = true)
    by reflexivity.
  assert (H6 : (N.of_nat (length ((fun _ : vap_result nat nat => [x01])
                  (VapResult (t (dist_vars system_at_426)) (x1 (dist_vars system_at_426))
                             (x2 (dist_vars system_at_426))
                             (p_bc_react (dist_vars system_at_426))
                             (p_bc_emo (dist_vars system_at_426))))) < 4294967296)%N)
    by reflexivity.
  pose proof (@handler_failure_ends_distribution nat nat nat
                (fun _ _ => Some (0, 0)) (fun _ _ => Some (0, 0)) (fun _ => [x01])
                socks_gone system_at_426 [1] [3] 2 [TAccept 4; TDist; TIngest; TDist]
                H1 H2 H3 H4 H5 H6) as (A & B & b & C & D).
  cbn zeta. split; [exact A|]. split; [exact B|]. reflexivity.
Defined.

(** *** A frame of a step that has not completed *)

(** A consumer connects and the distributor starts; the first call runs to
    its end; the distributor sees the change and latches
    [process_time_abs] (lines 414 and 418); the second call runs up to its
    line 312; the distributor copies the result (lines 420-424) and
    broadcasts. *)
Definition sched8 : list thread :=
  [TAccept 1; TDist] ++ repeat TIngest 17 ++ [TDist; TDist]
  ++ repeat TIngest 12 ++ repeat TDist 6.

Definition run8 : system nat nat nat :=
  run (fun _ _ => Some (0, 0)) (fun _ _ => Some (0, 0)) (fun _ => []) socks6
      sched8 (boot nat 0 calls6).

(** C10 (as the specification has it) fails: the one frame of this run
    carries the time 20, which the second call wrote at its line 312; that
    call has not completed when the frame is sent: it stands at line 314,
    [process_time_abs] is still the 12 of the first call, and one call only
    has executed its last line. The only step completed wrote the time
    10. *)
Lemma frame_of_unfinished_step :
  map (@result_time nat) calls6 = [10; 20]%Z /\
  sent_times run8 = [20]%Z /\
  map (@receivers nat nat) (sent run8) = [[1]] /\
  running (ingest_t run8) = Some (call_at 19, L314 nat nat) /\
  process_time_abs (shared run8) = 12%Z /\
  completions (fun _ _ => Some (0, 0)) (fun _ _ => Some (0, 0)) (fun _ => []) socks6
    sched8 (boot nat 0 calls6) = 1.
Proof. repeat split; vm_compute; reflexivity. Qed.

Lemma frames_carry_written_times_witness :
  Forall (@clock_ok nat) calls6 /\
  Forall (fun b => r_t (snapshot b) <> (-1)%Z /\
                   In (r_t (snapshot b))
                      (written (fun _ _ => Some (0, 0)) (fun _ _ => Some (0, 0))
                               (fun _ => []) socks6 sched8 (boot nat 0 calls6)))
         (sent run8) /\
  length (sent run8) <= 1.
Proof.
  assert (H : Forall (@clock_ok nat) calls6).
  { repeat constructor; cbn; lia. }
  split; [exact H|].
  pose proof (@frames_carry_written_times nat nat nat 0 (fun _ _ => Some (0, 0))
                (fun _ _ => Some (0, 0)) (fun _ => []) socks6 calls6 sched8 H)
    as (F & C & _).
  cbv zeta in F, C. split.
  - eapply Forall_impl; [|exact F]. cbn beta. intros b (N & I & _). split; assumption.
  - change (length (sent run8) <= 1).
    replace 1 with (completions (fun _ _ => Some (0, 0)) (fun _ _ => Some (0, 0))
                      (fun _ : vap_result nat nat => @nil byte) socks6 sched8
                      (boot nat 0 calls6)) by (vm_compute; reflexivity).
    exact C.
Defined.

Lemma no_duplicate_delivery_witness :
  NoDup (accepted sched6) /\ NoDup (list_socket_out run6).
Proof.
  assert (H : NoDup (accepted sched6)).
  { change (accepted sched6) with [1; 2]. RegistryMore.distinct. }
  split; [exact H|].
  exact (proj1 (@no_duplicate_delivery nat nat nat 0 (fun _ _ => Some (0, 0))
                  (fun _ _ => Some (0, 0)) (fun _ => []) socks6 calls6 sched6 H)).
Defined.

End DistributorMore.

(** ** More on the reads from a socket *)

Module WireMore.
Import WireFacts ServerFacts.

(** The reassembly loop on a connection that does not fail: it ends, with
    everything it was given and read, in order; it stops at exactly
    [size_recv] bytes or when the peer has closed. *)
Lemma recv_rest_clean (fuel : nat) :
  forall (data : list byte) (s : Socket.conn),
  Socket.clean s = true -> Socket.weight s < fuel ->
  exists data' s',
    recv_rest fuel data s = (Frame data', s') /\
    Socket.clean s' = true /\
    data' ++ Socket.contents s' = data ++ Socket.contents s /\
    (length data' = size_recv \/ s' = []).
Proof.
  induction fuel as [|fuel IH]; intros data s C F; [lia|].
  cbn [recv_rest].
  destruct (@recv_clean size_recv s C) as (d & s' & R & C' & E & _).
  pose proof (recv_weight s size_recv_pos) as [_ W]. rewrite R in *. cbn [fst snd] in W.
  destruct d as [|x d].
  - subst s'. cbn [length Nat.eqb]. exists data, [].
    split; [reflexivity|]. split; [reflexivity|].
    split; [rewrite <- E; reflexivity | right; reflexivity].
  - cbn [length Nat.eqb]. fold (length (x :: d)).
    destruct (length (data ++ x :: d) =? size_recv) eqn:T.
    + apply Nat.eqb_eq in T. exists (data ++ x :: d), s'.
      split; [reflexivity|]. split; [exact C'|].
      split; [rewrite <- app_assoc, E; reflexivity | left; exact T].
    + destruct (IH (data ++ x :: d) s' C' ltac:(lia)) as (data' & s2 & R2 & C2 & E2 & L2).
      exists data', s2. split; [exact R2|]. split; [exact C2|].
      split; [rewrite E2, <- app_assoc, E; reflexivity | exact L2].
Qed.

(** Past [size_recv] bytes the length test of line 381 cannot hold any
    more: the loop reads until the peer closes. *)
Lemma recv_rest_over (fuel : nat) :
  forall (data : list byte) (s : Socket.conn),
  Socket.clean s = true -> Socket.weight s < fuel ->
  size_recv < length data ->
  recv_rest fuel data s = (Frame (data ++ Socket.contents s), []).
Proof.
  induction fuel as [|fuel IH]; intros data s C F L; [lia|].
  cbn [recv_rest].
  destruct (@recv_clean size_recv s C) as (d & s' & R & C' & E & _).
  pose proof (recv_weight s size_recv_pos) as [_ W]. rewrite R in *. cbn [fst snd] in W.
  destruct d as [|x d].
  - subst s'. cbn [length Nat.eqb]. rewrite <- E. cbn [Socket.contents app].
    rewrite app_nil_r. reflexivity.
  - cbn [length Nat.eqb]. fold (length (x :: d)).
    replace (length (data ++ x :: d) =? size_recv) with false
      by (symmetry; apply Nat.eqb_neq; rewrite length_app; lia).
    rewrite IH; [|exact C'|lia|rewrite length_app; lia].
    rewrite <- app_assoc, E. reflexivity.
Qed.

(** X9: the frame read of the input server (lines 370-382) on a
    connection that does not fail: it always ends, and what it hands on is
    a prefix of the bytes to come, nothing lost, repeated or reordered;
    the frame has exactly [size_recv] = 2560 bytes unless the read ran
    into the close of the connection. *)
Theorem recv_frame_clean (s : Socket.conn) (fuel : nat) :
  Socket.clean s = true -> Socket.weight s < fuel ->
  exists data s',
    recv_frame fuel s = (Frame data, s') /\
    Socket.clean s' = true /\
    data ++ Socket.contents s' = Socket.contents s /\
    (length data = size_recv \/ s' = []).
Proof.
  intros C F. unfold recv_frame.
  destruct (@recv_clean size_recv s C) as (d & s' & R & C' & E & L & _).
  pose proof (recv_weight s size_recv_pos) as [W _]. rewrite R in *. cbn [fst snd] in W.
  destruct (length d <? size_recv) eqn:T.
  - destruct (@recv_rest_clean fuel d s' C' ltac:(lia)) as (data' & s2 & R2 & C2 & E2 & L2).
    exists data', s2. split; [exact R2|]. split; [exact C2|].
    split; [rewrite E2; exact E | exact L2].
  - apply Nat.ltb_ge in T. exists d, s'.
    split; [reflexivity|]. split; [exact C'|]. split; [exact E | left; lia].
Qed.

(** X10: a frame whose first piece is short and whose next piece reaches
    into the following frame (as TCP is free to deliver it): the second
    read asks for [size_recv] bytes again, not for what is missing, so the
    data grow past [size_recv], the test [len(data) == size_recv] never
    holds, and the loop reads until the peer closes: everything the
    producer sends from there on is handed to the decoder as one frame. *)
Theorem recv_frame_overshoot (seg1 seg2 : list byte) (rest : Socket.conn) (fuel : nat) :
  Socket.clean rest = true ->
  0 < length seg1 -> length seg1 < size_recv ->
  size_recv < length seg1 + length seg2 ->
  S (length seg2 + Socket.weight rest) < fuel ->
  recv_frame fuel (Socket.Bytes seg1 :: Socket.Bytes seg2 :: rest)
  = (Frame (seg1 ++ seg2 ++ Socket.contents rest), []).
Proof.
  intros C L0 L1 L2 F. unfold recv_frame.
  destruct seg1 as [|b1 seg1]; [cbn [length] in L0; lia|].
  cbn [Socket.recv].
  replace (length (b1 :: seg1) <=? size_recv) with true
    by (symmetry; apply Nat.leb_le; lia).
  replace (length (b1 :: seg1) <? size_recv) with true
    by (symmetry; apply Nat.ltb_lt; lia).
  destruct fuel as [|fuel]; [lia|]. cbn [recv_rest].
  destruct seg2 as [|b2 seg2]; [cbn [length] in *; lia|].
  cbn [Socket.recv].
  destruct (length (b2 :: seg2) <=? size_recv) eqn:T.
  - apply Nat.leb_le in T. cbn [length Nat.eqb]. fold (length (b2 :: seg2)).
    replace (length ((b1 :: seg1) ++ b2 :: seg2) =? size_recv) with false
      by (symmetry; apply Nat.eqb_neq; rewrite length_app; lia).
    rewrite recv_rest_over; [|exact C| cbn [length] in F; lia | rewrite length_app; lia].
    rewrite <- app_assoc. reflexivity.
  - apply Nat.leb_gt in T.
    assert (Lf : length (firstn size_recv (b2 :: seg2)) = size_recv)
      by (rewrite length_firstn; lia).
    destruct (firstn size_recv (b2 :: seg2)) as [|y f] eqn:Ef;
      [cbn [length] in Lf; pose proof size_recv_pos; lia|].
    cbn [length Nat.eqb]. fold (length (y :: f)).
    replace (length ((b1 :: seg1) ++ y :: f) =? size_recv) with false
      by (symmetry; apply Nat.eqb_neq; rewrite length_app; cbn [length] in *; lia).
    rewrite recv_rest_over.
    + cbn [Socket.contents]. rewrite <- Ef, <- app_assoc.
      rewrite (app_assoc (firstn size_recv (b2 :: seg2))), firstn_skipn. reflexivity.
    + exact C.
    + cbn [Socket.weight]. rewrite length_skipn. cbn [length] in *. lia.
    + rewrite length_app. cbn [length] in *. lia.
Qed.

Section ConsumerMore.

Variable result : Type.
Variable conv_bytearray_2_vapresult : list byte -> option result.

(** The loop of lines 25-26 when the connection closes with less than the
    size announced: it turns for ever. *)
Lemma recv_until_short (fuel : nat) :
  forall (size : nat) (data : list byte) (s : Socket.conn),
  Socket.clean s = true ->
  length data + length (Socket.contents s) < size ->
  recv_until fuel size data s = None.
Proof.
  induction fuel as [|fuel IH]; intros size data s C L; cbn [recv_until];
    replace (length data <? size) with true by (symmetry; apply Nat.ltb_lt; lia).
  - reflexivity.
  - destruct (@recv_clean (size - length data) s C) as (d & s' & R & C' & E & _).
    rewrite R. apply IH; [exact C'|].
    rewrite length_app. rewrite <- E, length_app in L. lia.
Qed.

(** X11: the consumer's read of one result (lines 21-28) on a frame that
    is cut short: the four header bytes arrive, then fewer payload bytes
    than the header announces, then the server closes. Every further
    [recv] returns [b''], which the loop of lines 25-26 appends without
    looking at it: the read never ends, the [except] branch is never
    reached and 'Disconnected from the server' is never printed. *)
Theorem truncated_frame_hangs (h : list byte) (s : Socket.conn) :
  length h = 4 ->
  Socket.clean s = true ->
  length (Socket.contents s) < N.to_nat (Py.from_bytes_little h) ->
  forall fuel, read_result conv_bytearray_2_vapresult fuel (Socket.Bytes h :: s) = None.
Proof.
  intros L C S fuel. unfold read_result.
  rewrite (@recv_first_length 4 h s) by lia.
  rewrite firstn_all2 by lia.
  replace (length h <=? 4) with true by (symmetry; apply Nat.leb_le; lia).
  destruct (@recv_clean (N.to_nat (Py.from_bytes_little h)) s C)
    as (d & s' & R & C' & E & _).
  rewrite R. rewrite recv_until_short; [reflexivity | exact C' |].
  rewrite <- E, length_app in S. exact S.
Qed.

End ConsumerMore.

(** *** Concrete reads *)

Lemma recv_frame_clean_witness :
  exists data s',
    recv_frame 5 [Socket.Bytes [x01]; Socket.Bytes [x02]] = (Frame data, s') /\
    Socket.clean s' = true /\
    data ++ Socket.contents s' = [x01; x02] /\
    (length data = size_recv \/ s' = []).
Proof.
  assert (C : Socket.clean [Socket.Bytes [x01]; Socket.Bytes [x02]] = true) by reflexivity.
  assert (F : Socket.weight [Socket.Bytes [x01]; Socket.Bytes [x02]] < 5)
    by (cbn [Socket.weight length]; lia).
  exact (@recv_frame_clean [Socket.Bytes [x01]; Socket.Bytes [x02]] 5 C F).
Defined.

Lemma recv_frame_overshoot_witness :
  length [x01] < size_recv /\
  recv_frame 2565 [Socket.Bytes [x01]; Socket.Bytes (repeat x02 size_recv);
                   Socket.Bytes [x03]]
  = (Frame ([x01] ++ repeat x02 size_recv ++ [x03]), []).
Proof.
  assert (C : Socket.clean [Socket.Bytes [x03]] = true) by reflexivity.
  assert (L0 : 0 < length [x01]) by (cbn [length]; lia).
  assert (L1 : length [x01] < size_recv)
    by (cbn [length]; unfold size_recv, FRAME_SIZE_INPUT; lia).
  assert (L2 : size_recv < length [x01] + length (repeat x02 size_recv))
    by (rewrite repeat_length; cbn [length]; lia).
  assert (F : S (length (repeat x02 size_recv) + Socket.weight [Socket.Bytes [x03]]) < 2565)
    by (rewrite repeat_length; cbn [Socket.weight length];
        unfold size_recv, FRAME_SIZE_INPUT; lia).
  split; [exact L1|].
  exact (@recv_frame_overshoot [x01] (repeat x02 size_recv) [Socket.Bytes [x03]] 2565
           C L0 L1 L2 F).
Defined.

Lemma truncated_frame_hangs_witness :
  length header10 = 4 /\
  length (Socket.contents [Socket.Bytes [x01; x02; x03]])
    < N.to_nat (Py.from_bytes_little header10) /\
  read_result (fun data => Some (length data)) 1000
    (Socket.Bytes header10 :: [Socket.Bytes [x01; x02; x03]]) = None.
Proof.
  assert (L : length header10 = 4) by reflexivity.
  assert (C : Socket.clean [Socket.Bytes [x01; x02; x03]] = true) by reflexivity.
  assert (S : length (Socket.contents [Socket.Bytes [x01; x02; x03]])
              < N.to_nat (Py.from_bytes_little header10)).
  { change (N.to_nat (Py.from_bytes_little header10)) with 10.
    cbn [Socket.contents length app]. lia. }
  split; [exact L|]. split; [exact S|].
  exact (@truncated_frame_hangs nat (fun data => Some (length data)) header10
           [Socket.Bytes [x01; x02; x03]] L C S 1000).
Defined.

End WireMore.

(** ** More on the windows *)

Module AssemblerMore.

Section Assembler.

Variable sample : Type.
Variable zero : sample.

(** Both buffers hold at least the overlap, and the first less than a
    window. *)
Definition in_range (b : buffers sample) : Prop :=
  FRAME_SAVE_LAST <= length (current_x1 b) < FRAME_SIZE_VAP + FRAME_SAVE_LAST /\
  FRAME_SAVE_LAST <= length (current_x2 b).

Lemma skipn_app_long {A} (n : nat) (l1 l2 : list A) :
  n <= length l1 -> skipn n (l1 ++ l2) = skipn n l1 ++ l2.
Proof.
  intros H. rewrite skipn_app. replace (n - length l1) with 0 by lia. reflexivity.
Qed.

Lemma skipn_slice_last {A} (l : list A) :
  FRAME_SAVE_LAST <= length l ->
  skipn FRAME_SAVE_LAST (Py.slice_last FRAME_SAVE_LAST l) = [] /\
  length (Py.slice_last FRAME_SAVE_LAST l) = FRAME_SAVE_LAST.
Proof.
  intros H.
  assert (L : length (Py.slice_last FRAME_SAVE_LAST l) = FRAME_SAVE_LAST).
  { apply PyFacts.slice_last_length; [unfold FRAME_SAVE_LAST; lia | exact H]. }
  split; [|exact L]. apply skipn_all2. lia.
Qed.

Lemma feed_any (cs : list (chunk sample)) :
  forall b : buffers sample,
  in_range b ->
  let b' := fst (feed b cs) in
  let ws := emitted (snd (feed b cs)) in
  in_range b' /\
  concat (map (@fresh1 sample) ws) ++ skipn FRAME_SAVE_LAST (current_x1 b')
    = skipn FRAME_SAVE_LAST (current_x1 b) ++ concat (map fst cs) /\
  concat (map (@fresh2 sample) ws) ++ skipn FRAME_SAVE_LAST (current_x2 b')
    = skipn FRAME_SAVE_LAST (current_x2 b) ++ concat (map snd cs) /\
  Forall (fun w => FRAME_SIZE_VAP + FRAME_SAVE_LAST <= length (fst w) /\
                   FRAME_SAVE_LAST <= length (snd w)) ws.
Proof.
  induction cs as [|c cs IH]; intros b Hb; cbn zeta.
  - cbn [feed fst snd emitted map concat app]. rewrite !app_nil_r.
    split; [exact Hb|]. split; [reflexivity|]. split; [reflexivity | constructor].
  - rewrite feed_cons. cbn [fst snd map concat].
    destruct Hb as [[H1 H1'] H2].
    unfold ingest.
    destruct (length (current_x1 b ++ fst c) <? FRAME_SIZE_VAP + FRAME_SAVE_LAST) eqn:T;
      cbn [fst snd emitted].
    + apply Nat.ltb_lt in T.
      destruct (IH (Buffers (current_x1 b ++ fst c) (current_x2 b ++ snd c)))
        as (I1 & I2 & I3 & I4).
      { unfold in_range. cbn [current_x1 current_x2]. rewrite !length_app in *. lia. }
      cbn [current_x1 current_x2] in I2, I3.
      rewrite skipn_app_long in I2, I3 by lia.
      rewrite <- !app_assoc in I2, I3.
      split; [exact I1|]. split; [exact I2|]. split; [exact I3 | exact I4].
    + apply Nat.ltb_ge in T.
      assert (L2 : FRAME_SAVE_LAST <= length (current_x2 b ++ snd c))
        by (rewrite length_app; lia).
      assert (L1 : FRAME_SAVE_LAST <= length (current_x1 b ++ fst c))
        by (rewrite length_app; lia).
      destruct (skipn_slice_last _ L1) as [S1 S1'].
      destruct (skipn_slice_last _ L2) as [S2 S2'].
      destruct (IH (Buffers (Py.slice_last FRAME_SAVE_LAST (current_x1 b ++ fst c))
                            (Py.slice_last FRAME_SAVE_LAST (current_x2 b ++ snd c))))
        as (I1 & I2 & I3 & I4).
      { unfold in_range. cbn [current_x1 current_x2]. rewrite S1', S2'.
        unfold FRAME_SAVE_LAST, FRAME_SIZE_VAP. lia. }
      cbn [current_x1 current_x2] in I2, I3. rewrite S1 in I2. rewrite S2 in I3.
      cbn [app] in I2, I3.
      split; [exact I1|]. cbn [map concat].
      unfold fresh1 at 1. unfold fresh2 at 1. cbn [fst snd].
      rewrite !skipn_app_long by lia. rewrite <- !app_assoc.
      split; [rewrite I2; reflexivity|]. split; [rewrite I3; reflexivity|].
      constructor; [cbn [fst snd]; split; assumption | exact I4].
Qed.

(** X12: the buffering of [proc_serv_in] on any stream of decoded chunks,
    whatever their sizes (the code checks none): from the buffers of 320
    zeros, on both channels the samples the windows add past their first
    320, window after window, followed by what the buffer holds past its
    first 320, are the samples received, in order: none is lost and none
    reaches the model twice as a new sample. Every window has at least
    1920 samples on channel 1, the only channel the readiness test looks
    at, and after each chunk the buffer of channel 1 holds at least 320 and
    fewer than 1920 samples. *)
Theorem feed_conserves (cs : list (chunk sample)) :
  let b' := fst (feed (init_buffers zero) cs) in
  let ws := emitted (snd (feed (init_buffers zero) cs)) in
  concat (map (@fresh1 sample) ws) ++ skipn FRAME_SAVE_LAST (current_x1 b')
    = concat (map fst cs) /\
  concat (map (@fresh2 sample) ws) ++ skipn FRAME_SAVE_LAST (current_x2 b')
    = concat (map snd cs) /\
  Forall (fun w => FRAME_SIZE_VAP + FRAME_SAVE_LAST <= length (fst w)) ws /\
  FRAME_SAVE_LAST <= length (current_x1 b') < FRAME_SIZE_VAP + FRAME_SAVE_LAST /\
  FRAME_SAVE_LAST <= length (current_x2 b').
Proof.
  assert (I : in_range (init_buffers zero)).
  { unfold in_range, init_buffers. cbn [current_x1 current_x2].
    rewrite !repeat_length. unfold FRAME_SAVE_LAST, FRAME_SIZE_VAP. lia. }
  destruct (feed_any cs I) as ([R1 R2] & E1 & E2 & F). cbn zeta.
  assert (Z : skipn FRAME_SAVE_LAST (repeat zero FRAME_SAVE_LAST) = [])
    by (apply skipn_all2; rewrite repeat_length; lia).
  unfold init_buffers in E1 at 3. unfold init_buffers in E2 at 3.
  cbn [current_x1 current_x2] in E1, E2. rewrite Z in E1, E2.
  split; [exact E1|]. split; [exact E2|].
  split; [eapply Forall_impl; [|exact F]; cbn beta; intros w [H _]; exact H|].
  split; assumption.
Qed.

End Assembler.

End AssemblerMore.

(** ** More on the inference context *)

Module InferenceMore.

Section Inference.

Variable sample : Type.
Variable embedding : Type.
Variable prob : Type.
Variable prob_zero : prob.
Variable encode_audio : list sample -> list sample -> option (embedding * embedding).
Variable infer : list embedding -> list embedding -> option (prob * prob).

Local Notation "'VAP'" := (VAPRealTime sample embedding prob).
Local Notation "'process_vap''" := (process_vap encode_audio infer).
Local Notation "'run_calls''" := (run_calls encode_audio infer).

Ltac vap_fields :=
  cbn [fst snd current_x1_audio current_x2_audio result_p_bc_react result_p_bc_emo
       result_last_time process_time_abs e1_context e2_context
       list_process_time_context stdout
       set_current_x1_audio set_current_x2_audio set_result_p_bc_react
       set_result_p_bc_emo set_result_last_time set_process_time_abs
       set_e1_context set_e2_context set_list_process_time_context print].

(** What the model is asked with, after the two embeddings were pushed. *)
Definition asked (e1 e2 : embedding) (v : VAP) : option (prob * prob) :=
  infer (push e1 (e1_context v)) (push e2 (e2_context v)).

Lemma process_vap_cases (c : clock_reads) (x1 x2 : list sample) (v : VAP) :
  let r := process_vap' c x1 x2 v in
  current_x1_audio (snd r) = Py.slice_from frame_contxt_padding x1 /\
  current_x2_audio (snd r) = Py.slice_from frame_contxt_padding x2 /\
  match encode_audio x1 x2 with
  | None =>
      fst r = L_raise _ _ /\
      e1_context (snd r) = e1_context v /\ e2_context (snd r) = e2_context v /\
      result_p_bc_react (snd r) = result_p_bc_react v /\
      result_p_bc_emo (snd r) = result_p_bc_emo v /\
      result_last_time (snd r) = result_last_time v /\
      process_time_abs (snd r) = process_time_abs v
  | Some (e1, e2) =>
      e1_context (snd r) = push e1 (e1_context v) /\
      e2_context (snd r) = push e2 (e2_context v) /\
      match asked e1 e2 v with
      | None =>
          fst r = L_raise _ _ /\
          result_p_bc_react (snd r) = result_p_bc_react v /\
          result_p_bc_emo (snd r) = result_p_bc_emo v /\
          result_last_time (snd r) = result_last_time v /\
          process_time_abs (snd r) = process_time_abs v
      | Some (pr, pe) =>
          fst r = L_return _ _ /\
          result_p_bc_react (snd r) = pr /\
          result_p_bc_emo (snd r) = pe /\
          result_last_time (snd r) = t_result c /\
          process_time_abs (snd r) = t_abs c
      end
  end.
Proof.
  rewrite process_vap_unfold. unfold asked, push. cbn zeta.
  destruct (encode_audio x1 x2) as [[e1 e2]|]; vap_fields; [|repeat split].
  destruct (AUDIO_CONTEXT_LIM <? length (e1_context v ++ [e1])); vap_fields;
    destruct (AUDIO_CONTEXT_LIM <? length (e2_context v ++ [e2])); vap_fields;
    match goal with |- context [infer ?a ?b] => destruct (infer a b) as [[pr pe]|] end;
    vap_fields;
    try match goal with
        | |- context [CALC_PROCESS_TIME_INTERVAL <? ?n] =>
            destruct (CALC_PROCESS_TIME_INTERVAL <? n)
        end; vap_fields; repeat split.
Qed.

(** X13: a call of [process_vap] on any window, from any state: it
    overwrites the two audio fields with the window past its first 320
    samples before anything can fail. It raises exactly when
    [encode_audio] raises or the heads raise on the contexts with the new
    embeddings pushed; then the two probabilities and the two times are
    what they were (so the distributor, which watches [process_time_abs],
    sends nothing for this call), while the audio fields already hold the
    new window, and, if it was the heads that raised, the embeddings stay
    in the contexts. When nothing raises, the probabilities are the ones
    read off the heads and the times the two readings of the clock. *)
Theorem process_vap_fault (c : clock_reads) (x1 x2 : list sample) (v : VAP) :
  let r := process_vap' c x1 x2 v in
  let raises :=
    encode_audio x1 x2 = None \/
    exists e1 e2, encode_audio x1 x2 = Some (e1, e2) /\ asked e1 e2 v = None in
  current_x1_audio (snd r) = Py.slice_from frame_contxt_padding x1 /\
  current_x2_audio (snd r) = Py.slice_from frame_contxt_padding x2 /\
  (fst r = L_raise _ _ <-> raises) /\
  (fst r = L_return _ _ <-> ~ raises) /\
  (raises ->
     result_p_bc_react (snd r) = result_p_bc_react v /\
     result_p_bc_emo (snd r) = result_p_bc_emo v /\
     result_last_time (snd r) = result_last_time v /\
     process_time_abs (snd r) = process_time_abs v) /\
  (forall e1 e2, encode_audio x1 x2 = Some (e1, e2) ->
     e1_context (snd r) = push e1 (e1_context v) /\
     e2_context (snd r) = push e2 (e2_context v) /\
     forall pr pe, asked e1 e2 v = Some (pr, pe) ->
       result_p_bc_react (snd r) = pr /\ result_p_bc_emo (snd r) = pe /\
       result_last_time (snd r) = t_result c /\ process_time_abs (snd r) = t_abs c).
Proof.
  intros r raises. pose proof (process_vap_cases c x1 x2 v) as H. cbn zeta in H.
  fold r in H. destruct H as (A1 & A2 & H). split; [exact A1|]. split; [exact A2|].
  unfold raises. clear raises.
  destruct (encode_audio x1 x2) as [[e1 e2]|] eqn:Ee.
  - destruct H as (C1 & C2 & H).
    destruct (asked e1 e2 v) as [[pr pe]|] eqn:Ea.
    + destruct H as (R & P1 & P2 & T1 & T2).
      split; [|split; [|split]].
      * rewrite R. split; [discriminate|].
        intros [X|(a & b & X & Y)]; [discriminate|]. congruence.
      * split; [|intros _; exact R].
        intros _ [X|(a & b & X & Y)]; [discriminate|]. congruence.
      * intros [X|(a & b & X & Y)]; [discriminate|]. congruence.
      * intros a b X. injection X as <- <-. split; [exact C1|]. split; [exact C2|].
        intros pr' pe' Y. rewrite Ea in Y. injection Y as <- <-. auto.
    + destruct H as (R & P1 & P2 & T1 & T2).
      split; [|split; [|split]].
      * split; [|intros _; exact R]. intros _. right. exists e1, e2. auto.
      * rewrite R. split; [discriminate|]. intros X. exfalso. apply X.
        right. exists e1, e2. auto.
      * intros _. auto.
      * intros a b X. injection X as <- <-. split; [exact C1|]. split; [exact C2|].
        intros pr' pe' Y. rewrite Ea in Y. discriminate.
  - destruct H as (R & _ & _ & P1 & P2 & T1 & T2).
    split; [|split; [|split]].
    + split; [|intros _; exact R]. intros _. left. reflexivity.
    + rewrite R. split; [discriminate|]. intros X. exfalso. apply X. left. reflexivity.
    + intros _. auto.
    + intros a b X. discriminate.
Qed.

(** With a collaborator that never raises a call returns. *)
Lemma process_vap_returns (c : clock_reads) (x1 x2 : list sample) (v : VAP) :
  (forall x1 x2, encode_audio x1 x2 <> None) ->
  (forall a b, infer a b <> None) ->
  fst (process_vap' c x1 x2 v) = L_return _ _.
Proof.
  intros He Hi. pose proof (process_vap_cases c x1 x2 v) as H. cbn zeta in H.
  destruct H as (_ & _ & H).
  destruct (encode_audio x1 x2) as [[e1 e2]|] eqn:Ee; [|exact (False_ind _ (He _ _ Ee))].
  destruct H as (_ & _ & H). unfold asked in H.
  destruct (infer _ _) as [[pr pe]|] eqn:Ei; [|exact (False_ind _ (Hi _ _ Ei))].
  apply H.
Qed.

(** *** The latency report *)

Local Notation "'period'" := (S CALC_PROCESS_TIME_INTERVAL).

(** The latency line 314 measures in a call: the reading of line 314 less
    the reading of line 245. *)
Definition latency (k : call sample) : Z := (t_end (fst k) - t_start (fst k))%Z.

Lemma run_calls_app (cs1 cs2 : list (call sample)) :
  forall v : VAP, run_calls' (cs1 ++ cs2) v = run_calls' cs2 (run_calls' cs1 v).
Proof.
  induction cs1 as [|[c [x1 x2]] cs1 IH]; intros v; [reflexivity|].
  cbn [app run_calls]. apply IH.
Qed.

Lemma firstn_exact {A} (n : nat) (l1 l2 : list A) :
  length l1 = n -> firstn n (l1 ++ l2) = l1.
Proof.
  intros L. rewrite firstn_app, L, Nat.sub_diag, firstn_all2 by lia.
  cbn [firstn]. apply app_nil_r.
Qed.

Lemma skipn_past {A} (n m : nat) (l1 l2 : list A) :
  length l1 = n -> skipn (n + m) (l1 ++ l2) = skipn m l2.
Proof.
  intros L. rewrite skipn_app, L, skipn_all2 by lia.
  replace (n + m - n) with m by lia. reflexivity.
Qed.

Section NeverRaises.

Hypothesis encodes : forall x1 x2, encode_audio x1 x2 <> None.
Hypothesis infers : forall a b, infer a b <> None.

Lemma process_vap_timed (c : clock_reads) (x1 x2 : list sample) (v : VAP) :
  (list_process_time_context (snd (process_vap' c x1 x2 v)),
   stdout (snd (process_vap' c x1 x2 v))) = timed c v.
Proof.
  pose proof (process_vap_returns c x1 x2 v encodes infers) as R.
  destruct (process_vap_timing encode_audio infer c x1 x2 v) as [[_ E]|[F _]];
    [exact E|]. rewrite R in F. discriminate.
Qed.

(** Up to 100 latencies in the list: a call appends its own and prints
    nothing. *)
Lemma latencies_kept (cs : list (call sample)) :
  forall v : VAP,
  length (list_process_time_context v) + length cs <= CALC_PROCESS_TIME_INTERVAL ->
  list_process_time_context (run_calls' cs v)
    = list_process_time_context v ++ map latency cs /\
  stdout (run_calls' cs v) = stdout v.
Proof.
  induction cs as [|[c [x1 x2]] cs IH]; intros v L.
  - cbn [run_calls map]. rewrite app_nil_r. split; reflexivity.
  - cbn [run_calls map length] in *.
    pose proof (process_vap_timed c x1 x2 v) as T. unfold timed in T.
    replace (CALC_PROCESS_TIME_INTERVAL
             <? length (list_process_time_context v ++ [(t_end c - t_start c)%Z]))
      with false in T
      by (symmetry; apply Nat.ltb_ge; rewrite length_app; cbn [length]; lia).
    injection T as T1 T2.
    destruct (IH (snd (process_vap' c x1 x2 v))) as [I1 I2].
    { rewrite T1, length_app. cbn [length]. lia. }
    rewrite I1, I2, T1, T2, <- app_assoc. split; reflexivity.
Qed.

(** The call that brings the list to 101 latencies prints their mean and
    clears the list. *)
Lemma latencies_reported (cs : list (call sample)) :
  forall v : VAP,
  length (list_process_time_context v) + length cs = period ->
  length (list_process_time_context v) <= CALC_PROCESS_TIME_INTERVAL ->
  list_process_time_context (run_calls' cs v) = [] /\
  stdout (run_calls' cs v)
    = stdout v ++ [average (list_process_time_context v ++ map latency cs)].
Proof.
  induction cs as [|[c [x1 x2]] cs IH]; intros v L B.
  - cbn [length] in L. lia.
  - cbn [run_calls map length] in *.
    pose proof (process_vap_timed c x1 x2 v) as T. unfold timed in T.
    destruct cs as [|k cs].
    + replace (CALC_PROCESS_TIME_INTERVAL
               <? length (list_process_time_context v ++ [(t_end c - t_start c)%Z]))
        with true in T
        by (symmetry; apply Nat.ltb_lt; rewrite length_app; cbn [length] in *; lia).
      injection T as T1 T2. cbn [run_calls map]. rewrite T1, T2. split; reflexivity.
    + replace (CALC_PROCESS_TIME_INTERVAL
               <? length (list_process_time_context v ++ [(t_end c - t_start c)%Z]))
        with false in T
        by (symmetry; apply Nat.ltb_ge; rewrite length_app; cbn [length] in *; lia).
      injection T as T1 T2.
      destruct (IH (snd (process_vap' c x1 x2 v))) as [I1 I2].
      { rewrite T1, length_app. cbn [length] in *. lia. }
      { rewrite T1, length_app. cbn [length] in *. lia. }
      rewrite I1, I2, T1, T2, <- app_assoc. split; reflexivity.
Qed.

(** From an empty list of latencies: a report for every 101 calls, each
    the mean of the latencies of these 101 calls. *)
Lemma latency_groups (q : nat) :
  forall (cs : list (call sample)) (r : nat) (v : VAP),
  list_process_time_context v = [] ->
  length cs = period * q + r -> r <= CALC_PROCESS_TIME_INTERVAL ->
  list_process_time_context (run_calls' cs v) = skipn (period * q) (map latency cs) /\
  stdout (run_calls' cs v)
    = stdout v
      ++ map (fun j => average (firstn period (skipn (period * j) (map latency cs))))
             (seq 0 q).
Proof.
  induction q as [|q IH]; intros cs r v E L R.
  - rewrite Nat.mul_0_r in *. cbn [skipn seq map].
    destruct (@latencies_kept cs v) as [K1 K2].
    { rewrite E. cbn [length]. lia. }
    rewrite K1, K2, E, app_nil_r. split; reflexivity.
  - assert (L1 : length (firstn period cs) = period)
      by (rewrite length_firstn; unfold CALC_PROCESS_TIME_INTERVAL in *; lia).
    assert (L2 : length (skipn period cs) = period * q + r)
      by (rewrite length_skipn; unfold CALC_PROCESS_TIME_INTERVAL in *; lia).
    pose proof (firstn_skipn period cs) as S.
    set (c1 := firstn period cs) in *. set (c2 := skipn period cs) in *.
    clearbody c1 c2. subst cs. clear L.
    rewrite run_calls_app.
    destruct (@latencies_reported c1 v) as [P1 P2].
    { rewrite E. cbn [length]. lia. }
    { rewrite E. cbn [length]. lia. }
    rewrite E in P2. cbn [app] in P2.
    destruct (IH c2 r (run_calls' c1 v) P1 L2 R) as [I1 I2].
    assert (Ll : length (map latency c1) = period) by (rewrite length_map; exact L1).
    rewrite map_app. split.
    + rewrite I1. replace (period * S q) with (period + period * q)
        by (unfold CALC_PROCESS_TIME_INTERVAL; lia).
      rewrite (@skipn_past _ period (period * q) (map latency c1) (map latency c2) Ll).
      reflexivity.
    + rewrite I2, P2, <- app_assoc. cbn [seq map app].
      rewrite Nat.mul_0_r. cbn [skipn]. rewrite (@firstn_exact _ period (map latency c1) (map latency c2) Ll).
      rewrite <- seq_shift, map_map. f_equal. f_equal. apply map_ext. intros j.
      replace (period * S j) with (period + period * j)
        by (unfold CALC_PROCESS_TIME_INTERVAL; lia).
      rewrite (@skipn_past _ period (period * j) (map latency c1) (map latency c2) Ll).
      reflexivity.
Qed.

End NeverRaises.

(** X14: the latency report, for any sequence of calls on a new object
    with a collaborator that never raises: the mean is printed with every
    101st call (the test is [len > 100], after the append), and the report
    number [j] is the mean of the latencies measured in the calls number
    [101 j + 1] to [101 j + 101], no other; after [n = 101 q + r] calls
    ([r <= 100]) [q] reports have been printed and the list holds the
    latencies of the last [r] calls, never more than 100. *)
Theorem latency_reports (cs : list (call sample)) :
  (forall x1 x2, encode_audio x1 x2 <> None) ->
  (forall a b, infer a b <> None) ->
  let v := run_calls' cs (new_vap sample embedding prob_zero) in
  let measured := map latency cs in
  exists q r,
    r <= CALC_PROCESS_TIME_INTERVAL /\
    length cs = period * q + r /\
    list_process_time_context v = skipn (period * q) measured /\
    length (list_process_time_context v) = r /\
    stdout v
      = map (fun j => average (firstn period (skipn (period * j) measured))) (seq 0 q).
Proof.
  intros He Hi v measured.
  assert (L0 : length (list_process_time_context (new_vap sample embedding prob_zero))
               <= CALC_PROCESS_TIME_INTERVAL) by (cbn [new_vap list_process_time_context length]; lia).
  destruct (@latency_report_period _ _ _ encode_audio infer cs He Hi
              (new_vap sample embedding prob_zero) L0) as (q & r & Hr & Hq & Hl & _).
  cbn [new_vap list_process_time_context length Nat.add] in Hq.
  destruct (@latency_groups He Hi q cs r (new_vap sample embedding prob_zero)
              eq_refl Hq Hr) as [G1 G2].
  exists q, r. split; [exact Hr|]. split; [exact Hq|].
  split; [exact G1|]. split; [exact Hl | exact G2].
Qed.

End Inference.

Lemma latency_reports_witness :
  exists q r,
    r <= CALC_PROCESS_TIME_INTERVAL /\
    length (calls0 202) = S CALC_PROCESS_TIME_INTERVAL * q + r /\
    list_process_time_context (run0 202)
      = skipn (S CALC_PROCESS_TIME_INTERVAL * q) (map (@latency nat) (calls0 202)) /\
    length (list_process_time_context (run0 202)) = r /\
    stdout (run0 202)
      = map (fun j => average (firstn (S CALC_PROCESS_TIME_INTERVAL)
                                 (skipn (S CALC_PROCESS_TIME_INTERVAL * j)
                                    (map (@latency nat) (calls0 202)))))
            (seq 0 q).
Proof.
  assert (He : forall x1 x2 : list nat,
            (fun _ _ : list nat => Some (0, 0)) x1 x2 <> None) by discriminate.
  assert (Hi : forall a b : list nat,
            (fun _ _ : list nat => Some (0, 0)) a b <> None) by discriminate.
  pose proof (@latency_reports nat nat nat 0 (fun _ _ => Some (0, 0))
                (fun _ _ => Some (0, 0)) (calls0 202) He Hi) as H.
  cbv zeta in H. unfold run0. exact H.
Defined.

End InferenceMore.

(** ** More on the input server *)

Module ServerMore.
Import ServerFacts WireFacts.

Section Server.

Variable sample : Type.
Variable zero : sample.
Variable embedding : Type.
Variable prob : Type.
Variable encode_audio : list sample -> list sample -> option (embedding * embedding).
Variable infer : list embedding -> list embedding -> option (prob * prob).
Variable conv_bytearray_2_2floatarray : list byte -> option (chunk sample).
Variable clock : nat -> clock_reads.

Local Notation "'server''" := (server sample embedding prob).
Local Notation "'streaming''" :=
  (streaming encode_audio infer conv_bytearray_2_2floatarray clock).
Local Notation "'serve''" :=
  (serve zero encode_audio infer conv_bytearray_2_2floatarray clock).
Local Notation "'proc_serv_in''" :=
  (proc_serv_in zero encode_audio infer conv_bytearray_2_2floatarray clock).
Local Notation "'run_calls''" := (run_calls encode_audio infer).

(** X1: [proc_serv_in] returns in one case only: when [socket], [bind],
    [listen] or [accept] raise in the very first turn of its outer loop.
    The handler then prints [addr], which is still unbound, and the
    [NameError] leaves the function. Once a connection was accepted
    [addr] stays bound and the server goes back to listening after every
    failure, of the setup, the reads, the decoder or the model, whatever
    follows. *)
Theorem proc_serv_in_exits_only_at_start (env : list session) (st : server') :
  fst (proc_serv_in' env st) =
    match addr st, env with
    | None, SetupRaised :: _ => Exited
    | _, _ => Listening
    end.
Proof.
  destruct (addr st) as [a|] eqn:A.
  - apply proc_serv_in_listening. congruence.
  - destruct env as [|[|a s] env]; [reflexivity| |].
    + cbn [proc_serv_in serve]. unfold handler. rewrite A. reflexivity.
    + cbn [proc_serv_in].
      destruct (@serve_listening _ zero _ _ encode_audio infer conv_bytearray_2_2floatarray
                  clock (Accepted a s) st) as [S1 S2]; [right; eauto|].
      destruct (serve' (Accepted a s) st) as [e st']. cbn [fst snd] in *. subst e.
      apply proc_serv_in_listening. exact S2.
Qed.




(** The clock readings and the windows of the calls made from call [n]
    on. *)
Definition calls_from (n : nat) (ws : list (window sample)) : list (call sample) :=
  combine (map clock (seq n (length ws))) ws.

Lemma streaming_frames (frames : list (list byte)) :
  forall (cs : list (chunk sample)) (b : buffers sample) (st : server') (fuel : nat),
  Forall (fun f => length f = size_recv) frames ->
  map conv_bytearray_2_2floatarray frames = map Some cs ->
  (forall x1 x2, encode_audio x1 x2 <> None) ->
  (forall e1 e2, infer e1 e2 <> None) ->
  length frames + 2 <= fuel ->
  let ws := emitted (snd (feed b cs)) in
  streaming' fuel b (map Socket.Bytes frames) st
  = (Break, Server (run_calls' (calls_from (calls st) ws) (vap st)) (addr st)
                   (calls st + length ws) (windows st ++ ws)).
Proof.
  induction frames as [|f frames IH]; intros cs b st fuel Hf Hc He Hi Hfuel; cbn zeta.
  - destruct cs; [|discriminate].
    destruct fuel as [|[|fuel]]; [cbn [length] in Hfuel; lia ..|].
    cbn [feed snd emitted length calls_from seq map combine run_calls].
    rewrite Nat.add_0_r, app_nil_r. destruct st. reflexivity.
  - destruct cs as [|c cs]; [discriminate|].
    cbn [map] in Hc. injection Hc as Hc0 Hc.
    inversion Hf as [|f' frames' Lf Hf']; subst.
    destruct fuel as [|fuel]; [cbn [length] in Hfuel; lia|].
    cbn [length] in Hfuel.
    cbn [streaming map]. rewrite recv_frame_whole by exact Lf.
    replace (length f =? 0) with false
      by (symmetry; apply Nat.eqb_neq; rewrite Lf; discriminate).
    rewrite Hc0. rewrite feed_cons. cbn [snd].
    destruct (ingest b c) as [b' [[w1 w2]|]] eqn:I; cbn [fst snd emitted].
    + pose proof (@InferenceMore.process_vap_returns _ _ _ encode_audio infer
                    (clock (calls st)) w1 w2 (vap st) He Hi) as R.
      destruct (process_vap encode_audio infer (clock (calls st)) w1 w2 (vap st))
        as [pc v'] eqn:P.
      cbn [fst] in R. subst pc.
      rewrite (IH cs b' _ fuel Hf' Hc He Hi ltac:(lia)).
      cbn [vap addr calls windows length calls_from seq map combine run_calls].
      rewrite P. cbn [snd]. unfold calls_from.
      rewrite <- app_assoc. cbn [app].
      replace (S (calls st) + length (emitted (snd (feed b' cs))))
        with (calls st + S (length (emitted (snd (feed b' cs))))) by lia.
      reflexivity.
    + apply (IH cs b' st fuel Hf' Hc He Hi). lia.
Qed.

(** X15: one whole producer session, from [accept] to the close of the
    connection, of frames of 2560 bytes that arrive whole, with a decoder
    and a model that do not raise: the buffers start from the 320 zeros
    whatever the session before left, every frame goes through the
    decoder, the windows handed to [process_vap] are exactly those the
    buffering gives on the decoded chunks, in order and one call each, on
    the one shared object; then the server is listening again. *)
Theorem session_windows (a : address) (frames : list (list byte))
    (cs : list (chunk sample)) (st : server') :
  Forall (fun f => length f = size_recv) frames ->
  map conv_bytearray_2_2floatarray frames = map Some cs ->
  (forall x1 x2, encode_audio x1 x2 <> None) ->
  (forall e1 e2, infer e1 e2 <> None) ->
  let ws := emitted (snd (feed (init_buffers zero) cs)) in
  serve' (Accepted a (map Socket.Bytes frames)) st
  = (Listening, Server (run_calls' (calls_from (calls st) ws) (vap st)) (Some a)
                       (calls st + length ws) (windows st ++ ws)).
Proof.
  intros Hf Hc He Hi ws. cbn [serve].
  rewrite (@streaming_frames frames cs (init_buffers zero) _ _ Hf Hc He Hi).
  - reflexivity.
  - assert (W : forall l : list (list byte),
              length l <= Socket.weight (map Socket.Bytes l)).
    { induction l as [|x l IHl]; cbn [map Socket.weight length]; lia. }
    specialize (W frames). lia.
Qed.

End Server.

(** *** Ten frames *)

Definition frame0 : list byte := repeat x00 size_recv.

Lemma session_windows_witness :
  Forall (fun f => length f = size_recv) (repeat frame0 10) /\
  let after :=
    snd (serve 0 (fun _ _ => Some (0, 0)) (fun _ _ => Some (0, 0))
               (fun _ => Some chunk0) (fun _ => ClockReads 0 1 2 3)
               (Accepted 7 (map Socket.Bytes (repeat frame0 10)))
               (Server (new_vap nat nat 0) None 0 [])) in
  calls after = 1 /\ length (windows after) = 1 /\ addr after = Some 7.
Proof.
  assert (Hf : Forall (fun f => length f = size_recv) (repeat frame0 10)).
  { apply Forall_forall. intros f Hin. apply repeat_spec in Hin. subst f.
    apply repeat_length. }
  assert (Hc : map (fun _ : list byte => Some chunk0) (repeat frame0 10)
               = map Some (repeat chunk0 10)) by reflexivity.
  assert (He : forall x1 x2 : list nat,
            (fun _ _ : list nat => Some (0, 0)) x1 x2 <> None) by discriminate.
  assert (Hi : forall a b : list nat,
            (fun _ _ : list nat => Some (0, 0)) a b <> None) by discriminate.
  split; [exact Hf|]. cbn zeta.
  rewrite (@session_windows nat 0 nat nat (fun _ _ => Some (0, 0)) (fun _ _ => Some (0, 0))
             (fun _ => Some chunk0) (fun _ => ClockReads 0 1 2 3) 7
             (repeat frame0 10) (repeat chunk0 10)
             (Server (new_vap nat nat 0) None 0 []) Hf Hc He Hi).
  cbn [snd calls windows addr]. split; [|split]; reflexivity.
Defined.

End ServerMore.

(** ** The console consumers *)

Module ConsoleFacts.
Import Console WireFacts.
Import String.StringSyntax.
Local Open Scope string_scope.

(** A frame as the distributor builds it (lines 432-434), of a payload
    that is not empty. *)
Definition framed (payload frame : list byte) : Prop :=
  payload <> [] /\ encode_frame payload = Some frame.

(** The printing turns: [num_step] reaches [STEP_STDOUT] with every 20th
    result. *)
Lemma step_mod (n : nat) :
  n < STEP_STDOUT ->
  ((n + 1) mod STEP_STDOUT =? 0) = (n =? 19).
Proof.
  unfold STEP_STDOUT. intros H.
  destruct (Nat.eq_dec n 19) as [->|N]; [reflexivity|].
  rewrite Nat.mod_small by lia.
  replace (n =? 19) with false by (symmetry; apply Nat.eqb_neq; exact N).
  apply Nat.eqb_neq. lia.
Qed.

Lemma nth_group {A} (ds rest : list A) (d dflt : A) (j : nat) :
  length ds = 19 ->
  nth 19 (ds ++ d :: rest) dflt = d /\
  nth (20 * S j + 19) (ds ++ d :: rest) dflt = nth (20 * j + 19) rest dflt.
Proof.
  intros L. split.
  - rewrite app_nth2 by lia. rewrite L, Nat.sub_diag. reflexivity.
  - rewrite app_nth2 by lia. rewrite L.
    replace (20 * S j + 19 - 19) with (S (20 * j + 19)) by lia. reflexivity.
Qed.

(** A list of at least 20 elements: the 19 first, the 20th, the rest. *)
Lemma split_group {A} (ds : list A) (n : nat) :
  length ds = 20 * S n + 0 \/ 20 <= length ds ->
  exists pre d rest, ds = pre ++ d :: rest /\ length pre = 19.
Proof.
  intros H. assert (L : 20 <= length ds) by lia. clear H.
  exists (firstn 19 ds).
  destruct (skipn 19 ds) as [|d rest] eqn:E.
  - apply (f_equal (@length A)) in E. rewrite length_skipn in E. cbn [length] in E. lia.
  - exists d, rest. split; [|rewrite length_firstn; lia].
    rewrite <- E. symmetry. apply firstn_skipn.
Qed.

Section LoopFacts.

Variable conv : list byte -> option dict.
Variable locals : Type.
Variable body : dict -> locals -> list line -> locals * list line * body_end.

(** The bodies in a row, on the results decoded, up to the first that
    raises. *)
Fixpoint steps (ds : list dict) (l : locals) (out : list line)
    : locals * list line * body_end :=
  match ds with
  | [] => (l, out, Done)
  | d :: ds' =>
      match body d l out with
      | (l', out', Done) => steps ds' l' out'
      | stop => stop
      end
  end.

Lemma steps_app (ds1 ds2 : list dict) :
  forall (l : locals) (out : list line),
  steps (ds1 ++ ds2) l out =
    match steps ds1 l out with
    | (l', out', Done) => steps ds2 l' out'
    | stop => stop
    end.
Proof.
  induction ds1 as [|d ds1 IH]; intros l out; [reflexivity|].
  cbn [app steps]. destruct (body d l out) as [[l' out'] [|]]; [apply IH | reflexivity].
Qed.



(** One frame that arrives whole: the read gives the decoder its payload. *)
Lemma read_result_whole (p f : list byte) (rest : Socket.conn) (fuel : nat) :
  framed p f ->
  read_result conv fuel (Socket.Bytes f :: rest)
  = Some (match conv p with
          | Some r => Decoded p r
          | None => Disconnected dict
          end, rest).
Proof.
  intros [Np E].
  assert (Hn : (N.of_nat (length p) < 4294967296)%N).
  { unfold encode_frame, Py.to_bytes4_little in E.
    destruct (N.of_nat (length p) <? 4294967296)%N eqn:T; [|discriminate].
    apply N.ltb_lt. exact T. }
  destruct (encode_frame_prefixed p Hn) as (header & E' & L4 & F).
  rewrite E in E'. injection E' as ->.
  unfold read_result.
  rewrite (@recv_first_length 4 (header ++ p) rest) by (rewrite ?length_app; lia).
  rewrite firstn_app, L4, Nat.sub_diag, firstn_all2 by lia.
  cbn [firstn]. rewrite app_nil_r.
  replace (length (header ++ p) <=? 4) with false.
  2:{ symmetry. apply Nat.leb_gt. rewrite length_app.
      destruct p; [congruence|]. cbn [length]. lia. }
  rewrite skipn_app, L4, Nat.sub_diag, skipn_all2 by lia. cbn [skipn app].
  rewrite F.
  rewrite (@recv_first_length (length p) p rest);
    [|destruct p; [congruence | cbn [length]; lia] | lia].
  rewrite firstn_all, Nat.leb_refl.
  destruct fuel; cbn [recv_until]; rewrite Nat.ltb_irrefl;
    destruct (conv p); reflexivity.
Qed.

(** The loop on frames that arrive whole, up to the close of the
    connection, with a decoder that raises on the empty payload: the
    bodies in a row, then the two lines of the handler. *)
Lemma client_loop_frames (ps : list (list byte)) :
  forall (fs : list (list byte)) (ds : list dict) (l : locals) (out : list line)
         (fuel : nat),
  Forall2 framed ps fs ->
  map conv ps = map Some ds ->
  conv [] = None ->
  length ps < fuel ->
  client_loop conv body fuel (map Socket.Bytes fs) l out
  = Some (fst (fst (steps ds l out)),
          snd (fst (steps ds l out)) ++ [Message "Disconnected from the server"; Exc]).
Proof.
  induction ps as [|p ps IH]; intros fs ds l out fuel Hf Hc He Hfuel.
  - inversion Hf; subst. destruct ds; [|discriminate].
    destruct fuel as [|fuel]; [cbn [length] in Hfuel; lia|].
    cbn [map client_loop steps fst snd].
    unfold read_result. cbn [Socket.recv Py.from_bytes_little N.to_nat].
    assert (U : recv_until fuel 0 [] [] = Some (Socket.Got [], []))
      by (destruct fuel; reflexivity).
    rewrite U, He. reflexivity.
  - inversion Hf as [|p' f ps' fs' Hp Hfs]; subst.
    destruct ds as [|d ds]; [discriminate|].
    cbn [map] in Hc. injection Hc as Hc0 Hc.
    destruct fuel as [|fuel]; [cbn [length] in Hfuel; lia|].
    cbn [length] in Hfuel.
    cbn [map client_loop]. rewrite (read_result_whole _ fuel Hp), Hc0.
    cbn [steps]. destruct (body d l out) as [[l' out'] [|]]; [|reflexivity].
    apply IH; auto. lia.
Qed.

End LoopFacts.

(** *** [console.py] *)

(** The block of lines 33-38 is appended to what was printed before. *)
Lemma report_appends (d : dict) (out : list line) :
  report d out = (out ++ fst (report d []), snd (report d [])).
Proof.
  unfold report. cbn [app].
  destruct (getitem d "t"); [|reflexivity].
  destruct (getitem d "x1") as [x1|]; [|rewrite <- app_assoc; reflexivity].
  destruct (slice10 x1); [|rewrite <- app_assoc; reflexivity].
  destruct (getitem d "x2") as [x2|]; [|rewrite <- !app_assoc; reflexivity].
  destruct (slice10 x2); [|rewrite <- !app_assoc; reflexivity].
  destruct (getitem d "p_now"); [|rewrite <- !app_assoc; reflexivity].
  destruct (getitem d "p_future"); rewrite <- !app_assoc; reflexivity.
Qed.

(** Fewer than 20 results since the last block: nothing is printed and
    the results are not looked at. *)
Lemma console_skips (ds : list dict) :
  forall (n : nat) (out : list line),
  n + length ds < STEP_STDOUT ->
  steps console_body ds n out = (n + length ds, out, Done).
Proof.
  induction ds as [|d ds IH]; intros n out H; cbn [steps length] in *.
  - rewrite Nat.add_0_r. reflexivity.
  - unfold console_body. rewrite step_mod by lia.
    replace (n =? 19) with false by (symmetry; apply Nat.eqb_neq; unfold STEP_STDOUT in H; lia).
    rewrite IH by lia. f_equal. f_equal. lia.
Qed.

(** The results that set off a block. *)
Definition printed (ds : list dict) (j : nat) : dict := nth (20 * j + 19) ds [].

Lemma console_steps (q : nat) :
  forall (ds : list dict) (r : nat) (out : list line),
  length ds = 20 * q + r -> r < 20 ->
  (forall j, j < q -> snd (report (printed ds j) []) = Done) ->
  steps console_body ds 0 out
  = (r, out ++ concat (map (fun j => fst (report (printed ds j) [])) (seq 0 q)), Done).
Proof.
  induction q as [|q IH]; intros ds r out L R P.
  - cbn [seq map concat]. rewrite app_nil_r.
    rewrite console_skips by (unfold STEP_STDOUT; lia). f_equal. f_equal. lia.
  - destruct (@split_group _ ds q) as (pre & d & rest & -> & Lp); [right; lia|].
    rewrite steps_app, console_skips by (unfold STEP_STDOUT; lia).
    cbn [steps Nat.add]. rewrite Lp. unfold console_body at 1. cbn [Nat.add].
    change (20 mod STEP_STDOUT =? 0) with true. cbv iota.
    assert (P0 : printed (pre ++ d :: rest) 0 = d).
    { unfold printed. apply (proj1 (@nth_group _ pre rest d [] 0 Lp)). }
    assert (PS : forall j, printed (pre ++ d :: rest) (S j) = printed rest j).
    { intros j. unfold printed. apply (proj2 (@nth_group _ pre rest d [] j Lp)). }
    rewrite report_appends. pose proof (P 0 ltac:(lia)) as D0. rewrite P0 in D0. rewrite D0.
    rewrite (IH rest r).
    + cbn [seq map concat]. rewrite P0, <- seq_shift, map_map, <- app_assoc.
      rewrite (map_ext (fun j => fst (report (printed (pre ++ d :: rest) (S j)) []))
                 (fun j => fst (report (printed rest j) [])));
        [reflexivity|]. intros j. rewrite PS. reflexivity.
    + rewrite length_app in L. cbn [length] in L. lia.
    + exact R.
    + intros j Hj. rewrite <- PS. apply P. lia.
Qed.

(** X16: the console consumer on a stream of frames as the distributor
    builds them, each arriving whole, until the server closes, with a
    decoder that raises on the empty payload (the only way the close is
    noticed): every frame is read and decoded, in order; a block is
    printed for the results number 20, 40, 60, ... and for no other; the
    results in between are decoded and not looked at; [num_step] counts
    the results since the last block; at the close the two lines of the
    handler are printed and the loop ends. *)
Theorem console_prints_every_20th (conv : list byte -> option dict)
    (ps fs : list (list byte)) (ds : list dict) (q r fuel : nat) :
  Forall2 framed ps fs ->
  map conv ps = map Some ds ->
  conv [] = None ->
  length ds = 20 * q + r -> r < 20 ->
  (forall j, j < q -> snd (report (printed ds j) []) = Done) ->
  length ps < fuel ->
  process_client conv fuel (map Socket.Bytes fs)
  = Some (r, concat (map (fun j => fst (report (printed ds j) [])) (seq 0 q))
             ++ [Message "Disconnected from the server"; Exc]).
Proof.
  intros Hf Hc He L R P Hfuel. unfold process_client.
  rewrite (@client_loop_frames conv nat console_body ps fs ds 0 [] fuel Hf Hc He Hfuel).
  rewrite (@console_steps q ds r [] L R P). reflexivity.
Qed.

(** What a block is made of. *)
Lemma report_block (d : dict) (t p_now p_future : value) (x1 x2 : list Q) :
  getitem d "t" = Some t ->
  getitem d "x1" = Some (Seq x1) -> getitem d "x2" = Some (Seq x2) ->
  getitem d "p_now" = Some p_now -> getitem d "p_future" = Some p_future ->
  report d []
  = ([Rule; Labelled "t:" t; Labelled "x1:" (Seq (firstn 10 x1));
      Labelled "x2:" (Seq (firstn 10 x2)); Labelled "p_now:" p_now;
      Labelled "p_future:" p_future], Done).
Proof.
  intros H1 H2 H3 H4 H5. unfold report. rewrite H1, H2, H3, H4, H5. reflexivity.
Qed.

(** The 20 results up to the first block that raises. *)
Lemma console_steps_raise (q : nat) :
  forall (ds : list dict) (out : list line),
  20 * q + 20 <= length ds ->
  (forall j, j < q -> snd (report (printed ds j) []) = Done) ->
  snd (report (printed ds q) []) = RaisedInBody ->
  steps console_body ds 0 out
  = (20, out ++ concat (map (fun j => fst (report (printed ds j) [])) (seq 0 q))
             ++ fst (report (printed ds q) []), RaisedInBody).
Proof.
  induction q as [|q IH]; intros ds out L P F;
    destruct (@split_group _ ds 0) as (pre & d & rest & -> & Lp); try (right; lia);
    assert (P0 : printed (pre ++ d :: rest) 0 = d)
      by (unfold printed; apply (proj1 (@nth_group _ pre rest d [] 0 Lp)));
    assert (PS : forall j, printed (pre ++ d :: rest) (S j) = printed rest j)
      by (intros j; unfold printed; apply (proj2 (@nth_group _ pre rest d [] j Lp)));
    rewrite steps_app, console_skips by (unfold STEP_STDOUT; lia);
    cbn [steps Nat.add]; rewrite Lp; unfold console_body at 1; cbn [Nat.add];
    change (20 mod STEP_STDOUT =? 0) with true; cbv iota;
    rewrite report_appends.
  - rewrite P0 in *. rewrite F. cbn [seq map concat app]. reflexivity.
  - pose proof (P 0 ltac:(lia)) as D0. rewrite P0 in D0. rewrite D0.
    rewrite (IH rest).
    + cbn [seq map concat]. rewrite P0, PS, <- seq_shift, map_map, <- !app_assoc.
      rewrite (map_ext (fun j => fst (report (printed (pre ++ d :: rest) (S j)) []))
                 (fun j => fst (report (printed rest j) [])));
        [reflexivity|]. intros j. rewrite PS. reflexivity.
    + rewrite length_app in L. cbn [length] in L. lia.
    + intros j Hj. rewrite <- PS. apply P. lia.
    + rewrite <- PS. exact F.
Qed.

(** X17: when the block of a result cannot be printed to its end (the
    result lacks one of the keys ['t'], ['x1'], ['x2'], ['p_now'],
    ['p_future'], or ['x1'] or ['x2'] is no sequence), the console
    consumer notices it only at a result number 20, 40, ...: the blocks
    before it are printed, then the lines of this block up to the failing
    one, then the two lines of the handler, and the consumer ends with
    [num_step = 20], whatever the server sends after that. *)
Theorem console_stops_at_failing_block (conv : list byte -> option dict)
    (ps fs : list (list byte)) (ds : list dict) (q fuel : nat) :
  Forall2 framed ps fs ->
  map conv ps = map Some ds ->
  conv [] = None ->
  20 * q + 20 <= length ds ->
  (forall j, j < q -> snd (report (printed ds j) []) = Done) ->
  snd (report (printed ds q) []) = RaisedInBody ->
  length ps < fuel ->
  process_client conv fuel (map Socket.Bytes fs)
  = Some (20, concat (map (fun j => fst (report (printed ds j) [])) (seq 0 q))
              ++ fst (report (printed ds q) [])
              ++ [Message "Disconnected from the server"; Exc]).
Proof.
  intros Hf Hc He L P F Hfuel. unfold process_client.
  rewrite (@client_loop_frames conv nat console_body ps fs ds 0 [] fuel Hf Hc He Hfuel).
  rewrite (@console_steps_raise q ds [] L P F). cbn [fst snd app].
  rewrite <- app_assoc. reflexivity.
Qed.

(** *** [console_okfj.py] *)

(** [d[k]], for a key that is there. *)
Definition item (d : dict) (k : String.string) : value :=
  match getitem d k with
  | Some v => v
  | None => Num 0
  end.

(** [not (v[0] > v[1])], for a sequence of two numbers or more. *)
Definition low (v : value) : bool :=
  match gt01 v with
  | Some gt => negb gt
  | None => false
  end.

Definition has_keys (d : dict) : Prop :=
  getitem d "p_now" <> None /\ getitem d "p_future" <> None.

Definition comparable (d : dict) : Prop :=
  gt01 (item d "p_now") <> None /\ gt01 (item d "p_future") <> None.

(** What is printed for the results that set off a block, given whether
    the block before was low on each side: the three lines, and a message
    for a side that is low now and was not in the block before. *)
Fixpoint okfj_output (was_now was_future : bool) (shown : list dict) : list line :=
  match shown with
  | [] => []
  | d :: shown' =>
      let p_now := item d "p_now" in
      let p_future := item d "p_future" in
      [Rule; Labelled "p_now (x1, x2):" p_now; Labelled "p_future (x1, x2):" p_future]
      ++ (if low p_now && negb was_now then [Message "VAP short-term: TRUE"] else [])
      ++ (if low p_future && negb was_future then [Message "VAP long-term: TRUE"] else [])
      ++ okfj_output (low p_now) (low p_future) shown'
  end.

Lemma last_cons {A} (a d : A) (l : list A) : last (a :: l) d = last l a.
Proof.
  revert a d. induction l as [|b l IH]; intros a d; [reflexivity|].
  change (last (a :: b :: l) d) with (last (b :: l) d). rewrite !IH. reflexivity.
Qed.

Lemma okfj_skips (ds : list dict) :
  forall (n : nat) (fn ff : bool) (out : list line),
  Forall has_keys ds ->
  n + length ds < STEP_STDOUT ->
  steps okfj_body ds (OkfjLocals n fn ff) out
  = (OkfjLocals (n + length ds) fn ff, out, Done).
Proof.
  induction ds as [|d ds IH]; intros n fn ff out K H; cbn [steps length] in *.
  - rewrite Nat.add_0_r. reflexivity.
  - inversion K as [|d' ds' [K1 K2] K']; subst.
    unfold okfj_body. cbn [num_step flag_now flag_future].
    destruct (getitem d "p_now"); [|congruence].
    destruct (getitem d "p_future"); [|congruence].
    rewrite step_mod by lia.
    replace (n =? 19) with false by (symmetry; apply Nat.eqb_neq; unfold STEP_STDOUT in H; lia).
    rewrite IH by (auto; lia). f_equal. f_equal. f_equal. lia.
Qed.

Lemma okfj_block (d : dict) (fn ff : bool) (out : list line) :
  has_keys d -> comparable d ->
  okfj_body d (OkfjLocals 19 fn ff) out
  = (OkfjLocals 0 (low (item d "p_now")) (low (item d "p_future")),
     out ++ [Rule; Labelled "p_now (x1, x2):" (item d "p_now");
             Labelled "p_future (x1, x2):" (item d "p_future")]
         ++ (if low (item d "p_now") && negb fn
             then [Message "VAP short-term: TRUE"] else [])
         ++ (if low (item d "p_future") && negb ff
             then [Message "VAP long-term: TRUE"] else []),
     Done).
Proof.
  intros [K1 K2] [C1 C2]. unfold okfj_body, item, low in *.
  cbn [num_step flag_now flag_future].
  destruct (getitem d "p_now") as [pn|]; [|congruence].
  destruct (getitem d "p_future") as [pf|]; [|congruence].
  change ((19 + 1) mod STEP_STDOUT =? 0) with true. cbv iota.
  destruct (gt01 pn) as [gn|]; [|congruence].
  destruct (gt01 pf) as [gf|]; [|congruence].
  unfold edge.
  destruct gn, gf, fn, ff; cbn [negb andb app]; rewrite <- ?app_assoc;
    cbn [app]; rewrite ?app_nil_r; reflexivity.
Qed.

Lemma okfj_steps (q : nat) :
  forall (ds : list dict) (r : nat) (fn ff : bool) (out : list line),
  Forall has_keys ds ->
  length ds = 20 * q + r -> r < 20 ->
  (forall j, j < q -> comparable (printed ds j)) ->
  let shown := map (printed ds) (seq 0 q) in
  steps okfj_body ds (OkfjLocals 0 fn ff) out
  = (OkfjLocals r (last (map (fun d => low (item d "p_now")) shown) fn)
                  (last (map (fun d => low (item d "p_future")) shown) ff),
     out ++ okfj_output fn ff shown, Done).
Proof.
  induction q as [|q IH]; intros ds r fn ff out K L R P; cbn zeta.
  - cbn [seq map last okfj_output]. rewrite app_nil_r.
    rewrite okfj_skips by (auto; unfold STEP_STDOUT; lia). f_equal. f_equal. f_equal. lia.
  - destruct (@split_group _ ds q) as (pre & d & rest & -> & Lp); [right; lia|].
    apply Forall_app in K. destruct K as [Kp K].
    inversion K as [|d' rest' Kd Kr]; subst.
    assert (P0 : printed (pre ++ d :: rest) 0 = d)
      by (unfold printed; apply (proj1 (@nth_group _ pre rest d [] 0 Lp))).
    assert (PS : forall j, printed (pre ++ d :: rest) (S j) = printed rest j)
      by (intros j; unfold printed; apply (proj2 (@nth_group _ pre rest d [] j Lp))).
    rewrite steps_app, okfj_skips by (auto; unfold STEP_STDOUT; lia).
    cbn [steps Nat.add]. rewrite Lp. cbn [Nat.add].
    pose proof (P 0 ltac:(lia)) as C0. rewrite P0 in C0.
    rewrite (okfj_block fn ff out Kd C0).
    rewrite (IH rest r); auto.
    + cbn [seq map]. rewrite P0, <- seq_shift, (map_map S).
      rewrite (map_ext (fun j => printed (pre ++ d :: rest) (S j)) (printed rest))
        by exact PS.
      rewrite !last_cons. cbn [okfj_output]. rewrite <- !app_assoc.
      reflexivity.
    + rewrite length_app in L. cbn [length] in L. lia.
    + intros j Hj. rewrite <- PS. apply P. lia.
Qed.

(** X18: the second console consumer on the same kind of stream, of
    results that all hold ['p_now'] and ['p_future'], those number 20, 40,
    ... with two numbers or more in each: for these and no others it
    prints the two values, and 'VAP short-term: TRUE' ('VAP long-term:
    TRUE') exactly when [p_now[0] > p_now[1]] ([p_future]) does not hold
    in this result and held in the one printed before it, or this is the
    first one printed: the message marks a change and is not repeated
    while the state lasts, and the 19 results between two printed ones
    have no part in it. *)
Theorem okfj_reports_changes (conv : list byte -> option dict)
    (ps fs : list (list byte)) (ds : list dict) (q r fuel : nat) :
  Forall2 framed ps fs ->
  map conv ps = map Some ds ->
  conv [] = None ->
  Forall has_keys ds ->
  length ds = 20 * q + r -> r < 20 ->
  (forall j, j < q -> comparable (printed ds j)) ->
  length ps < fuel ->
  let shown := map (printed ds) (seq 0 q) in
  process_client_okfj conv fuel (map Socket.Bytes fs)
  = Some (OkfjLocals r (last (map (fun d => low (item d "p_now")) shown) false)
                       (last (map (fun d => low (item d "p_future")) shown) false),
          okfj_output false false shown
          ++ [Message "Disconnected from the server"; Exc]).
Proof.
  intros Hf Hc He K L R P Hfuel shown. unfold process_client_okfj.
  rewrite (@client_loop_frames conv okfj_locals okfj_body ps fs ds
             (OkfjLocals 0 false false) [] fuel Hf Hc He Hfuel).
  rewrite (@okfj_steps q ds r false false [] K L R P). reflexivity.
Qed.

(** X19: a result without ['p_now'] (or without ['p_future']): the second
    consumer reads both keys of every result, so it ends on the first such
    result, with nothing printed but the two lines of the handler; the
    first consumer reads them only to print, at the results number 20,
    40, ... *)
Theorem okfj_needs_both_keys (conv : list byte -> option dict)
    (p f : list byte) (d : dict) (rest : Socket.conn) (fuel : nat) :
  framed p f -> conv p = Some d ->
  getitem d "p_now" = None \/ getitem d "p_future" = None ->
  process_client_okfj conv (S fuel) (Socket.Bytes f :: rest)
  = Some (OkfjLocals 0 false false, [Message "Disconnected from the server"; Exc]) /\
  (forall out, console_body d 0 out = (1, out, Done)).
Proof.
  intros Hf Hc K. split; [|reflexivity].
  unfold process_client_okfj. cbn [client_loop].
  rewrite (read_result_whole conv rest fuel Hf), Hc.
  unfold okfj_body. destruct K as [K|K].
  - rewrite K. reflexivity.
  - rewrite K. destruct (getitem d "p_now"); reflexivity.
Qed.

(** *** Concrete streams *)

Definition header1 : list byte := [x01; x00; x00; x00].

(** A result as the consumers expect it: both sides low. *)
Definition result_low : dict :=
  [("t", Num 1); ("x1", Seq [1; 2; 3]%Q); ("x2", Seq []);
   ("p_now", Seq [1 # 4; 3 # 4]%Q); ("p_future", Seq [1 # 3; 2 # 3]%Q)].

(** A record with the keys of the backchannel server. *)
Definition result_bc : dict :=
  [("t", Num 1); ("x1", Seq []); ("x2", Seq []);
   ("p_bc_react", Num (1 # 10)); ("p_bc_emo", Num (2 # 10))].

(** A decoder that raises on the empty payload only. *)
Definition decoder (d : dict) (p : list byte) : option dict :=
  match p with
  | [] => None
  | _ => Some d
  end.

Lemma framed_repeat (n : nat) :
  Forall2 framed (repeat [x07] n) (repeat (header1 ++ [x07]) n).
Proof.
  induction n as [|n IH]; cbn [repeat]; constructor; [|exact IH].
  split; [discriminate | reflexivity].
Qed.

Lemma console_prints_every_20th_witness :
  process_client (decoder result_low) 22
    (map Socket.Bytes (repeat (header1 ++ [x07]) 21))
  = Some (1, [Rule; Labelled "t:" (Num 1); Labelled "x1:" (Seq [1; 2; 3]%Q);
              Labelled "x2:" (Seq []); Labelled "p_now:" (Seq [1 # 4; 3 # 4]%Q);
              Labelled "p_future:" (Seq [1 # 3; 2 # 3]%Q);
              Message "Disconnected from the server"; Exc]).
Proof.
  assert (Hc : map (decoder result_low) (repeat [x07] 21)
               = map Some (repeat result_low 21)) by reflexivity.
  assert (He : decoder result_low [] = None) by reflexivity.
  assert (L : length (repeat result_low 21) = 20 * 1 + 1) by reflexivity.
  assert (R : 1 < 20) by lia.
  assert (P : forall j, j < 1 ->
            snd (report (printed (repeat result_low 21) j) []) = Done).
  { intros [|j] Hj; [reflexivity | lia]. }
  assert (F : length (repeat [x07] 21) < 22) by (rewrite repeat_length; lia).
  exact (@console_prints_every_20th (decoder result_low) (repeat [x07] 21)
           (repeat (header1 ++ [x07]) 21) (repeat result_low 21) 1 1 22
           (framed_repeat 21) Hc He L R P F).
Defined.

Lemma console_stops_at_failing_block_witness :
  getitem result_bc "p_now" = None /\
  process_client (decoder result_bc) 26
    (map Socket.Bytes (repeat (header1 ++ [x07]) 25))
  = Some (20, [Rule; Labelled "t:" (Num 1); Labelled "x1:" (Seq []);
               Labelled "x2:" (Seq []);
               Message "Disconnected from the server"; Exc]).
Proof.
  assert (Hc : map (decoder result_bc) (repeat [x07] 25)
               = map Some (repeat result_bc 25)) by reflexivity.
  assert (He : decoder result_bc [] = None) by reflexivity.
  assert (L : 20 * 0 + 20 <= length (repeat result_bc 25))
    by (rewrite repeat_length; lia).
  assert (P : forall j, j < 0 ->
            snd (report (printed (repeat result_bc 25) j) []) = Done)
    by (intros j Hj; lia).
  assert (K : snd (report (printed (repeat result_bc 25) 0) []) = RaisedInBody)
    by reflexivity.
  assert (F : length (repeat [x07] 25) < 26) by (rewrite repeat_length; lia).
  split; [reflexivity|].
  exact (@console_stops_at_failing_block (decoder result_bc) (repeat [x07] 25)
           (repeat (header1 ++ [x07]) 25) (repeat result_bc 25) 0 26
           (framed_repeat 25) Hc He L P K F).
Defined.

Lemma okfj_reports_changes_witness :
  process_client_okfj (decoder result_low) 41
    (map Socket.Bytes (repeat (header1 ++ [x07]) 40))
  = Some (OkfjLocals 0 true true,
          [Rule; Labelled "p_now (x1, x2):" (Seq [1 # 4; 3 # 4]%Q);
           Labelled "p_future (x1, x2):" (Seq [1 # 3; 2 # 3]%Q);
           Message "VAP short-term: TRUE"; Message "VAP long-term: TRUE";
           Rule; Labelled "p_now (x1, x2):" (Seq [1 # 4; 3 # 4]%Q);
           Labelled "p_future (x1, x2):" (Seq [1 # 3; 2 # 3]%Q);
           Message "Disconnected from the server"; Exc]).
Proof.
  assert (Hc : map (decoder result_low) (repeat [x07] 40)
               = map Some (repeat result_low 40)) by reflexivity.
  assert (He : decoder result_low [] = None) by reflexivity.
  assert (K : Forall has_keys (repeat result_low 40)).
  { apply Forall_forall. intros d Hin. apply repeat_spec in Hin. subst d.
    split; discriminate. }
  assert (L : length (repeat result_low 40) = 20 * 2 + 0) by reflexivity.
  assert (R : 0 < 20) by lia.
  assert (P : forall j, j < 2 -> comparable (printed (repeat result_low 40) j)).
  { intros [|[|j]] Hj; [split; discriminate | split; discriminate | lia]. }
  assert (F : length (repeat [x07] 40) < 41) by (rewrite repeat_length; lia).
  exact (@okfj_reports_changes (decoder result_low) (repeat [x07] 40)
           (repeat (header1 ++ [x07]) 40) (repeat result_low 40) 2 0 41
           (framed_repeat 40) Hc He K L R P F).
Defined.

Lemma okfj_needs_both_keys_witness :
  getitem result_bc "p_now" = None /\
  process_client_okfj (decoder result_bc) 1 [Socket.Bytes (header1 ++ [x07])]
  = Some (OkfjLocals 0 false false, [Message "Disconnected from the server"; Exc]).
Proof.
  assert (Hf : framed [x07] (header1 ++ [x07])) by (split; [discriminate | reflexivity]).
  assert (Hc : decoder result_bc [x07] = Some result_bc) by reflexivity.
  assert (K : getitem result_bc "p_now" = None) by reflexivity.
  split; [exact K|].
  exact (proj1 (@okfj_needs_both_keys (decoder result_bc) [x07] (header1 ++ [x07])
                  result_bc [] 0 Hf Hc (or_introl K))).
Defined.

End ConsoleFacts.

(** ** From the broadcast to the consumer's loop *)

Module EndToEnd.
Import Registry Console ConsoleFacts DistributorFacts DistributorMore.
Import String.StringSyntax.
Local Open Scope string_scope.

Section Pipeline.

Variable sample : Type.
Variable embedding : Type.
Variable prob : Type.
Variable prob_zero : prob.
Variable encode_audio : list sample -> list sample -> option (embedding * embedding).
Variable infer : list embedding -> list embedding -> option (prob * prob).
Variable conv_vapresult_2_bytearray_bc : vap_result sample prob -> list byte.
Variable socks : nat -> conn_id -> sock.
Variable conv_bytearray_2_vapresult : list byte -> option dict.
Variable locals : Type.
Variable body : dict -> locals -> list line -> locals * list line * body_end.

Local Notation "'system''" := (system sample embedding prob).
Local Notation "'run''" := (run encode_audio infer conv_vapresult_2_bytearray_bc socks).
Local Notation "'boot''" := (boot embedding prob_zero).


Definition payload (b : sending sample prob) : list byte :=
  conv_vapresult_2_bytearray_bc (snapshot b).



End Pipeline.

(** *** The two broadcasts of the run above, read by consumer 1 *)



End EndToEnd.

(** ** The round trip through both wire shapes *)

Module RoundTrip.
Import WireFacts.


Section Codecs.

Variable sample : Type.
Variable prob : Type.

(** The codecs of the output payload: the distributor's encoder (line
    432) and the consumer's decoder (line 28 of [console.py]). *)
Variable conv_vapresult_2_bytearray_bc : vap_result sample prob -> list byte.
Variable conv_bytearray_2_vapresult : list byte -> option (vap_result sample prob).

(** Modelled from the spec: the encoder of the input payload is the
    producer's and is called nowhere in the sources; the specification has
    it give "exactly 2 * chunk_len * 8 bytes" and be the inverse of the
    decoder of line 387. *)
Variable conv_2floatarray_2_bytearray : chunk sample -> list byte.
Variable conv_bytearray_2_2floatarray : list byte -> option (chunk sample).


End Codecs.

(** *** Concrete codecs and streams *)








(** A header that arrives in two pieces: [recv(4)] returns the first byte
    only, which is read as the length, and the next three bytes of the
    header are handed to the decoder as the payload. *)
Lemma split_header_misread :
  encode_frame [x01; x02; x03] = Some (header3 ++ [x01; x02; x03]) /\
  read_result (fun data => Some data) 3
    [Socket.Bytes [x03]; Socket.Bytes [x00; x00; x00; x01; x02; x03]]
  = Some (Decoded [x00; x00; x00] [x00; x00; x00], [Socket.Bytes [x01; x02; x03]]).
Proof. split; reflexivity. Qed.

End RoundTrip.
